(** * ARISE predictions: the batch prediction pipeline and its UI config generator

    A shallow embedding of [src/perform_predict/predict.py], of
    [ui/tools/generate_files.py] and of [get_prediction_configuration] of
    [ui/ui/predict_ui.py], followed by the properties of the specification
    that were checked against it and by further properties of the code.

    Modelling conventions.
    - A table cell is a [value]: an integer, a float (only compared and
      counted here, so an exact rational [Q] stands for it; there is no
      NaN) or a string.  The integers of a column are 64-bit integers, as
      pandas keeps them: an integer is a [Z], [min() + 1] on a column of
      the historical data wraps around, and the properties that depend on
      the values of such a column take the range as a hypothesis.  The
      ranks of a ranking file are positions in a ranking; their sum is
      taken as it is.  Fixed values are scalars and variable
      values lists of scalars, as the data model of the specification has
      them.
    - A Python [dict] keeps insertion order, and that order becomes the
      column order of the tables: dicts are association lists with the
      update-in-place-or-append behaviour of [d[k] = v].
    - A [pandas.DataFrame] is a mutable object: tables live in a store
      ([frames]) and the functions receive and return locations, so that
      aliasing and in-place updates are visible.
    - Exceptions abort the computation and keep the store and the file
      system as they were when the exception was raised. *)

From Stdlib Require Import ZArith QArith List String Ascii Lia.
From stdpp Require Import gmap strings list.

#[local] Set Warnings "-register-all".

Local Open Scope Z_scope.
Local Open Scope nat_scope.
Local Open Scope string_scope.
Local Open Scope list_scope.

(* ================================================================== *)
(** * Part I: definitions *)
(* ================================================================== *)

(** ** Values, exceptions and results *)

Inductive value : Type :=
| VInt (z : Z)
| VFloat (q : Q)
| VStr (s : string).

(** The exceptions the modelled code can raise.  [ConfigError] is the bare
    [raise Exception] of [predict.py], which follows a logged message. *)
Inductive error : Type :=
| ConfigError
| KeyError
| TypeError
| ValueError
| IndexError
| FileNotFoundError
| FileExistsError
| NotADirectoryError
| ReadError
| CollaboratorError.

Inductive result (A : Type) : Type :=
| Ok (a : A)
| Raise (e : error).
Arguments Ok {A} a.
Arguments Raise {A} e.

Definition result_bind {A B} (r : result A) (k : A → result B) : result B :=
  match r with
  | Ok a => k a
  | Raise e => Raise e
  end.

(** [[f(x) for x in xs]] where [f] may raise: the first exception wins. *)
Fixpoint result_map {A B} (f : A → result B) (xs : list A) : result (list B) :=
  match xs with
  | [] => Ok []
  | x :: xs' =>
      result_bind (f x) (λ y,
      result_bind (result_map f xs') (λ ys, Ok (y :: ys)))
  end.

(** ** Python dictionaries *)

Definition dict (V : Type) : Type := list (string * V).

(** [d[k] = v] *)
Fixpoint dict_set {V} (k : string) (v : V) (d : dict V) : dict V :=
  match d with
  | [] => [(k, v)]
  | (k', v') :: d' =>
      if String.eqb k' k then (k', v) :: d' else (k', v') :: dict_set k v d'
  end.

Fixpoint dict_get {V} (k : string) (d : dict V) : option V :=
  match d with
  | [] => None
  | (k', v') :: d' => if String.eqb k' k then Some v' else dict_get k d'
  end.

Definition dict_keys {V} (d : dict V) : list string := map fst d.
Definition dict_values {V} (d : dict V) : list V := map snd d.

(** [d.update(items)], item after item *)
Definition dict_update {V} (d : dict V) (items : list (string * V)) : dict V :=
  fold_left (λ acc kv, dict_set (fst kv) (snd kv) acc) items d.

(** [{k: v for d in ds for k, v in d.items()}] *)
Definition dict_flatten {V} (ds : list (dict V)) : dict V :=
  dict_update [] (concat ds).

(** [a | b] *)
Definition dict_union {V} (a b : dict V) : dict V := dict_update a b.

(** [a.keys() & b.keys()] is not empty *)
Definition keys_overlap {V W} (a : dict V) (b : dict W) : bool :=
  existsb (λ k, existsb (String.eqb k) (dict_keys b)) (dict_keys a).

(** ** itertools and builtins *)

(** [itertools.product] of the lists [ls], as a list: the rightmost list
    varies fastest; the product of no list at all is the single empty tuple. *)
Fixpoint product {A} (ls : list (list A)) : list (list A) :=
  match ls with
  | [] => [[]]
  | l :: ls' => flat_map (λ x, map (cons x) (product ls')) l
  end.

(** [range(a, b)] *)
Definition range (a b : Z) : list Z :=
  map (λ i, (a + Z.of_nat i)%Z) (seq 0 (Z.to_nat (b - a))).

Fixpoint list_min (x : Z) (xs : list Z) : Z :=
  match xs with
  | [] => x
  | y :: ys => Z.min x (list_min y ys)
  end.

Fixpoint list_max (x : Z) (xs : list Z) : Z :=
  match xs with
  | [] => x
  | y :: ys => Z.max x (list_max y ys)
  end.

(** [x in s] on strings *)
Fixpoint str_contains (x s : string) : bool :=
  String.prefix x s ||
  match s with
  | EmptyString => false
  | String _ s' => str_contains x s'
  end.

Definition str_startswith (p s : string) : bool := String.prefix p s.

Definition str_endswith (p s : string) : bool :=
  Nat.leb (String.length p) (String.length s) &&
  String.eqb (String.substring (String.length s - String.length p)
                               (String.length p) s) p.

(** ** Tables *)

Record DataFrame : Type := {
  columns : list string;
  rows : list (list value)
}.

(** [pd.DataFrame(data, columns=cols)] for a list of tuples *)
Definition pd_DataFrame (data : list (list value)) (cols : list string) : DataFrame :=
  {| columns := cols; rows := data |}.

(** [df.empty]: one of the two axes has length zero *)
Definition df_empty (df : DataFrame) : bool :=
  Nat.eqb (length (columns df)) 0 || Nat.eqb (length (rows df)) 0.

Fixpoint column_index (name : string) (cols : list string) : option nat :=
  match cols with
  | [] => None
  | c :: cols' =>
      if String.eqb c name then Some 0 else S <$> column_index name cols'
  end.

(** [df[name]] and then [.tolist()] *)
Definition df_getitem (df : DataFrame) (name : string) : result (list value) :=
  match column_index name (columns df) with
  | None => Raise KeyError
  | Some i =>
      match mapM (λ r : list value, r !! i) (rows df) with
      | Some col => Ok col
      | None => Raise KeyError
      end
  end.

(** The cell of row [r] under column [name] *)
Definition cell (df : DataFrame) (r : list value) (name : string) : option value :=
  i ← column_index name (columns df); r !! i.

(** [df[name] = val] for a scalar [val]: an existing column is overwritten
    where it stands, a new one is appended *)
Definition df_setitem_scalar (name : string) (val : value) (df : DataFrame) : DataFrame :=
  match column_index name (columns df) with
  | Some i => {| columns := columns df; rows := map (λ r, <[i := val]> r) (rows df) |}
  | None => {| columns := columns df ++ [name]; rows := map (λ r, r ++ [val]) (rows df) |}
  end.

(** [df[name] = vals] for a sequence [vals], whose length must be the number
    of rows *)
Definition df_setitem (name : string) (vals : list value) (df : DataFrame)
  : result DataFrame :=
  if negb (Nat.eqb (length vals) (length (rows df))) then Raise ValueError else
  match column_index name (columns df) with
  | Some i =>
      Ok {| columns := columns df;
            rows := zip_with (λ r v, <[i := v]> r) (rows df) vals |}
  | None =>
      Ok {| columns := columns df ++ [name];
            rows := zip_with (λ r v, r ++ [v]) (rows df) vals |}
  end.

(** [df.insert(loc=len(df.columns), column=name, value=vals)]: refuses a
    column that is already there ([allow_duplicates] is left false) *)
Definition df_insert_last (name : string) (vals : list value) (df : DataFrame)
  : result DataFrame :=
  match column_index name (columns df) with
  | Some _ => Raise ValueError
  | None =>
      if negb (Nat.eqb (length vals) (length (rows df))) then Raise ValueError else
      Ok {| columns := columns df ++ [name];
            rows := zip_with (λ r v, r ++ [v]) (rows df) vals |}
  end.

(** [df.loc[:, ~df.columns.str.contains('^Unnamed')]] *)
Definition df_drop_unnamed (df : DataFrame) : DataFrame :=
  let keep := map (λ c, negb (str_startswith "Unnamed" c)) (columns df) in
  let pick {A} (xs : list A) : list A :=
    map snd (List.filter (λ p : bool * A, fst p) (combine keep xs)) in
  {| columns := pick (columns df); rows := map pick (rows df) |}.

(** ** Configuration *)

(** What [yaml.safe_load] returns. *)
Inductive yaml : Type :=
| YNull
| YBool (b : bool)
| YInt (z : Z)
| YFloat (q : Q)
| YStr (s : string)
| YSeq (items : list yaml)
| YMap (entries : list (string * yaml)).

(** The prediction-job configuration.  Its feature-space part is typed as the
    data model has it: [fixed_values] is a list of [{name: value}] mappings,
    [variable_values] a list of [{name: [values]}] mappings and the optional
    [interpolation_values] a list of names.  The value of the key
    [estimators] is kept as the YAML node it is, because [_run_predictions]
    walks it dynamically. *)
Record Config : Type := {
  cfg_fixed_values : list (dict value);
  cfg_variable_values : list (dict (list value));
  cfg_interpolation_values : option (list string);
  cfg_estimators : yaml
}.

Definition PRED_CONFIG_TARGET_VAR : string := "target_variable".
Definition PRED_CONFIG_GREATER_BETTER : string := "greater_is_better".
Definition PRED_CONFIG_ESTIMATOR_FILE : string := "estimator_file".

(** ** Estimators and the ranking table *)

(** A row of the ranking table, one field per column that
    [_get_highest_ranked_estimator] reads; the fields are named after the
    constants that hold the column names. *)
Record ranking_row : Type := {
  AM_COL_TARGET : string;
  AM_COL_RANK_MAPE : Z;
  AM_COL_RANK_NRMSE_MAXMIN : Z;
  AM_COL_LINEAR : bool;
  AM_COL_ESTIMATOR : string
}.

(** A loaded estimator: an object with a [predict] operation, which may
    raise.  The operation reads the table it is given and leaves it as it
    is. *)
Record estimator : Type := {
  predict : DataFrame → result (list value)
}.

(** A directory of trained estimators: the ranking file, when there is one,
    and the serialized estimators by file name. *)
Record folder : Type := {
  AM_RANKINGS_FILE : option (list ranking_row);
  pickle_files : gmap string estimator
}.

(** ** The store and the file system *)

Definition loc : Type := nat.

(** The kinds of files are kept apart: a path is taken to name
    at most one of a CSV file, a configuration file, a directory of
    estimators and an archive.  A directory of estimators stands for the
    ranking file and the serialized estimators in it; what else lies below
    a directory is found by its path. *)
Record world : Type := {
  frames : gmap loc DataFrame;       (* the DataFrame objects *)
  csv_files : gmap string DataFrame; (* CSV files, by path *)
  yaml_files : gmap string Config;   (* configuration files, by path *)
  folders : gmap string folder;      (* estimator directories, by path *)
  archives : gmap string folder      (* zip archives of such directories *)
}.

Definition set_frames (f : gmap loc DataFrame) (w : world) : world :=
  {| frames := f; csv_files := csv_files w; yaml_files := yaml_files w;
     folders := folders w; archives := archives w |}.

Definition set_csv_files (c : gmap string DataFrame) (w : world) : world :=
  {| frames := frames w; csv_files := c; yaml_files := yaml_files w;
     folders := folders w; archives := archives w |}.

Definition set_yaml_files (y : gmap string Config) (w : world) : world :=
  {| frames := frames w; csv_files := csv_files w; yaml_files := y;
     folders := folders w; archives := archives w |}.

Definition set_folders (d : gmap string folder) (w : world) : world :=
  {| frames := frames w; csv_files := csv_files w; yaml_files := yaml_files w;
     folders := d; archives := archives w |}.

(** ** Computations: state and exceptions *)

Definition M (A : Type) : Type := world → result A * world.

Definition ret {A} (a : A) : M A := λ w, (Ok a, w).

Definition bind {A B} (m : M A) (k : A → M B) : M B :=
  λ w, match m w with
       | (Ok a, w') => k a w'
       | (Raise e, w') => (Raise e, w')
       end.

Definition raise {A} (e : error) : M A := λ w, (Raise e, w).

(** A pure computation that may raise *)
Definition lift {A} (r : result A) : M A := λ w, (r, w).

Declare Scope prog_scope.
Delimit Scope prog_scope with prog.
Notation "x <- m ;; k" := (bind m (λ x, k))
  (at level 100, m at next level, right associativity) : prog_scope.
Notation "m ;; k" := (bind m (λ _, k))
  (at level 100, right associativity) : prog_scope.
Local Open Scope prog_scope.

(** [for x in xs: body(x)] *)
Fixpoint for_each {A} (xs : list A) (body : A → M unit) : M unit :=
  match xs with
  | [] => ret tt
  | x :: xs' => body x ;; for_each xs' body
  end.

(** A new DataFrame object *)
Definition new_frame (df : DataFrame) : M loc :=
  λ w, let l := fresh (dom (frames w)) in
       (Ok l, set_frames (<[l := df]> (frames w)) w).

(** The table an object holds.  A location outside the store has no
    counterpart in Python; reading it is made an error. *)
Definition read_frame (l : loc) : M DataFrame :=
  λ w, match frames w !! l with
       | Some df => (Ok df, w)
       | None => (Raise KeyError, w)
       end.

(** An in-place update of an object *)
Definition update_frame (l : loc) (f : DataFrame → result DataFrame) : M unit :=
  df <- read_frame l ;;
  df' <- lift (f df) ;;
  (λ w, (Ok tt, set_frames (<[l := df']> (frames w)) w)).

(** [df.copy(deep=True)] *)
Definition frame_copy (l : loc) : M loc :=
  df <- read_frame l ;; new_frame df.

(** ** Paths and output files *)

(** [os.path.join(a, b)] on POSIX *)
Definition os_path_join (a b : string) : string :=
  if str_startswith "/" b then b
  else if String.eqb a "" || str_endswith "/" a then a +:+ b
  else a +:+ "/" +:+ b.

(** [utils/constants.py] is not among the sources at hand.  The names of the
    consolidated and of the ground-truth output are read off
    [ui/ui/predict_ui.py], which opens the outputs of the pipeline under
    them. *)
Definition PRED_ALL_PREDICTIONS_FILE : string := "all-predictions.csv".
Definition PRED_GROUND_TRUTH_FILE : string := "predictions-with-ground-truth.csv".

(** Modelled from the spec: [utils.write_df_to_csv], the tabular write
    helper, is not among the sources at hand.  It writes the table to
    [output_file] under [output_path] and returns the path of the file. *)
Definition write_df_to_csv (df : loc) (output_path output_file : string) : M string :=
  table <- read_frame df ;;
  let path := os_path_join output_path output_file in
  (λ w, (Ok path, set_csv_files (<[path := table]> (csv_files w)) w)).

(** What the pipeline takes from elsewhere and this development leaves
    open: two file names of [utils/constants.py], the helpers of [utils]
    that no property below is about, [pandas.merge] (with and without
    [on=]), the error metric of scikit-learn on one pair of values, and
    what [glob.glob] finds, among the paths of the files that exist, for a
    path name whose directory part is a pattern. *)
Class Collaborators : Type := {
  PRED_INPUT_SPACE_FILE : string;
  PRED_ORIGINAL_TRUTH_FILE : string;
  glob_in_pattern : list string → string → list string;
  add_feature_engineering :
    option string → DataFrame → dict string → option string → result DataFrame;
  get_estimator_file_name : string → string → string → string;
  pd_merge : DataFrame → DataFrame → result DataFrame;
  pd_merge_on : DataFrame → DataFrame → list string → result DataFrame;
  mean_absolute_percentage_error : value → value → result value
}.

(** ** The Input-Space Builder *)

Definition as_int (v : value) : result Z :=
  match v with
  | VInt z => Ok z
  | _ => Raise TypeError
  end.

(** The integers of a column of pandas are of type [int64]. *)
Definition int64_min : Z := (- 2 ^ 63)%Z.
Definition int64_max : Z := (2 ^ 63 - 1)%Z.

(** The value of an [int64] computation whose exact result is [z]: it wraps
    around. *)
Definition int64_wrap (z : Z) : Z := ((z - int64_min) mod 2 ^ 64 + int64_min)%Z.

(** [_get_data_range_missing_values]: [range] wants integers, so a column
    with another kind of cell raises; so does a column without cells, whose
    minimum is not a number.  [min()] and [max()] give [int64] numbers, and
    [min() + 1] is computed on them. *)
Definition _get_data_range_missing_values (original_data : DataFrame)
    (var_name : string) : result (list Z) :=
  result_bind (df_getitem original_data var_name) (λ cells,
  result_bind (result_map as_int cells) (λ col,
  match col with
  | [] => Raise ValueError
  | x :: xs =>
      let values := range (int64_wrap (list_min x xs + 1)) (list_max x xs) in
      Ok (List.filter (λ val, negb (existsb (Z.eqb val) col)) values)
  end)).

(** Lines 75 and 76 of [predict.py]: the values to interpolate, feature by
    feature, when there is historical data and it is not empty; [history] is
    the table that [original_data] holds, if any. *)
Definition interpolation_values_of (history : option DataFrame)
    (interpolation_values_list : list string) : result (dict (list value)) :=
  match history with
  | Some data =>
      if negb (df_empty data) then
        result_bind
          (result_map
             (λ k, result_bind (_get_data_range_missing_values data k)
                               (λ vals, Ok (k, map VInt vals)))
             interpolation_values_list)
          (λ items, Ok (dict_update [] items))
      else Ok []
  | None => Ok []
  end.

(** Lines 91 and 92: the fixed values, added to each row one after the
    other. *)
Definition add_fixed_values (fixed_values : dict value) (df : DataFrame) : DataFrame :=
  fold_left (λ acc kv, df_setitem_scalar (fst kv) (snd kv) acc) fixed_values df.

Section Pipeline.
Context `{Collaborators}.

Definition _create_input_space (input_config : Config) (original_data : option loc)
    (output_path : string) (feature_engineering : option (dict string))
    (metadata_parser_class_name metadata_path : option string)
  : M (string * loc) :=
  let fixed_values_list := cfg_fixed_values input_config in
  let variable_values_list := cfg_variable_values input_config in
  let interpolation_values_list :=
    default [] (cfg_interpolation_values input_config) in
  let fixed_values := dict_flatten fixed_values_list in
  let variable_values := dict_flatten variable_values_list in
  history <-
    match original_data with
    | Some od => data <- read_frame od ;; ret (Some data)
    | None => ret None
    end ;;
  interpolation_values <-
    lift (interpolation_values_of history interpolation_values_list) ;;
  if keys_overlap variable_values interpolation_values then raise ConfigError
  else
    let variable_dict := dict_union variable_values interpolation_values in
    let combinations := product (dict_values variable_dict) in
    input_space_df <-
      new_frame (pd_DataFrame combinations (dict_keys variable_dict)) ;;
    for_each fixed_values (λ kv,
      update_frame input_space_df
        (λ df, Ok (df_setitem_scalar (fst kv) (snd kv) df))) ;;
    input_space_df <-
      match feature_engineering with
      | Some fe =>
          df <- read_frame input_space_df ;;
          df' <- lift (add_feature_engineering metadata_path df fe
                         metadata_parser_class_name) ;;
          new_frame df'
      | None => ret input_space_df
      end ;;
    let output_file_df := PRED_INPUT_SPACE_FILE in
    path <- write_df_to_csv input_space_df output_path output_file_df ;;
    ret (path, input_space_df).

(** ** The Estimator Resolver *)

(** The rows of a table read by [pd.read_csv], under the labels of the
    default index: their positions in the file. *)
Definition indexed {A} (l : list A) : list (nat * A) :=
  combine (seq 0 (length l)) l.

(** [Series.idxmin()]: the label of the first occurrence of the minimum;
    an empty series raises. *)
Fixpoint idxmin_from (best : nat * Z) (s : list (nat * Z)) : nat :=
  match s with
  | [] => fst best
  | lv :: s' =>
      if (snd lv <? snd best)%Z then idxmin_from lv s' else idxmin_from best s'
  end.

Definition idxmin (s : list (nat * Z)) : result nat :=
  match s with
  | [] => Raise ValueError
  | lv :: s' => Ok (idxmin_from lv s')
  end.

(** The ranking file of an estimator directory; the bare [Exception] of the
    source when it cannot be located. *)
Definition read_rankings (estimator_path : string) : M (list ranking_row) :=
  λ w, match folders w !! estimator_path with
       | Some d =>
           match AM_RANKINGS_FILE d with
           | Some ranking => (Ok ranking, w)
           | None => (Raise ConfigError, w)
           end
       | None => (Raise ConfigError, w)
       end.

(** [_get_highest_ranked_estimator].  [ranking_df_var[n:]] with an integer
    [n] slices the rows by position, whatever the labels of the index are;
    [idxmin()] returns a label. *)
Definition _get_highest_ranked_estimator (estimator_path target_variable : string)
  : M string :=
  ranking <- read_rankings estimator_path ;;
  let ranking_df := indexed ranking in
  let ranking_df_var :=
    List.filter (λ r, String.eqb (AM_COL_TARGET (snd r)) target_variable)
                ranking_df in
  let combined_rank :=
    map (λ r, (fst r, (AM_COL_RANK_MAPE (snd r)
                       + AM_COL_RANK_NRMSE_MAXMIN (snd r))%Z))
        ranking_df_var in
  label <- lift (idxmin combined_rank) ;;
  let best_row := drop label ranking_df_var in
  match best_row with
  | [] => raise IndexError
  | r :: _ =>
      let estimator_type :=
        if AM_COL_LINEAR (snd r) then "linear" else "nonlinear" in
      ret (get_estimator_file_name estimator_type (AM_COL_ESTIMATOR (snd r))
                                   target_variable)
  end.

(** ** Ranking of predictions *)

(** The docstring of [_rank_predictions] says of the target column:
    assumes numeric data.  The model ranks numbers; a column that holds a
    string is outside it and is made an error. *)
Definition as_num (v : value) : result Q :=
  match v with
  | VInt z => Ok (inject_Z z)
  | VFloat q => Ok q
  | VStr _ => Raise TypeError
  end.

Definition Qlt_bool (x y : Q) : bool := negb (Qle_bool y x).

(** How many values come strictly before [x] in the ranking order *)
Definition count_before (ascending : bool) (xs : list Q) (x : Q) : nat :=
  length (List.filter (λ y, if ascending then Qlt_bool y x else Qlt_bool x y) xs).

(** How many values are equal to [x] *)
Definition count_ties (xs : list Q) (x : Q) : nat :=
  length (List.filter (λ y, Qeq_bool y x) xs).

(** [Series.rank(ascending=...)] with the default method, "average": the
    values are put in order, the places are numbered from 1, and a value gets
    the mean of the places that the values equal to it occupy. *)
Definition rank_of (ascending : bool) (xs : list Q) (x : Q) : Q :=
  let places := seq (S (count_before ascending xs x)) (count_ties xs x) in
  Qmake (Z.of_nat (list_sum places)) (Pos.of_nat (length places)).

Definition series_rank (ascending : bool) (xs : list Q) : list Q :=
  map (rank_of ascending xs) xs.

(** [_rank_predictions]: the table is modified in place and returned. *)
Definition _rank_predictions (data : loc) (target_column : string)
    (greater_is_better : bool) : M loc :=
  update_frame data (λ df,
    result_bind (df_getitem df target_column) (λ cells,
    result_bind (result_map as_num cells) (λ xs,
    df_insert_last ("rank_" +:+ target_column)
      (map VFloat (series_rank (negb greater_is_better) xs)) df))) ;;
  ret data.

(** ** Walking the YAML of the estimator configuration *)

(** [for entry in y] *)
Definition py_iter (y : yaml) : result (list yaml) :=
  match y with
  | YSeq items => Ok items
  | YMap entries => Ok (map (λ kv, YStr (fst kv)) entries)
  | YStr s => Ok (map (λ c, YStr (String c EmptyString)) (list_ascii_of_string s))
  | _ => Raise TypeError
  end.

(** [y[key]] for a string [key] *)
Definition py_getitem (y : yaml) (key : string) : result yaml :=
  match y with
  | YMap entries =>
      match dict_get key entries with
      | Some v => Ok v
      | None => Raise KeyError
      end
  | _ => Raise TypeError
  end.

(** [key in y] for a string [key] *)
Definition py_contains (key : string) (y : yaml) : result bool :=
  match y with
  | YMap entries => Ok (existsb (String.eqb key) (dict_keys entries))
  | YSeq items =>
      Ok (existsb (λ i, match i with YStr s => String.eqb s key | _ => false end)
                  items)
  | YStr s => Ok (str_contains key s)
  | _ => Raise TypeError
  end.

(** The truth value of [y] *)
Definition py_truthy (y : yaml) : bool :=
  match y with
  | YNull => false
  | YBool b => b
  | YInt z => negb (Z.eqb z 0)
  | YFloat q => negb (Qeq_bool q 0)
  | YStr s => negb (String.eqb s "")
  | YSeq items => negb (Nat.eqb (length items) 0)
  | YMap entries => negb (Nat.eqb (length entries) 0)
  end.

(** Names of targets and of files are strings, as the data model has
    them: the model takes no other value for a name. *)
Definition as_str (y : yaml) : result string :=
  match y with
  | YStr s => Ok s
  | _ => Raise TypeError
  end.

(** ** Archives and directories of estimators *)

(** [s.rsplit(c, 1)]: the parts before and after the last [c] *)
Fixpoint rsplit (c : ascii) (s : string) : option (string * string) :=
  match s with
  | EmptyString => None
  | String a s' =>
      match rsplit c s' with
      | Some (before, after) => Some (String a before, after)
      | None => if Ascii.eqb a c then Some (EmptyString, s') else None
      end
  end.

Fixpoint all_chars (c : ascii) (s : string) : bool :=
  match s with
  | EmptyString => true
  | String a s' => Ascii.eqb a c && all_chars c s'
  end.

(** [s.rstrip(c)] *)
Fixpoint rstrip (c : ascii) (s : string) : string :=
  match s with
  | EmptyString => EmptyString
  | String a s' => if all_chars c s then EmptyString else String a (rstrip c s')
  end.

Definition os_path_basename (p : string) : string :=
  match rsplit "/" p with
  | Some (_, name) => name
  | None => p
  end.

Definition os_path_dirname (p : string) : string :=
  match rsplit "/" p with
  | Some (before, _) =>
      let head := before +:+ "/" in
      if all_chars "/" head then head else rstrip "/" head
  | None => ""
  end.

(** [os.path.splitext] of a name without directory part: dots that lead
    the name do not start an extension. *)
Definition os_path_splitext (name : string) : string * string :=
  match rsplit "." name with
  | Some (root, ext) =>
      if all_chars "." root then (name, "") else (root, "." +:+ ext)
  | None => (name, "")
  end.

(** [zipfile.is_zipfile(path)] looks at the content of the file. *)
Definition is_zipfile (path : string) : M bool :=
  λ w, (Ok (bool_decide (is_Some (archives w !! path))), w).

(** [path] names a regular file. *)
Definition is_file (w : world) (path : string) : bool :=
  bool_decide (is_Some (csv_files w !! path))
  || bool_decide (is_Some (yaml_files w !! path))
  || bool_decide (is_Some (archives w !! path)).

(** [p] is a path below the directory [directory]. *)
Definition inside (directory p : string) : bool :=
  negb (String.eqb directory "")
  && str_startswith (os_path_join directory "") p.

(** The files of [files] that lie below [directory], and the others *)
Definition below {A} (directory : string) (files : gmap string A) : gmap string A :=
  filter (λ kv, inside directory kv.1 = true) files.

Definition outside {A} (directory : string) (files : gmap string A) : gmap string A :=
  filter (λ kv, inside directory kv.1 = false) files.

(** [os.path.isdir(path)]: a directory of estimators, or a directory that
    something lies below *)
Definition isdir (w : world) (path : string) : bool :=
  bool_decide (is_Some (folders w !! path))
  || negb (bool_decide (below path (csv_files w) = ∅)
           && bool_decide (below path (yaml_files w) = ∅)
           && bool_decide (below path (folders w) = ∅)
           && bool_decide (below path (archives w) = ∅)).

(** The archive holds no file. *)
Definition no_entry (content : folder) : bool :=
  match AM_RANKINGS_FILE content with
  | Some _ => false
  | None => bool_decide (pickle_files content = ∅)
  end.

(** What is in a directory after an archive was extracted into it *)
Definition extract_into (content : folder) (existing : option folder) : folder :=
  match existing with
  | None => content
  | Some old =>
      {| AM_RANKINGS_FILE :=
           match AM_RANKINGS_FILE content with
           | Some r => Some r
           | None => AM_RANKINGS_FILE old
           end;
         pickle_files := pickle_files content ∪ pickle_files old |}
  end.

(** [shutil.unpack_archive(filename, extract_dir)]: the format is chosen by
    the extension of the file name, and only [.zip] selects the zip format;
    without a known extension the call raises.  The directory is made for
    the first file that is extracted: an archive without files leaves
    nothing, and a regular file at the path of the directory makes
    [os.makedirs] raise. *)
Definition unpack_archive (filename extract_dir : string) : M unit :=
  λ w, match archives w !! filename with
       | Some content =>
           if str_endswith ".zip" filename then
             if no_entry content then (Ok tt, w)
             else if is_file w extract_dir then (Raise FileExistsError, w)
             else
               (Ok tt,
                set_folders (<[extract_dir :=
                                 extract_into content (folders w !! extract_dir)]>
                               (folders w)) w)
           else (Raise ReadError, w)
       | None => (Raise FileNotFoundError, w)
       end.

(** [shutil.rmtree(path)]: the directory goes with all that lies below
    it. *)
Definition rmtree (path : string) : M unit :=
  λ w, if is_file w path then (Raise NotADirectoryError, w)
       else if isdir w path then
         (Ok tt,
          {| frames := frames w;
             csv_files := outside path (csv_files w);
             yaml_files := outside path (yaml_files w);
             folders := delete path (outside path (folders w));
             archives := outside path (archives w) |})
       else (Raise FileNotFoundError, w).

(** Modelled from the spec: [utils.load_estimator], the estimator
    deserialization, is not among the sources at hand.  From a path and a
    file name it gives an object exposing a [predict] operation. *)
Definition load_estimator (input_path pickle_file : string) : M estimator :=
  λ w, match folders w !! input_path with
       | Some d =>
           match pickle_files d !! pickle_file with
           | Some e => (Ok e, w)
           | None => (Raise FileNotFoundError, w)
           end
       | None => (Raise FileNotFoundError, w)
       end.

(** ** Output directory *)

(** [fnmatch(name, "predictions-*.csv")] *)
Definition is_predictions_name (name : string) : bool :=
  str_startswith "predictions-" name && str_endswith ".csv" name &&
  Nat.leb (String.length "predictions-" + String.length ".csv")
          (String.length name).

(** [glob.has_magic]: the path has one of the special characters of
    [glob]. *)
Definition has_magic (s : string) : bool :=
  str_contains "*" s || str_contains "?" s || str_contains "[" s.

(** [glob.glob(os.path.join(output_path, "predictions-*.csv"))].  When
    [output_path] is free of the special characters of [glob], the files of
    the directory [output_path] whose name matches, in an order that is not
    specified.  Otherwise [output_path] is a pattern for directories, and
    what is found is left open. *)
Definition glob_predictions (output_path : string) : M (list string) :=
  λ w,
    let existing := map fst (map_to_list (csv_files w)) in
    if has_magic output_path then
      (Ok (glob_in_pattern existing
             (os_path_join output_path "predictions-*.csv")), w)
    else
      let prefix := os_path_join output_path "" in
      let in_directory (p : string) : bool :=
        str_startswith prefix p &&
        (let name := String.substring (String.length prefix)
                       (String.length p - String.length prefix) p in
         negb (str_contains "/" name) && is_predictions_name name) in
      (Ok (List.filter in_directory existing), w).

(** [pd.read_csv(filename)] *)
Definition pd_read_csv (filename : string) : M loc :=
  λ w, match csv_files w !! filename with
       | Some table => new_frame table w
       | None => (Raise FileNotFoundError, w)
       end.

(** ** The Prediction Runner *)

(** The directory an archive is extracted to: next to the archive, under
    its name without the extension. *)
Definition sibling_folder (estimator_path : string) : string :=
  os_path_join (os_path_dirname estimator_path)
               (fst (os_path_splitext (os_path_basename estimator_path))).

(** The body of the loop over the entries of the estimator configuration
    ([predict.py], lines 150 to 180).  The list [target_variables] of the
    source is appended to and never read; it is left out. *)
Definition predict_entry (input_data : loc) (estimator_folder output_path : string)
    (entry : yaml) : M unit :=
  target_variable <-
    lift (result_bind (py_getitem entry PRED_CONFIG_TARGET_VAR) as_str) ;;
  greater_is_better <- lift (py_getitem entry PRED_CONFIG_GREATER_BETTER) ;;
  given <- lift (py_contains PRED_CONFIG_ESTIMATOR_FILE entry) ;;
  estimator_file <-
    (if given : bool
     then lift (result_bind (py_getitem entry PRED_CONFIG_ESTIMATOR_FILE) as_str)
     else _get_highest_ranked_estimator estimator_folder target_variable) ;;
  estimator <- load_estimator estimator_folder estimator_file ;;
  input_table <- read_frame input_data ;;
  y_pred <- lift (predict estimator input_table) ;;
  predictions_df <- frame_copy input_data ;;
  update_frame predictions_df (df_setitem target_variable y_pred) ;;
  predictions_ranked_df <-
    _rank_predictions predictions_df target_variable
                      (py_truthy greater_is_better) ;;
  let output_file_preds := "predictions-" +:+ target_variable +:+ ".csv" in
  path <- write_df_to_csv predictions_ranked_df output_path output_file_preds ;;
  ret tt.

Definition ignore_files : list string :=
  [PRED_ALL_PREDICTIONS_FILE; PRED_GROUND_TRUTH_FILE].

(** [any(x in filename for x in ignore_files)] *)
Definition ignored (filename : string) : bool :=
  existsb (λ x, str_contains x filename) ignore_files.

(** The loop that reads the files to merge (lines 189 to 197): [dfs] grows
    by one table for each file that is not skipped. *)
Fixpoint read_predictions (all_predictions_files : list string) (dfs : list loc)
  : M (list loc) :=
  match all_predictions_files with
  | [] => ret dfs
  | filename :: rest =>
      if ignored filename then read_predictions rest dfs
      else df <- pd_read_csv filename ;; read_predictions rest (dfs ++ [df])
  end.

(** [reduce(lambda x, y: pd.merge(x, y), dfs)], after its first element *)
Fixpoint reduce_merge (x : loc) (dfs : list loc) : M loc :=
  match dfs with
  | [] => ret x
  | y :: rest =>
      tx <- read_frame x ;;
      ty <- read_frame y ;;
      merged <- lift (pd_merge tx ty) ;;
      x' <- new_frame merged ;;
      reduce_merge x' rest
  end.

(** Merging the predictions (lines 184 to 205) *)
Definition merge_predictions (output_path : string) : M loc :=
  all_predictions_files <- glob_predictions output_path ;;
  dfs <- read_predictions all_predictions_files [] ;;
  all_predictions_df <-
    match dfs with
    | [] => raise TypeError
    | x :: rest => reduce_merge x rest
    end ;;
  table <- read_frame all_predictions_df ;;
  all_predictions_df <- new_frame (df_drop_unnamed table) ;;
  let output_file_all_predictions := PRED_ALL_PREDICTIONS_FILE in
  path <- write_df_to_csv all_predictions_df output_path
                          output_file_all_predictions ;;
  ret all_predictions_df.

(** The comparison with the original data (lines 209 to 233) *)
Definition reconcile (original_data : option loc) (input_data all_predictions_df : loc)
    (output_path : string) : M unit :=
  match original_data with
  | None => ret tt
  | Some od =>
      original <- read_frame od ;;
      if df_empty original then ret tt
      else
        predictions <- read_frame all_predictions_df ;;
        input_table <- read_frame input_data ;;
        merged <- lift (pd_merge_on original predictions (columns input_table)) ;;
        if df_empty merged then ret tt
        else
          merged_df <- new_frame (df_drop_unnamed merged) ;;
          let merged_params := columns (df_drop_unnamed merged) in
          for_each (columns predictions) (λ p,
            if existsb (String.eqb (p +:+ "_pred")) merged_params &&
               existsb (String.eqb (p +:+ "_actual")) merged_params
            then
              update_frame merged_df (λ df,
                result_bind (df_getitem df (p +:+ "_actual")) (λ actual,
                result_bind (df_getitem df (p +:+ "_pred")) (λ pred,
                result_bind
                  (result_map
                     (λ tp, mean_absolute_percentage_error (fst tp) (snd tp))
                     (combine actual pred)) (λ errors,
                df_setitem (p +:+ "_mape") errors df))))
            else ret tt) ;;
          let output_file_merged := PRED_GROUND_TRUTH_FILE in
          write_df_to_csv merged_df output_path output_file_merged ;;
          write_df_to_csv od output_path PRED_ORIGINAL_TRUTH_FILE ;;
          ret tt
  end.

(** What [_run_predictions] does once the directory of the estimators is
    known (lines 149 to 237) *)
Definition run_in_folder (original_data : option loc) (input_data : loc)
    (estimators_config : Config) (estimator_path estimator_folder output_path : string)
  : M unit :=
  entries <- lift (py_iter (cfg_estimators estimators_config)) ;;
  for_each entries (predict_entry input_data estimator_folder output_path) ;;
  all_predictions_df <- merge_predictions output_path ;;
  reconcile original_data input_data all_predictions_df output_path ;;
  zipped <- is_zipfile estimator_path ;;
  if zipped : bool then rmtree estimator_folder else ret tt.

Definition _run_predictions (original_data : option loc) (input_data : loc)
    (estimators_config : Config) (estimator_path output_path : string) : M unit :=
  zipped <- is_zipfile estimator_path ;;
  estimator_folder <-
    (if zipped : bool then
       let estimator_folder := sibling_folder estimator_path in
       unpack_archive estimator_path estimator_folder ;;
       ret estimator_folder
     else ret estimator_path) ;;
  run_in_folder original_data input_data estimators_config estimator_path
                estimator_folder output_path.

(** [_read_yaml_config] *)
Definition _read_yaml_config (config_file : string) : M Config :=
  λ w, match yaml_files w !! config_file with
       | Some config => (Ok config, w)
       | None => (Raise FileNotFoundError, w)
       end.

Definition demo_predict (original_data : option loc) (config_file estimator_path : string)
    (feature_engineering : option (dict string))
    (metadata_parser_class_name metadata_path output_path : option string) : M unit :=
  match output_path with
  | None => raise ValueError
  | Some output_path =>
      config <- _read_yaml_config config_file ;;
      created <- _create_input_space config original_data output_path
                   feature_engineering metadata_parser_class_name metadata_path ;;
      let input_space_df := snd created in
      _run_predictions original_data input_space_df config estimator_path
                       output_path
  end.

End Pipeline.

(** ** The configuration generator of the UI *)

(** The entries of the global [config] of the UI that the generator reads:
    [config["job"]["prediction"][...]]. *)
Record ui_config : Type := {
  job_prediction_estimator_file : yaml;
  job_prediction_greater_is_better : yaml;
  job_prediction_config_file : string
}.

(** [generate_prediction_config_file]: what [yaml.dump] writes is what
    [yaml.safe_load] reads back. *)
Definition generate_prediction_config_file (config : ui_config)
    (fixed_input_values : list (dict value))
    (variable_input_values : list (dict (list value)))
    (output_values : list string) : M unit :=
  match output_values with
  | [] => raise IndexError
  | first :: _ =>
      let prediction_config :=
        {| cfg_fixed_values := fixed_input_values;
           cfg_variable_values := variable_input_values;
           cfg_interpolation_values := None;
           cfg_estimators :=
             YMap [("target_variable", YStr first);
                   ("estimator_file", job_prediction_estimator_file config);
                   ("greater_is_better", job_prediction_greater_is_better config)] |} in
      let prediction_config_file := job_prediction_config_file config in
      (λ w, (Ok tt,
             set_yaml_files (<[prediction_config_file := prediction_config]>
                               (yaml_files w)) w))
  end.

(** ** Notions used in the statements *)

Definition list_prod (ns : list nat) : nat := fold_right Nat.mul 1 ns.

(** The value written last under the key [k] in a list of items *)
Fixpoint last_write {V} (k : string) (items : list (string * V)) : option V :=
  match items with
  | [] => None
  | (k', v) :: rest =>
      match last_write k rest with
      | Some v' => Some v'
      | None => if String.eqb k' k then Some v else None
      end
  end.

Definition is_minimum (m : Z) (col : list Z) : Prop :=
  In m col ∧ ∀ y, In y col → (m <= y)%Z.

Definition is_maximum (m : Z) (col : list Z) : Prop :=
  In m col ∧ ∀ y, In y col → (y <= m)%Z.

(** No two places of [xs] hold equal numbers. *)
Definition no_ties (xs : list Q) : Prop :=
  ∀ i j x y, xs !! i = Some x → xs !! j = Some y → Qeq x y → i = j.

(** The numbers of [order] stand in the ranking order: ascending, or
    descending. *)
Definition in_ranking_order (ascending : bool) (order : list Q) : Prop :=
  ∀ i j a b, (i < j)%nat → order !! i = Some a → order !! j = Some b →
    if ascending then Qle a b else Qle b a.

(** The places of [order], counted from [k], at which a number equal to
    [x] stands *)
Fixpoint places_from (k : nat) (order : list Q) (x : Q) : list nat :=
  match order with
  | [] => []
  | y :: rest =>
      if Qeq_bool y x then k :: places_from (S k) rest x
      else places_from (S k) rest x
  end.

(** The ordinal ranks of the rows that hold [x], when the rows are put in
    the order [order]: places are counted from 1. *)
Definition ordinal_ranks (order : list Q) (x : Q) : list nat :=
  places_from 1 order x.

(** The average of natural numbers *)
Definition average (l : list nat) : Q :=
  Qmake (Z.of_nat (list_sum l)) (Pos.of_nat (length l)).

(** The files that the merge step reads, among those the scan found *)
Definition join_inputs (all_predictions_files : list string) : list string :=
  List.filter (λ filename, negb (ignored filename)) all_predictions_files.

(** The file that the runner writes for a target *)
Definition per_target_file (output_path target_variable : string) : string :=
  os_path_join output_path ("predictions-" +:+ target_variable +:+ ".csv").

(** The configuration without its [interpolation_values] *)
Definition without_interpolation (c : Config) : Config :=
  {| cfg_fixed_values := cfg_fixed_values c;
     cfg_variable_values := cfg_variable_values c;
     cfg_interpolation_values := None;
     cfg_estimators := cfg_estimators c |}.

(** [history] is the table that the object [original_data] holds in [w],
    if there is such an object. *)
Definition holds (w : world) (original_data : option loc)
    (history : option DataFrame) : Prop :=
  match original_data with
  | Some od => ∃ data, frames w !! od = Some data ∧ history = Some data
  | None => history = None
  end.

(** Every row has one cell per column. *)
Definition well_formed (df : DataFrame) : Prop :=
  Forall (λ r, length r = length (columns df)) (rows df).

(** The column [name] holds [v] in every row. *)
Definition constant_column (df : DataFrame) (name : string) (v : value) : Prop :=
  Forall (λ r, cell df r name = Some v) (rows df).

(** The configuration with other fixed values *)
Definition with_fixed_values (fixed : list (dict value)) (c : Config) : Config :=
  {| cfg_fixed_values := fixed;
     cfg_variable_values := cfg_variable_values c;
     cfg_interpolation_values := cfg_interpolation_values c;
     cfg_estimators := cfg_estimators c |}.

(** [m] leaves the directories of estimators and the archives as they
    are. *)
Definition keeps_directories {A} (m : M A) : Prop :=
  ∀ w r w', m w = (r, w') → folders w' = folders w ∧ archives w' = archives w.

(** [m] changes no object that exists when it starts, except those of
    [own]. *)
Definition changes_only {A} (own : gset loc) (m : M A) : Prop :=
  ∀ w r w', m w = (r, w') →
    ∀ l, l ∉ own → is_Some (frames w !! l) → frames w' !! l = frames w !! l.

(** ** A concrete environment for the examples *)

Definition empty_world : world :=
  {| frames := ∅; csv_files := ∅; yaml_files := ∅; folders := ∅; archives := ∅ |}.

(** Stand-ins for what the development leaves open; the examples below do
    not reach the ones that raise. *)
#[local] Instance sample_collaborators : Collaborators := {|
  PRED_INPUT_SPACE_FILE := "input-space.csv";
  PRED_ORIGINAL_TRUTH_FILE := "original-data.csv";
  glob_in_pattern := λ _ _, [];
  add_feature_engineering := λ _ _ _ _, Raise CollaboratorError;
  get_estimator_file_name :=
    λ estimator_type estimator target_variable,
      estimator_type +:+ "-" +:+ estimator +:+ "-" +:+ target_variable;
  pd_merge := λ _ _, Raise CollaboratorError;
  pd_merge_on := λ _ _ _, Raise CollaboratorError;
  mean_absolute_percentage_error := λ _ _, Raise CollaboratorError
|}.

(** ** Data of the examples *)

(** The example of the specification:
    [{fixed_values: [{a: 1}], variable_values: [{b: [1, 2]}]}] *)
Definition cfg_example : Config :=
  {| cfg_fixed_values := [[("a", VInt 1)]];
     cfg_variable_values := [[("b", [VInt 1; VInt 2])]];
     cfg_interpolation_values := None;
     cfg_estimators := YSeq [] |}.

(** [b] is given two lists of values. *)
Definition cfg_duplicate_names : Config :=
  {| cfg_fixed_values := [];
     cfg_variable_values :=
       [[("b", [VInt 1; VInt 2])]; [("b", [VInt 3; VInt 4; VInt 5])]];
     cfg_interpolation_values := None;
     cfg_estimators := YSeq [] |}.

(** [x] is both a variable and an interpolated feature. *)
Definition cfg_overlap : Config :=
  {| cfg_fixed_values := [];
     cfg_variable_values := [[("x", [VInt 1; VInt 2])]];
     cfg_interpolation_values := Some ["x"];
     cfg_estimators := YSeq [] |}.

(** Historical data with gaps in column [x] *)
Definition history_example : DataFrame :=
  {| columns := ["x"; "y"];
     rows := [[VInt 1; VStr "a"]; [VInt 5; VStr "b"]; [VInt 3; VStr "c"]] |}.

(** Historical data without any row *)
Definition history_without_rows : DataFrame :=
  {| columns := ["x"; "y"]; rows := [] |}.

(** Historical data whose column [x] holds floats *)
Definition history_of_floats : DataFrame :=
  {| columns := ["x"; "y"];
     rows := [[VFloat (1 # 1); VStr "a"]; [VFloat (5 # 1); VStr "b"]] |}.

(** Historical data whose column [x] holds the largest 64-bit integer and
    nothing else *)
Definition history_at_the_bound : DataFrame :=
  {| columns := ["x"]; rows := [[VInt int64_max]] |}.

Definition world_with_frame (df : DataFrame) : world :=
  {| frames := {[ 0 := df ]}; csv_files := ∅; yaml_files := ∅;
     folders := ∅; archives := ∅ |}.

(** A row of a ranking table *)
Definition ranking (target : string) (mape_rank nrmse_rank : Z) (linear : bool)
    (estimator : string) : ranking_row :=
  {| AM_COL_TARGET := target;
     AM_COL_RANK_MAPE := mape_rank;
     AM_COL_RANK_NRMSE_MAXMIN := nrmse_rank;
     AM_COL_LINEAR := linear;
     AM_COL_ESTIMATOR := estimator |}.

(** A world whose directory [models] holds a ranking file *)
Definition world_with_rankings (table : list ranking_row) : world :=
  {| frames := ∅; csv_files := ∅; yaml_files := ∅;
     folders := {[ "models" := {| AM_RANKINGS_FILE := Some table;
                                  pickle_files := ∅ |} ]};
     archives := ∅ |}.

(** The ranking table of the example of the specification *)
Definition rankings_example : list ranking_row :=
  [ranking "t" 2 1 true "E1"; ranking "t" 1 1 false "E2"].

(** The same rows after a row for another target *)
Definition rankings_after_another_target : list ranking_row :=
  [ranking "u" 1 1 true "E0"; ranking "t" 2 1 true "E1"; ranking "t" 1 1 false "E2"].

(** The same, with the best row of [t] first *)
Definition rankings_best_row_first : list ranking_row :=
  [ranking "u" 1 1 true "E0"; ranking "t" 1 1 false "E2"; ranking "t" 2 1 true "E1"].

(** A table of predictions for the target [t], not ranked yet *)
Definition predictions_example : DataFrame :=
  {| columns := ["x"; "t"];
     rows := [[VInt 1; VFloat (3 # 1)];
              [VInt 2; VFloat (1 # 1)];
              [VInt 3; VFloat (2 # 1)]] |}.

(** A table of predictions in which two rows are tied *)
Definition predictions_with_ties : DataFrame :=
  {| columns := ["x"; "t"];
     rows := [[VInt 1; VFloat (3 # 1)];
              [VInt 2; VFloat (1 # 1)];
              [VInt 3; VFloat (3 # 1)]] |}.

(** A table of predictions for [t] with a feature named [rank_t] *)
Definition predictions_with_rank_column : DataFrame :=
  {| columns := ["rank_t"; "t"];
     rows := [[VInt 7; VFloat (3 # 1)]; [VInt 8; VFloat (1 # 1)]] |}.

(** An estimator for the examples: it predicts [offset - b] from the
    first column. *)
Definition sample_estimator (offset : Z) : estimator :=
  {| predict := λ df,
       Ok (map (λ r, match r with
                     | VInt b :: _ => VFloat (inject_Z (offset - b))
                     | _ => VFloat 0
                     end) (rows df)) |}.

Definition sample_models : folder :=
  {| AM_RANKINGS_FILE := None;
     pickle_files := {[ "speed.pkl" := sample_estimator 10;
                        "overall.pkl" := sample_estimator 20 ]} |}.

Definition input_space_example : DataFrame :=
  {| columns := ["b"; "a"];
     rows := [[VInt 1; VInt 1]; [VInt 2; VInt 1]] |}.

(** The input space of the example as object 0, and a directory [models]
    of estimators *)
Definition world_with_models : world :=
  {| frames := {[ 0 := input_space_example ]};
     csv_files := ∅; yaml_files := ∅;
     folders := {[ "models" := sample_models ]};
     archives := ∅ |}.

(** The same with the estimators in the archive [store/models.zip] *)
Definition world_with_archive : world :=
  {| frames := {[ 0 := input_space_example ]};
     csv_files := ∅; yaml_files := ∅;
     folders := ∅;
     archives := {[ "store/models.zip" := sample_models ]} |}.

(** The archive [store/.zip], whose name is an extension and nothing else *)
Definition world_with_hidden_archive : world :=
  {| frames := {[ 0 := input_space_example ]};
     csv_files := ∅; yaml_files := ∅;
     folders := ∅;
     archives := {[ "store/.zip" := sample_models ]} |}.

(** An archive that holds no file *)
Definition world_with_empty_archive : world :=
  {| frames := {[ 0 := input_space_example ]};
     csv_files := ∅; yaml_files := ∅;
     folders := ∅;
     archives := {[ "store/models.zip" :=
                      {| AM_RANKINGS_FILE := None; pickle_files := ∅ |} ]} |}.

Definition estimator_entry (target_variable estimator_file : string) : yaml :=
  YMap [("target_variable", YStr target_variable);
        ("greater_is_better", YBool false);
        ("estimator_file", YStr estimator_file)].

(** One target, [speed] *)
Definition cfg_one_target : Config :=
  {| cfg_fixed_values := [[("a", VInt 1)]];
     cfg_variable_values := [[("b", [VInt 1; VInt 2])]];
     cfg_interpolation_values := None;
     cfg_estimators := YSeq [estimator_entry "speed" "speed.pkl"] |}.

(** Two targets, [speed] and [overall-predictions] *)
Definition cfg_two_targets : Config :=
  {| cfg_fixed_values := [[("a", VInt 1)]];
     cfg_variable_values := [[("b", [VInt 1; VInt 2])]];
     cfg_interpolation_values := None;
     cfg_estimators :=
       YSeq [estimator_entry "speed" "speed.pkl";
             estimator_entry "overall-predictions" "overall.pkl"] |}.

(** The estimator file of the second target is missing. *)
Definition cfg_missing_estimator : Config :=
  {| cfg_fixed_values := [[("a", VInt 1)]];
     cfg_variable_values := [[("b", [VInt 1; VInt 2])]];
     cfg_interpolation_values := None;
     cfg_estimators :=
       YSeq [estimator_entry "speed" "speed.pkl";
             estimator_entry "energy" "energy.pkl"] |}.

(** The run of the runner for the two targets, from an empty output
    directory *)
Definition two_targets_run : result unit * world :=
  _run_predictions None 0 cfg_two_targets "models" "out" world_with_models.

(** The entries of the UI configuration for the examples *)
Definition sample_ui_config : ui_config :=
  {| job_prediction_estimator_file := YStr "speed.pkl";
     job_prediction_greater_is_better := YBool false;
     job_prediction_config_file := "prediction.yaml" |}.

(** What the UI writes for one fixed input, one variable input and the
    output [speed], in the world of the examples *)
Definition generated_world : world :=
  snd (generate_prediction_config_file sample_ui_config
         [[("a", VInt 1)]] [[("b", [VInt 1; VInt 2])]] ["speed"]
         world_with_models).

(** The same configuration written by hand, with a list under
    [estimators] *)
Definition handwritten_world : world :=
  set_yaml_files {[ "prediction.yaml" := cfg_one_target ]} world_with_models.

(** ** Notions used in the further properties *)

(** Twice the rank of [x] among [xs], as a natural number *)
Definition twice_rank (ascending : bool) (xs : list Q) (x : Q) : nat :=
  2 * count_before ascending xs x + count_ties xs x + 1.

(** The combined rank of a row of the ranking table *)
Definition combined_rank_of (r : ranking_row) : Z :=
  (AM_COL_RANK_MAPE r + AM_COL_RANK_NRMSE_MAXMIN r)%Z.

(** The file name that [get_estimator_file_name] gives to the estimator of
    a row of the ranking table *)
Definition estimator_file_of `{Collaborators} (r : ranking_row)
    (target_variable : string) : string :=
  get_estimator_file_name (if AM_COL_LINEAR r then "linear" else "nonlinear")
                          (AM_COL_ESTIMATOR r) target_variable.

(** ** Data of the further examples *)

(** Historical data whose column [x] holds every integer from 1 to 3 *)
Definition history_without_gaps : DataFrame :=
  {| columns := ["x"; "y"];
     rows := [[VInt 2; VStr "a"]; [VInt 1; VStr "b"]; [VInt 3; VStr "c"]] |}.

(** [x] is interpolated, [b] is variable and [a] is fixed. *)
Definition cfg_interpolation : Config :=
  {| cfg_fixed_values := [[("a", VInt 1)]];
     cfg_variable_values := [[("b", [VInt 1; VInt 2])]];
     cfg_interpolation_values := Some ["x"];
     cfg_estimators := YSeq [] |}.

(** The list [l] is strictly increasing. *)
Definition increasing (l : list Z) : Prop :=
  ∀ i j a b, (i < j)%nat → l !! i = Some a → l !! j = Some b → (a < b)%Z.

(** The cell holds an integer. *)
Definition is_int (v : value) : Prop := ∃ z, v = VInt z.

(** [m] writes no file. *)
Definition silent {A} (m : M A) : Prop :=
  ∀ w r w', m w = (r, w') →
    csv_files w' = csv_files w ∧ yaml_files w' = yaml_files w.

(** [m] writes no configuration file, removes no CSV file and writes CSV
    files at the paths of [allowed] only. *)
Definition writes_only {A} (allowed : string → Prop) (m : M A) : Prop :=
  ∀ w r w', m w = (r, w') →
    yaml_files w' = yaml_files w ∧
    (∀ p, is_Some (csv_files w !! p) → is_Some (csv_files w' !! p)) ∧
    (∀ p, ¬ allowed p → csv_files w' !! p = csv_files w !! p).

(** [m] has written no CSV file when it raises. *)
Definition fails_silently {A} (m : M A) : Prop :=
  ∀ w e w', m w = (Raise e, w') → csv_files w' = csv_files w.

(** What [_run_predictions] does between the extraction of an archive and
    the removal of the extracted directory (lines 149 to 233) *)
Definition runner_steps `{Collaborators} (original_data : option loc)
    (input_data : loc) (estimators_config : Config)
    (estimator_folder output_path : string) : M unit :=
  entries <- lift (py_iter (cfg_estimators estimators_config)) ;;
  for_each entries (predict_entry input_data estimator_folder output_path) ;;
  all_predictions_df <- merge_predictions output_path ;;
  reconcile original_data input_data all_predictions_df output_path.

(** The files that the Prediction Runner writes under [output_path] *)
Definition runner_output `{Collaborators} (output_path p : string) : Prop :=
  (∃ target_variable, p = per_target_file output_path target_variable) ∨
  p = os_path_join output_path PRED_ALL_PREDICTIONS_FILE ∨
  p = os_path_join output_path PRED_GROUND_TRUTH_FILE ∨
  p = os_path_join output_path PRED_ORIGINAL_TRUTH_FILE.

(** The files that the pipeline writes under [output_path] *)
Definition pipeline_output `{Collaborators} (output_path p : string) : Prop :=
  p = os_path_join output_path PRED_INPUT_SPACE_FILE ∨
  runner_output output_path p.

(** [p] is a file that the merge step reads: a file of the output
    directory named [predictions-*.csv] that is not skipped. *)
Definition merge_input (output_path : string) (w : world) (p : string) : Prop :=
  is_Some (csv_files w !! p) ∧
  (∃ name, p = os_path_join output_path "" +:+ name ∧
           str_contains "/" name = false ∧
           is_predictions_name name = true) ∧
  ignored p = false.

(** An output directory that holds the predictions of one target *)
Definition world_with_predictions : world :=
  {| frames := ∅;
     csv_files := {[ "out/predictions-t.csv" := predictions_example ]};
     yaml_files := ∅; folders := ∅; archives := ∅ |}.

(** The world in which the ranking file of the directory
    [estimator_folder], if the directory is there, is [table], or is
    missing when [table] is [None] *)
Definition with_rankings (estimator_folder : string)
    (table : option (list ranking_row)) (w : world) : world :=
  set_folders
    (alter (λ d, {| AM_RANKINGS_FILE := table; pickle_files := pickle_files d |})
           estimator_folder (folders w)) w.

(** [m] does the same whatever the ranking file of [estimator_folder]
    holds. *)
Definition ignores_rankings {A} (estimator_folder : string) (m : M A) : Prop :=
  ∀ table w,
    m (with_rankings estimator_folder table w)
    = (fst (m w), with_rankings estimator_folder table (snd (m w))).

(** ** The form of the UI *)

(** What the widget of an input field holds in [st.session_state]:
    [set_input_fields] gives an input field a text input, which holds a
    string, a multiselect, which holds the list of the selected options, or
    a select slider with a pair as value, which holds a pair of integers.
    Python compares the two ends of the pair with [is not], by identity:
    [same_object] tells whether the two ends are one object, which implies
    that they are equal, and which CPython guarantees for equal integers
    from -5 to 256 only. *)
Inductive widget_state : Type :=
| text_input (text : string)
| multiselect (selected : list value)
| select_slider (low high : Z) (same_object : bool).

(** [st.session_state], by key: the widgets of the input fields, and the
    toggles that [set_output_fields] gives the output fields. *)
Record session : Type := {
  input_widgets : gmap string widget_state;
  toggle_widgets : gmap string bool
}.

(** Lines 158 and 159 of [predict_ui.py]: the truth value of what the
    widget holds, and its being other than the string [None] *)
Definition filled (state : widget_state) : bool :=
  match state with
  | text_input text => negb (String.eqb text "") && negb (String.eqb text "None")
  | multiselect selected => negb (Nat.eqb (length selected) 0)
  | select_slider _ _ _ => true
  end.

(** The loop over the input fields (lines 157 to 185): [None] is the early
    return of the source, after the message to the user. *)
Fixpoint collect_inputs (session_state : session) (config_input_fields : list string)
    (fixed_input_values : list (dict value))
    (variable_input_values : list (dict (list value)))
  : result (option (list (dict value) * list (dict (list value)))) :=
  match config_input_fields with
  | [] => Ok (Some (fixed_input_values, variable_input_values))
  | config_input_field :: rest =>
      match input_widgets session_state !! config_input_field with
      | None => Raise KeyError
      | Some state =>
          if filled state then
            match state with
            | multiselect selected =>
                if Nat.ltb 1 (length selected) then
                  collect_inputs session_state rest fixed_input_values
                    (variable_input_values ++ [[(config_input_field, selected)]])
                else
                  match selected with
                  | first :: _ =>
                      collect_inputs session_state rest
                        (fixed_input_values ++ [[(config_input_field, first)]])
                        variable_input_values
                  | [] => Raise IndexError
                  end
            | select_slider low high same_object =>
                if negb same_object then
                  collect_inputs session_state rest fixed_input_values
                    (variable_input_values
                     ++ [[(config_input_field, map VInt (range low (high + 1)))]])
                else
                  collect_inputs session_state rest
                    (fixed_input_values ++ [[(config_input_field, VInt low)]])
                    variable_input_values
            | text_input text =>
                collect_inputs session_state rest
                  (fixed_input_values ++ [[(config_input_field, VStr text)]])
                  variable_input_values
            end
          else Ok None
      end
  end.

(** The loop over the output fields (lines 187 to 190) *)
Fixpoint collect_outputs (session_state : session) (config_output_fields : list string)
    (output_values : list string) : result (list string) :=
  match config_output_fields with
  | [] => Ok output_values
  | config_output_field :: rest =>
      match toggle_widgets session_state !! config_output_field with
      | None => Raise KeyError
      | Some toggled =>
          if toggled : bool then
            collect_outputs session_state rest (output_values ++ [config_output_field])
          else collect_outputs session_state rest output_values
      end
  end.

(** [PredictUI.get_prediction_configuration], with [st.session_state] as
    an argument *)
Definition get_prediction_configuration (session_state : session)
    (config_input_fields config_output_fields : list string)
  : result (bool * list (dict value) * list (dict (list value)) * list string) :=
  result_bind (collect_inputs session_state config_input_fields [] [])
    (λ inputs,
       match inputs with
       | None => Ok (false, [], [], [])
       | Some (fixed_input_values, variable_input_values) =>
           result_bind (collect_outputs session_state config_output_fields [])
             (λ output_values,
                Ok (true, fixed_input_values, variable_input_values,
                    output_values))
       end).

(** ** Notions used in the properties of the form *)

(** The values that the widget selects for its field *)
Definition choices (state : widget_state) : list value :=
  match state with
  | text_input text => [VStr text]
  | multiselect selected => selected
  | select_slider low high _ => map VInt (range low (high + 1))
  end.

(** The widget selects one value: its field is a fixed one. *)
Definition single_choice (state : widget_state) : bool :=
  match state with
  | text_input _ => true
  | multiselect selected => negb (Nat.ltb 1 (length selected))
  | select_slider _ _ same_object => same_object
  end.

(** The first of the values that the widget selects *)
Definition first_choice (state : widget_state) : option value :=
  match state with
  | text_input text => Some (VStr text)
  | multiselect selected => head selected
  | select_slider low _ _ => Some (VInt low)
  end.

(** The fixed fields with their values, in the order of the fields *)
Definition fixed_items (session_state : session) (fields : list string)
  : list (string * value) :=
  omap (λ f, state ← input_widgets session_state !! f;
             if single_choice state
             then v ← first_choice state; Some (f, v)
             else None) fields.

(** The variable fields with their values, in the order of the fields *)
Definition variable_items (session_state : session) (fields : list string)
  : list (string * list value) :=
  omap (λ f, state ← input_widgets session_state !! f;
             if single_choice state then None else Some (f, choices state))
       fields.

(** The output fields whose toggle is on, in the order of the fields *)
Definition selected_outputs (session_state : session) (fields : list string)
  : list string :=
  List.filter (λ f, bool_decide (toggle_widgets session_state !! f = Some true))
              fields.

(** Every field has a widget, which holds something. *)
Definition all_filled (session_state : session) (fields : list string) : bool :=
  forallb (λ f, match input_widgets session_state !! f with
                | Some state => filled state
                | None => false
                end) fields.

(** The two ends of a pair that are one object are equal. *)
Definition consistent (session_state : session) : Prop :=
  ∀ f low high, input_widgets session_state !! f
                = Some (select_slider low high true) → low = high.

(** The session of the examples: a fixed text, a multiselect with two
    options selected and a slider from 1 to 3; one toggle on, one off. *)
Definition sample_session : session :=
  {| input_widgets :=
       {[ "a" := text_input "x";
          "b" := multiselect [VInt 1; VInt 2];
          "c" := select_slider 1 3 false ]};
     toggle_widgets := {[ "speed" := true; "energy" := false ]} |}.

(** The archive of the examples under a name without extension *)
Definition world_with_misnamed_archive : world :=
  {| frames := {[ 0 := input_space_example ]};
     csv_files := ∅; yaml_files := ∅;
     folders := ∅;
     archives := {[ "store/models" := sample_models ]} |}.

(** ** Notions used in the properties of the ground-truth table *)

(** [c] is the name of an error column. *)
Definition is_error_column (c : string) : Prop := ∃ p, c = p +:+ "_mape".

(** The join has both the actual and the predicted values of [p]. *)
Definition has_both (merged : DataFrame) (p : string) : Prop :=
  In (p +:+ "_pred") (columns merged) ∧ In (p +:+ "_actual") (columns merged).

(** In [table], the column [p_mape] holds, row by row, the error between
    the columns [p_actual] and [p_pred] of [merged]. *)
Definition error_column_of `{Collaborators} (merged table : DataFrame)
    (p : string) : Prop :=
  ∃ actual pred errors,
    df_getitem merged (p +:+ "_actual") = Ok actual ∧
    df_getitem merged (p +:+ "_pred") = Ok pred ∧
    result_map (λ tp, mean_absolute_percentage_error (fst tp) (snd tp))
               (combine actual pred) = Ok errors ∧
    df_getitem table (p +:+ "_mape") = Ok errors.

(** ** A second environment, in which the comparison goes through *)

(** The error of one prediction, for the numbers of the examples *)
Definition sample_error (y_true y_pred : value) : result value :=
  result_bind (as_num y_true) (λ a,
  result_bind (as_num y_pred) (λ p,
  let d := ((a - p) / a)%Q in
  Ok (VFloat (if Qle_bool 0 d then d else (- d)%Q)))).

(** History and consolidated predictions over the feature [x], and their
    join on [x] *)
Definition history_with_target : DataFrame :=
  {| columns := ["x"; "t"];
     rows := [[VInt 1; VFloat (3 # 1)]; [VInt 2; VFloat (1 # 1)]] |}.

Definition consolidated_example : DataFrame :=
  {| columns := ["x"; "t"; "rank_t"];
     rows := [[VInt 1; VFloat (2 # 1); VFloat (2 # 1)];
              [VInt 2; VFloat (1 # 1); VFloat (1 # 1)]] |}.

Definition joined_example : DataFrame :=
  {| columns := ["x"; "t_actual"; "t_pred"; "rank_t"];
     rows := [[VInt 1; VFloat (3 # 1); VFloat (2 # 1); VFloat (2 # 1)];
              [VInt 2; VFloat (1 # 1); VFloat (1 # 1); VFloat (1 # 1)]] |}.

(** Stand-ins with which the comparison of the example goes through: the
    join gives the table above, and feature engineering adds, for every
    feature it is given, a column under the name of its metadata feature,
    which holds the empty string. *)
Definition joining_collaborators : Collaborators := {|
  PRED_INPUT_SPACE_FILE := "input-space.csv";
  PRED_ORIGINAL_TRUTH_FILE := "original-data.csv";
  glob_in_pattern := λ _ _, [];
  add_feature_engineering :=
    λ _ df feature_engineering _,
      Ok (add_fixed_values (map (λ kv, (snd kv, VStr "")) feature_engineering)
                           df);
  get_estimator_file_name :=
    λ estimator_type estimator target_variable,
      estimator_type +:+ "-" +:+ estimator +:+ "-" +:+ target_variable;
  pd_merge := λ _ _, Raise CollaboratorError;
  pd_merge_on := λ _ _ _, Ok joined_example;
  mean_absolute_percentage_error := sample_error
|}.

(** The history as object 0, the consolidated predictions as object 1 and
    the input space, with the column [x], as object 2 *)
Definition world_with_history : world :=
  {| frames := {[ 0 := history_with_target; 1 := consolidated_example;
                  2 := {| columns := ["x"]; rows := [[VInt 1]; [VInt 2]] |} ]};
     csv_files := ∅; yaml_files := ∅; folders := ∅; archives := ∅ |}.

(* ================================================================== *)
(** * Part II: properties *)
(* ================================================================== *)

(** ** Lists, ranges and dictionaries *)

Lemma flat_map_length_const {A B} (f : A → list B) (l : list A) (n : nat) :
  (∀ x, length (f x) = n) → length (flat_map f l) = length l * n.
Proof.
  intros Hf. induction l as [|x l IH]; simpl; [reflexivity|].
  rewrite length_app, Hf, IH. lia.
Qed.

Lemma product_length {A} (ls : list (list A)) :
  length (product ls) = list_prod (map length ls).
Proof.
  induction ls as [|l ls IH]; simpl; [reflexivity|].
  rewrite (flat_map_length_const _ _ (length (product ls))).
  - now rewrite IH.
  - intros x. apply length_map.
Qed.

Lemma product_row_length {A} (ls : list (list A)) (r : list A) :
  In r (product ls) → length r = length ls.
Proof.
  revert r. induction ls as [|l ls IH]; simpl; intros r Hr.
  - destruct Hr as [<-|[]]. reflexivity.
  - apply in_flat_map in Hr as (x & _ & Hr).
    apply in_map_iff in Hr as (t & <- & Ht). simpl. f_equal. now apply IH.
Qed.

Lemma range_In (a b v : Z) : In v (range a b) ↔ (a <= v < b)%Z.
Proof.
  unfold range. rewrite in_map_iff. split.
  - intros (i & <- & Hi). apply in_seq in Hi. lia.
  - intros Hv. exists (Z.to_nat (v - a)). split; [lia|]. apply in_seq. lia.
Qed.

Lemma range_NoDup (a b : Z) : List.NoDup (range a b).
Proof.
  unfold range. apply Finite.Injective_map_NoDup; [|apply seq_NoDup].
  intros i j Hij. lia.
Qed.

Lemma list_min_spec (x : Z) (xs : list Z) : is_minimum (list_min x xs) (x :: xs).
Proof.
  revert x. induction xs as [|y ys IH]; intros x; simpl.
  - split; [now left|]. intros z [<-|[]]. lia.
  - destruct (IH y) as [Hin Hle]. split.
    + destruct (Z.min_spec x (list_min y ys)) as [[_ ->]|[_ ->]];
        [now left | now right].
    + intros z [<-|Hz]; [lia|]. specialize (Hle z Hz). lia.
Qed.

Lemma list_max_spec (x : Z) (xs : list Z) : is_maximum (list_max x xs) (x :: xs).
Proof.
  revert x. induction xs as [|y ys IH]; intros x; simpl.
  - split; [now left|]. intros z [<-|[]]. lia.
  - destruct (IH y) as [Hin Hle]. split.
    + destruct (Z.max_spec x (list_max y ys)) as [[_ ->]|[_ ->]];
        [now right | now left].
    + intros z [<-|Hz]; [lia|]. specialize (Hle z Hz). lia.
Qed.

Lemma minimum_unique (m m' : Z) (col : list Z) :
  is_minimum m col → is_minimum m' col → m = m'.
Proof. intros [H1 H2] [H3 H4]. specialize (H2 _ H3). specialize (H4 _ H1). lia. Qed.

Lemma maximum_unique (m m' : Z) (col : list Z) :
  is_maximum m col → is_maximum m' col → m = m'.
Proof. intros [H1 H2] [H3 H4]. specialize (H2 _ H3). specialize (H4 _ H1). lia. Qed.

Lemma existsb_Zeqb_In (v : Z) (col : list Z) :
  existsb (Z.eqb v) col = true ↔ In v col.
Proof.
  rewrite existsb_exists. split.
  - intros (y & Hy & Heq). apply Z.eqb_eq in Heq. now subst.
  - intros Hv. exists v. split; [assumption | apply Z.eqb_refl].
Qed.

Lemma result_map_as_int_VInt (col : list Z) :
  result_map as_int (map VInt col) = Ok col.
Proof. induction col as [|z col IH]; simpl; [reflexivity|]. now rewrite IH. Qed.

Lemma df_getitem_length (df : DataFrame) (name : string) (cells : list value) :
  df_getitem df name = Ok cells → length cells = length (rows df).
Proof.
  unfold df_getitem. destruct (column_index name (columns df)) as [i|]; [|discriminate].
  destruct (mapM _ (rows df)) as [col|] eqn:E; [|discriminate].
  intros [= <-]. symmetry. now apply length_mapM in E.
Qed.

(** ** Interpolation values *)

Lemma missing_values_spec (original_data : DataFrame) (var_name : string)
    (x : Z) (xs : list Z) :
  df_getitem original_data var_name = Ok (map VInt (x :: xs)) →
  _get_data_range_missing_values original_data var_name
  = Ok (List.filter (λ val, negb (existsb (Z.eqb val) (x :: xs)))
          (range (int64_wrap (list_min x xs + 1)) (list_max x xs))).
Proof.
  intros Hcol. unfold _get_data_range_missing_values. rewrite Hcol.
  cbn [result_bind]. rewrite result_map_as_int_VInt. reflexivity.
Qed.

(** Within the range of [int64] nothing wraps. *)
Lemma int64_wrap_in_range (z : Z) :
  (int64_min <= z <= int64_max)%Z → int64_wrap z = z.
Proof.
  unfold int64_wrap, int64_min, int64_max. intros Hz.
  rewrite Z.mod_small; lia.
Qed.

Lemma int64_wrap_max : int64_wrap (int64_max + 1) = int64_min.
Proof. reflexivity. Qed.

(** The successor of the minimum of a column of [int64] numbers does not
    wrap when one of them is not the largest [int64]. *)
Lemma int64_wrap_no_overflow (x : Z) (xs : list Z) (z : Z) :
  Forall (λ y, (int64_min <= y <= int64_max)%Z) (x :: xs) →
  In z (x :: xs) → (z < int64_max)%Z →
  int64_wrap (list_min x xs + 1) = (list_min x xs + 1)%Z.
Proof.
  intros Hrange Hz Hbelow.
  destruct (list_min_spec x xs) as [Hmin Hleast].
  rewrite List.Forall_forall in Hrange.
  specialize (Hrange _ Hmin). specialize (Hleast _ Hz).
  apply int64_wrap_in_range. unfold int64_min, int64_max in *. lia.
Qed.

Lemma interpolation_without_history (history : option DataFrame) (names : list string) :
  match history with
  | Some data => df_empty data = true
  | None => True
  end →
  interpolation_values_of history names = Ok [].
Proof.
  destruct history as [data|]; simpl; [|reflexivity].
  intros ->. reflexivity.
Qed.

(** ** Running computations *)

Lemma bind_Ok {A B} (m : M A) (k : A → M B) (w w1 : world) (a : A) :
  m w = (Ok a, w1) → bind m k w = k a w1.
Proof. intros E. unfold bind. now rewrite E. Qed.

Lemma bind_Raise {A B} (m : M A) (k : A → M B) (w w1 : world) (e : error) :
  m w = (Raise e, w1) → bind m k w = (Raise e, w1).
Proof. intros E. unfold bind. now rewrite E. Qed.

Lemma set_frames_same (w : world) : set_frames (frames w) w = w.
Proof. now destruct w. Qed.

Lemma read_frame_run (l : loc) (df : DataFrame) (w : world) :
  frames w !! l = Some df → read_frame l w = (Ok df, w).
Proof. intros E. unfold read_frame. now rewrite E. Qed.

Lemma update_frame_run (l : loc) (f : DataFrame → result DataFrame)
    (df : DataFrame) (w : world) :
  frames w !! l = Some df →
  update_frame l f w =
  match f df with
  | Ok df' => (Ok tt, set_frames (<[l := df']> (frames w)) w)
  | Raise e => (Raise e, w)
  end.
Proof.
  intros E. unfold update_frame.
  rewrite (bind_Ok _ _ _ _ _ (read_frame_run _ _ _ E)).
  unfold bind, lift. now destruct (f df).
Qed.

Lemma fixed_values_loop (l : loc) (items : dict value) :
  ∀ (df : DataFrame) (w : world),
    frames w !! l = Some df →
    for_each items
      (λ kv, update_frame l (λ df, Ok (df_setitem_scalar (fst kv) (snd kv) df))) w
    = (Ok tt, set_frames (<[l := add_fixed_values items df]> (frames w)) w).
Proof.
  induction items as [|kv items IH]; intros df w E; simpl.
  - unfold ret. rewrite (insert_id _ _ _ E). now rewrite set_frames_same.
  - erewrite bind_Ok; [|rewrite (update_frame_run _ _ _ _ E); reflexivity].
    erewrite IH; [|simpl; apply lookup_insert_eq].
    simpl. now rewrite insert_insert_eq.
Qed.

Section BuilderProperties.
Context `{Collaborators}.

Lemma read_history (w : world) (od : option loc) (history : option DataFrame) :
  holds w od history →
  match od with
  | Some l => bind (read_frame l) (λ data, ret (Some data))
  | None => ret None
  end w = (Ok history, w).
Proof.
  destruct od as [l|]; simpl.
  - intros (data & E & ->). now rewrite (bind_Ok _ _ _ _ _ (read_frame_run _ _ _ E)).
  - now intros ->.
Qed.

(** What [_create_input_space] does when the names do not overlap, without
    feature engineering: it makes one new table, the Cartesian product with
    the fixed values added, and writes it to the input-space file. *)
Lemma create_input_space_run (cfg : Config) (od : option loc) (out : string)
    (pc mp : option string) (w : world) (history : option DataFrame)
    (interp : dict (list value)) :
  holds w od history →
  interpolation_values_of history (default [] (cfg_interpolation_values cfg))
  = Ok interp →
  keys_overlap (dict_flatten (cfg_variable_values cfg)) interp = false →
  let variable_dict := dict_union (dict_flatten (cfg_variable_values cfg)) interp in
  let table :=
    add_fixed_values (dict_flatten (cfg_fixed_values cfg))
      (pd_DataFrame (product (dict_values variable_dict)) (dict_keys variable_dict)) in
  let l := fresh (dom (frames w)) in
  let path := os_path_join out PRED_INPUT_SPACE_FILE in
  _create_input_space cfg od out None pc mp w
  = (Ok (path, l),
     set_csv_files (<[path := table]> (csv_files w))
       (set_frames (<[l := table]> (frames w)) w)).
Proof.
  intros Hh Hi Hk. cbv zeta. unfold _create_input_space.
  rewrite (bind_Ok _ _ _ _ _ (read_history _ _ _ Hh)).
  unfold lift at 1. rewrite Hi. unfold bind at 1. rewrite Hk.
  unfold bind at 1, new_frame at 1.
  erewrite bind_Ok; [|apply fixed_values_loop; simpl; apply lookup_insert_eq].
  unfold bind at 1, ret at 1.
  unfold write_df_to_csv.
  erewrite bind_Ok; [|erewrite bind_Ok;
    [reflexivity | apply read_frame_run; simpl; apply lookup_insert_eq]].
  unfold ret. simpl. now rewrite insert_insert_eq.
Qed.

Lemma create_input_space_overlap (cfg : Config) (od : option loc) (out : string)
    (fe : option (dict string)) (pc mp : option string) (w : world)
    (history : option DataFrame) (interp : dict (list value)) :
  holds w od history →
  interpolation_values_of history (default [] (cfg_interpolation_values cfg))
  = Ok interp →
  keys_overlap (dict_flatten (cfg_variable_values cfg)) interp = true →
  _create_input_space cfg od out fe pc mp w = (Raise ConfigError, w).
Proof.
  intros Hh Hi Hk. unfold _create_input_space.
  rewrite (bind_Ok _ _ _ _ _ (read_history _ _ _ Hh)).
  unfold lift at 1. rewrite Hi. unfold bind at 1. now rewrite Hk.
Qed.

(** An accepted configuration went through the previous case. *)
Lemma create_input_space_accepted (cfg : Config) (od : option loc) (out : string)
    (fe : option (dict string)) (pc mp : option string) (w w' : world)
    (path : string) (l : loc) :
  _create_input_space cfg od out fe pc mp w = (Ok (path, l), w') →
  ∃ history interp,
    holds w od history ∧
    interpolation_values_of history (default [] (cfg_interpolation_values cfg))
    = Ok interp ∧
    keys_overlap (dict_flatten (cfg_variable_values cfg)) interp = false.
Proof.
  intros Hrun.
  assert (∃ history, holds w od history) as [history Hh].
  { destruct od as [l0|]; [|now exists None].
    destruct (frames w !! l0) as [data|] eqn:E; [exists (Some data); now exists data|].
    exfalso. revert Hrun. unfold _create_input_space, bind at 1, bind at 1, read_frame.
    now rewrite E. }
  exists history. revert Hrun. unfold _create_input_space.
  rewrite (bind_Ok _ _ _ _ _ (read_history _ _ _ Hh)).
  unfold lift at 1.
  destruct (interpolation_values_of _ _) as [interp|e] eqn:Hi;
    unfold bind at 1; [|discriminate].
  destruct (keys_overlap _ interp) eqn:Hk; [discriminate|].
  intros _. now exists interp.
Qed.

End BuilderProperties.

(** ** Dictionaries *)

Lemma dict_get_set {V} (k k' : string) (v : V) (d : dict V) :
  dict_get k (dict_set k' v d) = if String.eqb k' k then Some v else dict_get k d.
Proof.
  induction d as [|[k0 v0] d IH]; simpl.
  - reflexivity.
  - destruct (String.eqb k0 k') eqn:E0; simpl.
    + apply String.eqb_eq in E0. subst k0. now destruct (String.eqb k' k).
    + destruct (String.eqb k0 k) eqn:E1; [|exact IH].
      apply String.eqb_eq in E1. subst k0.
      rewrite String.eqb_sym in E0. now rewrite E0.
Qed.

Lemma dict_get_update {V} (k : string) (items : list (string * V)) :
  ∀ d : dict V,
    dict_get k (dict_update d items) =
    match last_write k items with
    | Some v => Some v
    | None => dict_get k d
    end.
Proof.
  unfold dict_update.
  induction items as [|[k' v'] items IH]; intros d; simpl; [reflexivity|].
  rewrite IH. destruct (last_write k items); [reflexivity|].
  rewrite dict_get_set. now destruct (String.eqb k' k).
Qed.

Lemma dict_set_keys {V} (k : string) (v : V) (d : dict V) :
  dict_keys (dict_set k v d) =
  if existsb (String.eqb k) (dict_keys d) then dict_keys d else dict_keys d ++ [k].
Proof.
  induction d as [|[k0 v0] d IH]; simpl; [reflexivity|].
  rewrite (String.eqb_sym k k0).
  destruct (String.eqb k0 k); simpl; [reflexivity|].
  fold (dict_keys d). rewrite IH.
  now destruct (existsb (String.eqb k) (dict_keys d)).
Qed.

Lemma existsb_eqb_In (k : string) (ks : list string) :
  existsb (String.eqb k) ks = true ↔ In k ks.
Proof.
  rewrite existsb_exists. split.
  - intros (y & Hy & Heq). apply String.eqb_eq in Heq. now subst.
  - intros Hk. exists k. split; [assumption | apply String.eqb_refl].
Qed.

Lemma dict_set_keys_NoDup {V} (k : string) (v : V) (d : dict V) :
  List.NoDup (dict_keys d) → List.NoDup (dict_keys (dict_set k v d)).
Proof.
  intros Hd. rewrite dict_set_keys.
  destruct (existsb (String.eqb k) (dict_keys d)) eqn:E; [assumption|].
  apply NoDup_app_remove_l with (l := []). simpl.
  apply List.NoDup_rev in Hd.
  rewrite <- (rev_involutive (dict_keys d ++ [k])). apply List.NoDup_rev.
  rewrite rev_app_distr. simpl. constructor; [|assumption].
  rewrite <- in_rev. intros Hin. apply existsb_eqb_In in Hin. congruence.
Qed.

Lemma dict_update_keys_NoDup {V} (items : list (string * V)) :
  ∀ d : dict V, List.NoDup (dict_keys d) → List.NoDup (dict_keys (dict_update d items)).
Proof.
  unfold dict_update.
  induction items as [|[k v] items IH]; intros d Hd; simpl; [assumption|].
  apply IH. now apply dict_set_keys_NoDup.
Qed.

Lemma dict_flatten_keys_NoDup {V} (ds : list (dict V)) :
  List.NoDup (dict_keys (dict_flatten ds)).
Proof. apply dict_update_keys_NoDup. constructor. Qed.

Lemma dict_get_flatten {V} (k : string) (ds : list (dict V)) :
  dict_get k (dict_flatten ds) = last_write k (concat ds).
Proof.
  unfold dict_flatten. rewrite dict_get_update.
  now destruct (last_write k (concat ds)).
Qed.

Lemma dict_get_keys {V} (k : string) (d : dict V) :
  In k (dict_keys d) ↔ ∃ v, dict_get k d = Some v.
Proof.
  induction d as [|[k0 v0] d IH]; simpl.
  - split; [intros [] | intros [v Hv]; discriminate].
  - destruct (String.eqb k0 k) eqn:E.
    + apply String.eqb_eq in E. split; [intros _; now exists v0 | intros _; now left].
    + apply String.eqb_neq in E. rewrite <- IH. fold (dict_keys d). intuition congruence.
Qed.

Lemma keys_overlap_true {V W} (a : dict V) (b : dict W) :
  keys_overlap a b = true ↔ ∃ k, In k (dict_keys a) ∧ In k (dict_keys b).
Proof.
  unfold keys_overlap. rewrite existsb_exists.
  split; intros (k & Ha & Hb); exists k; (split; [assumption|]);
    now apply existsb_eqb_In.
Qed.

(** ** Tables *)

Lemma column_index_Some (name : string) (cols : list string) (i : nat) :
  column_index name cols = Some i → cols !! i = Some name.
Proof.
  revert i. induction cols as [|c cols IH]; simpl; intros i; [discriminate|].
  destruct (String.eqb c name) eqn:E.
  - apply String.eqb_eq in E. intros [= <-]. now subst.
  - destruct (column_index name cols) as [j|]; simpl; [|discriminate].
    intros [= <-]. simpl. now apply IH.
Qed.

Lemma column_index_lt (name : string) (cols : list string) (i : nat) :
  column_index name cols = Some i → i < length cols.
Proof. intros Hi. apply column_index_Some in Hi. now apply lookup_lt_Some in Hi. Qed.

Lemma column_index_None (name : string) (cols : list string) :
  column_index name cols = None ↔ ¬ In name cols.
Proof.
  induction cols as [|c cols IH]; simpl; [tauto|].
  destruct (String.eqb c name) eqn:E.
  - apply String.eqb_eq in E. split; [discriminate | intros Hn; exfalso; auto].
  - apply String.eqb_neq in E. destruct (column_index name cols); simpl.
    + split; [discriminate|]. intros Hn. exfalso. apply Hn. right.
      destruct IH as [_ IH]. destruct (in_dec string_dec name cols); [assumption|].
      now specialize (IH n0).
    + split; [|reflexivity]. intros _ [Hc|Hin]; [congruence|]. now apply IH.
Qed.

Lemma column_index_app_l (name : string) (cols more : list string) (i : nat) :
  column_index name cols = Some i → column_index name (cols ++ more) = Some i.
Proof.
  revert i. induction cols as [|c cols IH]; simpl; intros i; [discriminate|].
  destruct (String.eqb c name); [trivial|].
  destruct (column_index name cols) as [j|]; simpl; [|discriminate].
  intros [= <-]. now rewrite (IH j).
Qed.

Lemma column_index_app_new (name : string) (cols : list string) :
  column_index name cols = None →
  column_index name (cols ++ [name]) = Some (length cols).
Proof.
  induction cols as [|c cols IH]; simpl.
  - now rewrite String.eqb_refl.
  - destruct (String.eqb c name); [discriminate|].
    destruct (column_index name cols); simpl; [discriminate|].
    intros _. now rewrite IH.
Qed.

Lemma column_index_inj (n1 n2 : string) (cols : list string) (i : nat) :
  column_index n1 cols = Some i → column_index n2 cols = Some i → n1 = n2.
Proof.
  intros H1 H2. apply column_index_Some in H1, H2. congruence.
Qed.

Lemma setitem_scalar_rows_length (name : string) (v : value) (df : DataFrame) :
  length (rows (df_setitem_scalar name v df)) = length (rows df).
Proof.
  unfold df_setitem_scalar.
  destruct (column_index name (columns df)); simpl; apply length_map.
Qed.

Lemma setitem_scalar_well_formed (name : string) (v : value) (df : DataFrame) :
  well_formed df → well_formed (df_setitem_scalar name v df).
Proof.
  unfold well_formed, df_setitem_scalar. intros Hwf.
  destruct (column_index name (columns df)) as [i|]; simpl;
    apply Forall_map; eapply Forall_impl; try exact Hwf; simpl; intros r Hr.
  - now rewrite length_insert.
  - rewrite !length_app. simpl. lia.
Qed.

Lemma setitem_scalar_constant (name : string) (v : value) (df : DataFrame) :
  well_formed df → constant_column (df_setitem_scalar name v df) name v.
Proof.
  unfold well_formed, constant_column, df_setitem_scalar, cell. intros Hwf.
  destruct (column_index name (columns df)) as [i|] eqn:E; simpl;
    apply Forall_map; eapply Forall_impl; try exact Hwf; simpl; intros r Hr.
  - rewrite E. simpl. apply list_lookup_insert_eq.
    rewrite Hr. now apply column_index_lt in E.
  - rewrite (column_index_app_new _ _ E). simpl.
    rewrite lookup_app_r by lia. now rewrite Hr, Nat.sub_diag.
Qed.

Lemma setitem_scalar_other (name name' : string) (v v' : value) (df : DataFrame) :
  well_formed df → name ≠ name' →
  constant_column df name v →
  constant_column (df_setitem_scalar name' v' df) name v.
Proof.
  unfold well_formed, constant_column, df_setitem_scalar, cell.
  intros Hwf Hne Hc.
  assert (Forall (λ r, length r = length (columns df) ∧
                       column_index name (columns df) ≫= (λ i, r !! i) = Some v)
                 (rows df)) as Hboth.
  { apply Forall_and. split; assumption. }
  destruct (column_index name' (columns df)) as [j|] eqn:E'; simpl;
    apply Forall_map; eapply Forall_impl; try exact Hboth; simpl;
    intros r [Hr Hcell].
  - destruct (column_index name (columns df)) as [i|] eqn:E; [|discriminate].
    simpl in *. rewrite list_lookup_insert_ne; [assumption|].
    intros ->. apply Hne. eapply column_index_inj; eassumption.
  - destruct (column_index name (columns df)) as [i|] eqn:E; [|discriminate].
    rewrite (column_index_app_l _ _ _ _ E). simpl in *.
    rewrite lookup_app_l; [assumption|]. now apply lookup_lt_Some in Hcell.
Qed.

Lemma add_fixed_values_rows_length (fixed : dict value) :
  ∀ df : DataFrame, length (rows (add_fixed_values fixed df)) = length (rows df).
Proof.
  unfold add_fixed_values.
  induction fixed as [|kv fixed IH]; intros df; simpl; [reflexivity|].
  rewrite IH. apply setitem_scalar_rows_length.
Qed.

Lemma add_fixed_values_other (fixed : dict value) (name : string) (v : value) :
  ¬ In name (dict_keys fixed) →
  ∀ df : DataFrame,
    well_formed df → constant_column df name v →
    constant_column (add_fixed_values fixed df) name v.
Proof.
  unfold add_fixed_values.
  induction fixed as [|[k v0] fixed IH]; intros Hn df Hwf Hc; simpl; [assumption|].
  simpl in Hn. apply IH.
  - tauto.
  - now apply setitem_scalar_well_formed.
  - apply setitem_scalar_other; [assumption| |assumption]. intros ->. tauto.
Qed.

(** After the loop over a dictionary, each of its keys names a column that
    holds the value of the key in every row. *)
Lemma add_fixed_values_constant (fixed : dict value) (name : string) (v : value) :
  List.NoDup (dict_keys fixed) →
  dict_get name fixed = Some v →
  ∀ df : DataFrame,
    well_formed df → constant_column (add_fixed_values fixed df) name v.
Proof.
  induction fixed as [|[k v0] fixed IH]; intros Hnd Hget df Hwf; [discriminate|].
  simpl in Hnd, Hget. inversion Hnd as [|? ? Hk Hnd']; subst.
  change (add_fixed_values ((k, v0) :: fixed) df)
    with (add_fixed_values fixed (df_setitem_scalar k v0 df)).
  destruct (String.eqb k name) eqn:E.
  - apply String.eqb_eq in E. subst k. injection Hget as ->.
    apply add_fixed_values_other; [assumption | |].
    + now apply setitem_scalar_well_formed.
    + now apply setitem_scalar_constant.
  - apply IH; [assumption | assumption |]. now apply setitem_scalar_well_formed.
Qed.

Lemma last_write_In {V} (k : string) (v : V) (items : list (string * V)) :
  last_write k items = Some v → In (k, v) items.
Proof.
  induction items as [|[k0 v0] items IH]; simpl; [discriminate|].
  destruct (last_write k items) as [v'|].
  - intros [= ->]. right. now apply IH.
  - destruct (String.eqb k0 k) eqn:E; [|discriminate].
    apply String.eqb_eq in E. intros [= ->]. left. now subst.
Qed.

Lemma last_write_is_Some {V} (k : string) (items : list (string * V)) :
  In k (map fst items) ↔ ∃ v, last_write k items = Some v.
Proof.
  induction items as [|[k0 v0] items IH]; simpl.
  - split; [intros [] | intros [v Hv]; discriminate].
  - destruct (last_write k items) as [v'|].
    + split; [intros _; now exists v' | intros _; right; apply IH; now exists v'].
    + destruct (String.eqb k0 k) eqn:E.
      * apply String.eqb_eq in E. split; [intros _; now exists v0 | intros _; now left].
      * apply String.eqb_neq in E. split.
        -- intros [Hk|Hin]; [congruence|]. apply IH in Hin as [v Hv]. discriminate.
        -- intros [v Hv]. discriminate.
Qed.

Lemma dict_update_keys_In {V} (k : string) (d : dict V) (items : list (string * V)) :
  In k (dict_keys (dict_update d items)) ↔ In k (dict_keys d) ∨ In k (map fst items).
Proof.
  rewrite dict_get_keys, dict_get_update, last_write_is_Some, dict_get_keys.
  destruct (last_write k items) as [v|].
  - split; [intros _; right; now exists v | intros _; now exists v].
  - split; [intros Hd; now left | intros [Hd|[v Hv]]; [assumption | discriminate]].
Qed.

Lemma dict_set_new {V} (k : string) (v : V) (d : dict V) :
  ¬ In k (dict_keys d) → dict_set k v d = d ++ [(k, v)].
Proof.
  induction d as [|[k0 v0] d IH]; simpl; intros Hn; [reflexivity|].
  destruct (String.eqb k0 k) eqn:E.
  - apply String.eqb_eq in E. tauto.
  - rewrite IH; [reflexivity | tauto].
Qed.

(** The union of two dictionaries without a common key lists the first one
    and then the second one. *)
Lemma dict_union_disjoint {V} (b : dict V) :
  ∀ a : dict V,
    List.NoDup (dict_keys b) →
    (∀ k, In k (dict_keys a) → ¬ In k (dict_keys b)) →
    dict_union a b = a ++ b.
Proof.
  unfold dict_union, dict_update.
  induction b as [|[k v] b IH]; intros a Hnd Hdis; simpl.
  - now rewrite app_nil_r.
  - simpl in Hnd. inversion Hnd as [|? ? Hk Hnd']; subst.
    rewrite dict_set_new.
    + rewrite IH; [now rewrite <- app_assoc | assumption |].
      intros k0 Hin Hb. unfold dict_keys in Hin. rewrite map_app in Hin.
      apply in_app_iff in Hin as [Hin|[<-|[]]].
      * apply (Hdis k0 Hin). now right.
      * contradiction.
    + intros Hin. apply (Hdis k Hin). now left.
Qed.

Lemma keys_overlap_false {V W} (a : dict V) (b : dict W) :
  keys_overlap a b = false → ∀ k, In k (dict_keys a) → ¬ In k (dict_keys b).
Proof.
  intros Hf k Ha Hb.
  assert (keys_overlap a b = true) by (apply keys_overlap_true; eauto).
  congruence.
Qed.

Lemma interpolation_keys_NoDup (history : option DataFrame) (names : list string)
    (interp : dict (list value)) :
  interpolation_values_of history names = Ok interp → List.NoDup (dict_keys interp).
Proof.
  unfold interpolation_values_of.
  destruct history as [data|]; [|intros [= <-]; constructor].
  destruct (negb (df_empty data)); [|intros [= <-]; constructor].
  destruct (result_map _ names) as [items|]; simpl; [|discriminate].
  intros [= <-]. apply dict_update_keys_NoDup. constructor.
Qed.

Lemma setitem_scalar_columns_In (name c : string) (v : value) (df : DataFrame) :
  In c (columns (df_setitem_scalar name v df)) ↔ In c (columns df) ∨ c = name.
Proof.
  unfold df_setitem_scalar.
  destruct (column_index name (columns df)) as [i|] eqn:E; simpl.
  - split; [now left|]. intros [Hc| ->]; [assumption|].
    apply column_index_Some in E. apply list_elem_of_In. eapply list_elem_of_lookup_2; eassumption.
  - rewrite in_app_iff. simpl. intuition.
Qed.

Lemma add_fixed_values_columns_In (fixed : dict value) (c : string) :
  ∀ df : DataFrame,
    In c (columns (add_fixed_values fixed df)) ↔
    In c (columns df) ∨ In c (dict_keys fixed).
Proof.
  unfold add_fixed_values.
  induction fixed as [|[k v] fixed IH]; intros df; simpl; [tauto|].
  rewrite IH, setitem_scalar_columns_In. intuition.
Qed.

Lemma result_map_Forall2 {A B} (f : A → result B) (xs : list A) :
  ∀ ys, result_map f xs = Ok ys → Forall2 (λ x y, f x = Ok y) xs ys.
Proof.
  induction xs as [|x xs IH]; simpl; intros ys.
  - intros [= <-]. constructor.
  - destruct (f x) as [y|] eqn:E; simpl; [|discriminate].
    destruct (result_map f xs) as [ys'|]; simpl; [|discriminate].
    intros [= <-]. constructor; [assumption | now apply IH].
Qed.

Lemma result_map_total {A B} (f : A → result B) (xs : list A) :
  (∀ x, In x xs → ∃ y, f x = Ok y) → ∃ ys, result_map f xs = Ok ys.
Proof.
  induction xs as [|x xs IH]; simpl; intros Hf; [now exists []|].
  destruct (Hf x (or_introl eq_refl)) as [y ->].
  destruct IH as [ys ->]; [intros x' Hx'; apply Hf; now right|].
  now exists (y :: ys).
Qed.

Lemma history_column_inhabited (data : DataFrame) (k : string) (col : list Z) :
  df_empty data = false →
  df_getitem data k = Ok (map VInt col) →
  ∃ x xs, col = x :: xs.
Proof.
  intros He Hcol. apply df_getitem_length in Hcol. rewrite length_map in Hcol.
  unfold df_empty in He. apply orb_false_iff in He as [_ He].
  apply Nat.eqb_neq in He.
  destruct col as [|x xs]; [simpl in Hcol; congruence | now exists x, xs].
Qed.

(** With historical data that is not empty and holds every interpolated
    feature as a column of integers, the interpolation values are computed,
    one list under each name. *)
Lemma interpolation_values_with_history (data : DataFrame) (names : list string) :
  df_empty data = false →
  (∀ k, In k names → ∃ col, df_getitem data k = Ok (map VInt col)) →
  ∃ interp,
    interpolation_values_of (Some data) names = Ok interp ∧
    ∀ k, In k names →
      ∃ vals, _get_data_range_missing_values data k = Ok vals ∧
              dict_get k interp = Some (map VInt vals).
Proof.
  intros He Hcols. unfold interpolation_values_of. rewrite He. simpl.
  set (f := λ k, result_bind (_get_data_range_missing_values data k)
                             (λ vals, Ok (k, map VInt vals))).
  assert (∀ k, In k names → ∃ vals,
            _get_data_range_missing_values data k = Ok vals ∧
            f k = Ok (k, map VInt vals)) as Hf.
  { intros k Hk. destruct (Hcols k Hk) as [col Hcol].
    destruct (history_column_inhabited _ _ _ He Hcol) as (x & xs & ->).
    unfold f. rewrite (missing_values_spec _ _ _ _ Hcol). eauto. }
  destruct (result_map_total f names) as [items Hitems].
  { intros k Hk. destruct (Hf k Hk) as (vals & _ & ->). eauto. }
  rewrite Hitems. simpl. eexists. split; [reflexivity|].
  intros k Hk. destruct (Hf k Hk) as (vals & Hvals & Hfk).
  exists vals. split; [assumption|].
  rewrite dict_get_update. simpl.
  apply result_map_Forall2 in Hitems.
  assert (In k (map fst items)) as Hin.
  { clear -Hitems Hk Hf. induction Hitems as [|k0 it names items H0 _ IH]; [easy|].
    destruct Hk as [->|Hk].
    - destruct (Hf k (or_introl eq_refl)) as (v & _ & Hfk).
      rewrite Hfk in H0. injection H0 as <-. now left.
    - right. apply IH; [|assumption]. intros k' Hk'. apply Hf. now right. }
  apply last_write_is_Some in Hin as [v Hv]. rewrite Hv.
  apply last_write_In in Hv.
  assert (∃ k0, In k0 names ∧ f k0 = Ok (k, v)) as (k0 & Hk0 & Hfk0).
  { clear -Hitems Hv. induction Hitems as [|k0 it names items H0 _ IH]; [easy|].
    destruct Hv as [->|Hv].
    - exists k0. split; [now left | assumption].
    - destruct (IH Hv) as (k1 & ? & ?). exists k1. split; [now right | assumption]. }
  destruct (Hf k0 Hk0) as (vals0 & Hvals0 & Hfk0').
  rewrite Hfk0' in Hfk0. injection Hfk0 as -> <-.
  rewrite Hvals in Hvals0. now injection Hvals0 as ->.
Qed.

Section BuilderClaims.
Context `{Collaborators}.

(** C3 (amended).  For a historical data table that is not empty and a
    feature whose column holds 64-bit integers, not all of them the largest
    one, the interpolation values computed for the feature are exactly the
    integers strictly between the minimum and the maximum of the column
    that do not occur in the column, each listed once, and they are what
    [interpolation_values] gets under the name of the feature.  When the
    historical data is absent or empty, interpolation contributes nothing:
    the builder does what it does for the configuration without
    [interpolation_values]. *)
Theorem interpolation_values_are_the_gaps :
  (∀ (original_data : DataFrame) (var_name : string) (col : list Z),
     df_empty original_data = false →
     df_getitem original_data var_name = Ok (map VInt col) →
     Forall (λ z, (int64_min <= z <= int64_max)%Z) col →
     (∃ z, In z col ∧ (z < int64_max)%Z) →
     ∃ vals lo hi,
       _get_data_range_missing_values original_data var_name = Ok vals ∧
       is_minimum lo col ∧ is_maximum hi col ∧
       List.NoDup vals ∧
       (∀ v, In v vals ↔ (lo < v < hi)%Z ∧ ¬ In v col) ∧
       (∀ names interp,
          In var_name names →
          interpolation_values_of (Some original_data) names = Ok interp →
          dict_get var_name interp = Some (map VInt vals)))
  ∧
  (∀ (cfg : Config) (od : option loc) (out : string) (fe : option (dict string))
     (pc mp : option string) (w : world) (history : option DataFrame),
     holds w od history →
     match history with
     | Some data => df_empty data = true
     | None => True
     end →
     interpolation_values_of history (default [] (cfg_interpolation_values cfg))
     = Ok [] ∧
     _create_input_space cfg od out fe pc mp w
     = _create_input_space (without_interpolation cfg) od out fe pc mp w).
Proof.
  split.
  - intros data var col He Hcol Hrange [z [Hz Hbelow]].
    destruct (history_column_inhabited _ _ _ He Hcol) as (x & xs & ->).
    pose proof (missing_values_spec _ _ _ _ Hcol) as Hvals.
    rewrite (int64_wrap_no_overflow x xs z Hrange Hz Hbelow) in Hvals.
    eexists _, (list_min x xs), (list_max x xs).
    split; [exact Hvals|].
    split; [apply list_min_spec|]. split; [apply list_max_spec|].
    split; [apply List.NoDup_filter, range_NoDup|].
    split.
    + intros v. rewrite filter_In, range_In, negb_true_iff.
      rewrite <- existsb_Zeqb_In.
      destruct (existsb (Z.eqb v) (x :: xs)); split; intros [? ?];
        (split; [lia | congruence]).
    + intros names interp Hin Hinterp.
      unfold interpolation_values_of in Hinterp. rewrite He in Hinterp.
      simpl in Hinterp.
      destruct (result_map _ names) as [items|] eqn:Hitems; [|discriminate].
      simpl in Hinterp. injection Hinterp as <-.
      rewrite dict_get_update. simpl.
      apply result_map_Forall2 in Hitems.
      assert (Forall (λ it, In (fst it) names ∧
                (fst it = var →
                 snd it = map VInt
                   (List.filter (λ val, negb (existsb (Z.eqb val) (x :: xs)))
                      (range (list_min x xs + 1) (list_max x xs))))) items
              ∧ map fst items = names) as [Hall Hkeys].
      { clear Hin. induction Hitems as [|k it names items H0 _ IH].
        - split; constructor.
        - destruct IH as [IH1 IH2].
          destruct (_get_data_range_missing_values data k) as [vs|] eqn:Ek;
            simpl in H0; [|discriminate].
          injection H0 as <-. simpl. split; [|now f_equal].
          constructor.
          + simpl. split; [now left|]. intros ->. rewrite Hvals in Ek.
            now injection Ek as <-.
          + eapply Forall_impl; [exact IH1|]. simpl. intros it [? ?].
            split; [now right | assumption]. }
      rewrite <- Hkeys in Hin. apply last_write_is_Some in Hin as [v Hv].
      rewrite Hv. f_equal. apply last_write_In in Hv.
      rewrite List.Forall_forall in Hall. now apply (Hall _ Hv).
  - intros cfg od out fe pc mp w history Hh Hnone.
    pose proof (interpolation_without_history history
                  (default [] (cfg_interpolation_values cfg)) Hnone) as Hi.
    split; [exact Hi|].
    unfold _create_input_space.
    rewrite !(bind_Ok _ _ _ _ _ (read_history _ _ _ Hh)).
    unfold lift at 1 3. rewrite Hi. simpl.
    now rewrite (interpolation_without_history history [] Hnone).
Qed.

End BuilderClaims.

(** C3 at a concrete input: the column [x] of the example holds 1, 5 and 3;
    the values to interpolate are the gaps between 1 and 5. *)
Lemma interpolation_values_are_the_gaps_witness :
  ∃ vals lo hi,
    _get_data_range_missing_values history_example "x" = Ok vals ∧
    is_minimum lo [1; 5; 3]%Z ∧ is_maximum hi [1; 5; 3]%Z ∧
    List.NoDup vals ∧
    (∀ v, In v vals ↔ (lo < v < hi)%Z ∧ ¬ In v [1; 5; 3]%Z) ∧
    (∀ names interp,
       In "x" names →
       interpolation_values_of (Some history_example) names = Ok interp →
       dict_get "x" interp = Some (map VInt vals)).
Proof.
  apply (proj1 interpolation_values_are_the_gaps history_example "x" [1; 5; 3]%Z
           eq_refl eq_refl).
  - repeat constructor; discriminate.
  - exists 1%Z. split; [now left | reflexivity].
Defined.

(** C3, as stated, fails.  For a feature whose column holds floats,
    [range] raises [TypeError], and the builder with it: no list of values
    is computed.  For a column that holds the largest 64-bit integer and
    nothing else, [min() + 1] wraps around to the smallest 64-bit integer:
    the values computed start with that number, which is not between the
    minimum and the maximum of the column. *)
Lemma gaps_need_a_column_of_integers :
  df_empty history_of_floats = false ∧
  _get_data_range_missing_values history_of_floats "x" = Raise TypeError ∧
  _create_input_space
    {| cfg_fixed_values := []; cfg_variable_values := [];
       cfg_interpolation_values := Some ["x"]; cfg_estimators := YSeq [] |}
    (Some 0%nat) "out" None None None (world_with_frame history_of_floats)
  = (Raise TypeError, world_with_frame history_of_floats) ∧
  df_empty history_at_the_bound = false ∧
  is_minimum int64_max [int64_max] ∧ is_maximum int64_max [int64_max] ∧
  ∃ vals,
    _get_data_range_missing_values history_at_the_bound "x" = Ok vals ∧
    In int64_min vals ∧ ¬ (int64_max < int64_min < int64_max)%Z.
Proof.
  split; [reflexivity|]. split; [reflexivity|]. split; [reflexivity|].
  split; [reflexivity|].
  split; [split; [now left | intros y [<-|[]]; reflexivity]|].
  split; [split; [now left | intros y [<-|[]]; reflexivity]|].
  eexists. split; [apply (missing_values_spec _ _ int64_max []); reflexivity|].
  split; [|unfold int64_min, int64_max; lia].
  apply filter_In. split; [|reflexivity].
  apply range_In. cbn [list_min list_max]. rewrite int64_wrap_max.
  unfold int64_min, int64_max. lia.
Qed.

Lemma keys_overlap_nil {V W} (a : dict V) : keys_overlap a ([] : dict W) = false.
Proof. unfold keys_overlap. simpl. now induction (dict_keys a). Qed.

Section InputSpaceClaims.
Context `{Collaborators}.

(** The table of an accepted configuration, in full. *)
Lemma input_space_table (cfg : Config) (od : option loc) (out : string)
    (pc mp : option string) (w w' : world) (path : string) (l : loc) :
  _create_input_space cfg od out None pc mp w = (Ok (path, l), w') →
  ∃ history interp,
    holds w od history ∧
    interpolation_values_of history (default [] (cfg_interpolation_values cfg))
    = Ok interp ∧
    keys_overlap (dict_flatten (cfg_variable_values cfg)) interp = false ∧
    let variable_values := dict_flatten (cfg_variable_values cfg) in
    let table :=
      add_fixed_values (dict_flatten (cfg_fixed_values cfg))
        (pd_DataFrame
           (product (dict_values variable_values ++ dict_values interp))
           (dict_keys variable_values ++ dict_keys interp)) in
    l = fresh (dom (frames w)) ∧
    path = os_path_join out PRED_INPUT_SPACE_FILE ∧
    w' = set_csv_files (<[path := table]> (csv_files w))
           (set_frames (<[l := table]> (frames w)) w) ∧
    frames w' !! l = Some table.
Proof.
  intros Hrun.
  destruct (create_input_space_accepted _ _ _ _ _ _ _ _ _ _ Hrun)
    as (history & interp & Hh & Hi & Hk).
  exists history, interp. repeat (split; [assumption|]). cbv zeta.
  rewrite (create_input_space_run _ _ _ _ _ _ _ _ Hh Hi Hk) in Hrun. cbv zeta in Hrun.
  rewrite (dict_union_disjoint interp) in Hrun;
    [|eapply interpolation_keys_NoDup; eassumption | now apply keys_overlap_false].
  unfold dict_values, dict_keys in Hrun. rewrite !map_app in Hrun.
  fold (@dict_values (list value)) in Hrun. fold (@dict_keys (list value)) in Hrun.
  injection Hrun as <- <- <-.
  repeat (split; [reflexivity|]). simpl. apply lookup_insert_eq.
Qed.

(** C4 (amended).  For every configuration that the Input-Space Builder
    accepts, the input-space table is the Cartesian product of the value
    lists with the fixed values added to each row.  There is one value list
    per distinct name: the flattened [variable_values], where a name given
    several lists keeps the last one only, followed by the interpolation
    lists.  So the number of rows is the product of the cardinalities of
    those lists, and it does not depend on the fixed values: with any other
    fixed values the configuration is accepted as well and the table has as
    many rows. *)
Theorem row_count_is_product_of_distinct_lists (cfg : Config) (od : option loc)
    (out : string) (pc mp : option string) (w w' : world) (path : string) (l : loc) :
  _create_input_space cfg od out None pc mp w = (Ok (path, l), w') →
  ∃ history interp table,
    holds w od history ∧
    interpolation_values_of history (default [] (cfg_interpolation_values cfg))
    = Ok interp ∧
    frames w' !! l = Some table ∧
    let value_lists :=
      dict_values (dict_flatten (cfg_variable_values cfg)) ++ dict_values interp in
    table =
      add_fixed_values (dict_flatten (cfg_fixed_values cfg))
        (pd_DataFrame (product value_lists)
           (dict_keys (dict_flatten (cfg_variable_values cfg)) ++ dict_keys interp)) ∧
    List.NoDup
      (dict_keys (dict_flatten (cfg_variable_values cfg)) ++ dict_keys interp) ∧
    (∀ k, dict_get k (dict_flatten (cfg_variable_values cfg))
          = last_write k (concat (cfg_variable_values cfg))) ∧
    length (rows table) = list_prod (map length value_lists) ∧
    ∀ fixed, ∃ path2 l2 w2 table2,
      _create_input_space (with_fixed_values fixed cfg) od out None pc mp w
      = (Ok (path2, l2), w2) ∧
      frames w2 !! l2 = Some table2 ∧
      length (rows table2) = length (rows table).
Proof.
  intros Hrun.
  destruct (input_space_table _ _ _ _ _ _ _ _ _ Hrun)
    as (history & interp & Hh & Hi & Hk & Hl & Hpath & Hw & Hframe).
  cbv zeta in Hl, Hpath, Hw, Hframe.
  eexists history, interp, _. split; [assumption|]. split; [assumption|].
  split; [exact Hframe|]. cbv zeta. split; [reflexivity|].
  split.
  { apply List.NoDup_app.
    - apply dict_flatten_keys_NoDup.
    - eapply interpolation_keys_NoDup; eassumption.
    - now apply keys_overlap_false. }
  split; [intros k; apply dict_get_flatten|].
  split.
  - rewrite add_fixed_values_rows_length. simpl. apply product_length.
  - intros fixed.
    pose proof (create_input_space_run (with_fixed_values fixed cfg) od out pc mp w
                  history interp Hh Hi Hk) as Hrun2.
    cbv zeta in Hrun2. do 4 eexists. split; [exact Hrun2|].
    split; [simpl; apply lookup_insert_eq|].
    rewrite !add_fixed_values_rows_length. simpl.
    rewrite (dict_union_disjoint interp);
      [|eapply interpolation_keys_NoDup; eassumption | now apply keys_overlap_false].
    unfold dict_values. now rewrite map_app.
Qed.

(** C9.  For every configuration that the Input-Space Builder accepts and
    every feature named in [fixed_values], the input-space table has a
    column of that name, and the column holds the value written last for the
    feature in every row. *)
Theorem fixed_columns_are_constant (cfg : Config) (od : option loc)
    (out : string) (pc mp : option string) (w w' : world) (path : string) (l : loc)
    (name : string) (v : value) :
  _create_input_space cfg od out None pc mp w = (Ok (path, l), w') →
  last_write name (concat (cfg_fixed_values cfg)) = Some v →
  ∃ table,
    frames w' !! l = Some table ∧
    In name (columns table) ∧
    ∀ r, In r (rows table) → cell table r name = Some v.
Proof.
  intros Hrun Hlast.
  destruct (input_space_table _ _ _ _ _ _ _ _ _ Hrun)
    as (history & interp & _ & _ & _ & _ & _ & _ & Hframe).
  cbv zeta in Hframe. eexists. split; [exact Hframe|].
  rewrite <- dict_get_flatten in Hlast. split.
  - apply add_fixed_values_columns_In. right. apply dict_get_keys. eauto.
  - apply List.Forall_forall.
    apply (add_fixed_values_constant _ _ _ (dict_flatten_keys_NoDup _) Hlast).
    unfold well_formed, pd_DataFrame. simpl. apply List.Forall_forall. intros r Hr.
    apply product_row_length in Hr. rewrite Hr.
    unfold dict_values, dict_keys. now rewrite !length_app, !length_map.
Qed.

(** C1 (amended).  When some feature name appears both in [variable_values]
    and in [interpolation_values], building the input space raises the
    configuration error, and nothing is written, provided that historical
    data is supplied, is not empty and holds every interpolated feature as a
    column of integers.  When the historical data is absent or empty the
    names are not compared: without feature engineering every configuration
    is then accepted. *)
Theorem overlap_raises_with_history :
  (∀ (cfg : Config) (od : loc) (out : string) (fe : option (dict string))
     (pc mp : option string) (w : world) (data : DataFrame) (name : string),
     frames w !! od = Some data →
     df_empty data = false →
     (∀ k, In k (default [] (cfg_interpolation_values cfg)) →
           ∃ col, df_getitem data k = Ok (map VInt col)) →
     In name (map fst (concat (cfg_variable_values cfg))) →
     In name (default [] (cfg_interpolation_values cfg)) →
     _create_input_space cfg (Some od) out fe pc mp w = (Raise ConfigError, w))
  ∧
  (∀ (cfg : Config) (od : option loc) (out : string) (pc mp : option string)
     (w : world) (history : option DataFrame),
     holds w od history →
     match history with
     | Some data => df_empty data = true
     | None => True
     end →
     ∃ path l w', _create_input_space cfg od out None pc mp w = (Ok (path, l), w')).
Proof.
  split.
  - intros cfg od out fe pc mp w data name Hframe He Hcols Hvar Hint.
    destruct (interpolation_values_with_history data _ He Hcols)
      as (interp & Hi & Hkeys).
    apply (create_input_space_overlap cfg (Some od) out fe pc mp w (Some data) interp).
    + now exists data.
    + exact Hi.
    + apply keys_overlap_true. exists name. split.
      * apply dict_update_keys_In. now right.
      * destruct (Hkeys name Hint) as (vals & _ & Hget).
        apply dict_get_keys. eauto.
  - intros cfg od out pc mp w history Hh Hnone.
    pose proof (interpolation_without_history history
                  (default [] (cfg_interpolation_values cfg)) Hnone) as Hi.
    do 3 eexists.
    apply (create_input_space_run cfg od out pc mp w history [] Hh Hi).
    apply keys_overlap_nil.
Qed.

End InputSpaceClaims.

(** The example of the specification: two rows, columns [b] and [a]. *)
Example input_space_of_the_example :
  ∃ w',
    _create_input_space cfg_example None "out" None None None empty_world
    = (Ok ("out/input-space.csv", 0), w') ∧
    frames w' !! 0 =
    Some {| columns := ["b"; "a"];
            rows := [[VInt 1; VInt 1]; [VInt 2; VInt 1]] |}.
Proof. eexists. split; vm_compute; reflexivity. Qed.

(** C4 (amended) at a concrete input: the example of the specification has
    two rows. *)
Lemma row_count_is_product_of_distinct_lists_witness :
  ∃ table,
    frames (snd (_create_input_space cfg_example None "out" None None None
                   empty_world)) !! 0 = Some table ∧
    length (rows table) = 2.
Proof.
  destruct (row_count_is_product_of_distinct_lists cfg_example None "out" None None
              empty_world
              (snd (_create_input_space cfg_example None "out" None None None
                      empty_world))
              "out/input-space.csv" 0)
    as (history & interp & table & Hh & Hi & Hf & _ & _ & _ & Hlen & _).
  { vm_compute. reflexivity. }
  exists table. split; [exact Hf|].
  simpl in Hh. subst history. injection Hi as <-. exact Hlen.
Defined.

(** C4, as stated, fails: a name that is given two lists of 2 and of 3
    values contributes 3 rows, not 6. *)
Lemma duplicate_named_lists_are_not_multiplied :
  ∃ table w',
    _create_input_space cfg_duplicate_names None "out" None None None empty_world
    = (Ok ("out/input-space.csv", 0), w') ∧
    frames w' !! 0 = Some table ∧
    length (rows table) = 3 ∧
    list_prod (map length
                 (concat (map dict_values (cfg_variable_values cfg_duplicate_names))))
    = 6.
Proof. do 2 eexists. repeat split; vm_compute; reflexivity. Qed.

(** C9 at a concrete input: in the example of the specification the column
    [a] holds 1 in every row. *)
Lemma fixed_columns_are_constant_witness :
  ∃ table,
    frames (snd (_create_input_space cfg_example None "out" None None None
                   empty_world)) !! 0 = Some table ∧
    In "a" (columns table) ∧
    ∀ r, In r (rows table) → cell table r "a" = Some (VInt 1).
Proof.
  apply (fixed_columns_are_constant cfg_example None "out" None None empty_world
           _ "out/input-space.csv" 0 "a" (VInt 1)).
  - vm_compute. reflexivity.
  - reflexivity.
Defined.

(** C1, as stated, fails: with [x] both a variable and an interpolated
    feature, the configuration is accepted when there is no historical
    data, and when the historical data has no row. *)
Lemma overlap_accepted_without_history :
  In "x" (map fst (concat (cfg_variable_values cfg_overlap))) ∧
  In "x" (default [] (cfg_interpolation_values cfg_overlap)) ∧
  fst (_create_input_space cfg_overlap None "out" None None None empty_world)
  = Ok ("out/input-space.csv", 0) ∧
  df_empty history_without_rows = true ∧
  fst (_create_input_space cfg_overlap (Some 0) "out" None None None
         (world_with_frame history_without_rows))
  = Ok ("out/input-space.csv", 1).
Proof.
  split; [now left|]. split; [now left|].
  repeat split; vm_compute; reflexivity.
Qed.

(** C1 (amended) at a concrete input: with the historical data of the
    example, the overlap on [x] raises the configuration error. *)
Lemma overlap_raises_with_history_witness :
  _create_input_space cfg_overlap (Some 0) "out" None None None
    (world_with_frame history_example)
  = (Raise ConfigError, world_with_frame history_example).
Proof.
  apply (proj1 overlap_raises_with_history cfg_overlap 0 "out" None None None
           (world_with_frame history_example) history_example "x").
  - reflexivity.
  - reflexivity.
  - intros k [<-|[]]. now exists [1; 5; 3]%Z.
  - now left.
  - now left.
Defined.

(** ** The Estimator Resolver *)

Section ResolverClaims.
Context `{Collaborators}.

(** What the resolver returns, in general: with [label] the position in the
    ranking file of the first row of the target whose combined rank is
    minimal, it is the row found at position [label] among the rows of the
    target, not the row labelled [label]. *)
Lemma resolver_result (estimator_path target_variable : string) (w : world)
    (d : folder) (table : list ranking_row) :
  folders w !! estimator_path = Some d →
  AM_RANKINGS_FILE d = Some table →
  let rows_of_target :=
    List.filter (λ r, String.eqb (AM_COL_TARGET (snd r)) target_variable)
                (indexed table) in
  let combined_rank :=
    map (λ r, (fst r, (AM_COL_RANK_MAPE (snd r)
                       + AM_COL_RANK_NRMSE_MAXMIN (snd r))%Z)) rows_of_target in
  _get_highest_ranked_estimator estimator_path target_variable w =
  match idxmin combined_rank with
  | Raise e => (Raise e, w)
  | Ok label =>
      match rows_of_target !! label with
      | None => (Raise IndexError, w)
      | Some r =>
          (Ok (get_estimator_file_name
                 (if AM_COL_LINEAR (snd r) then "linear" else "nonlinear")
                 (AM_COL_ESTIMATOR (snd r)) target_variable), w)
      end
  end.
Proof.
  intros Hd Ht. cbv zeta. unfold _get_highest_ranked_estimator.
  erewrite bind_Ok; [|unfold read_rankings; rewrite Hd, Ht; reflexivity].
  unfold bind, lift. destruct (idxmin _) as [label|e]; [|reflexivity].
  match goal with
  | |- context [?l !! label] =>
      replace (l !! label) with (drop label l !! 0)
        by (rewrite lookup_drop; f_equal; lia)
  end.
  now destruct (drop label _) as [|r rest].
Qed.

(** C5 (the code at the failing input).  On the ranking table of the
    specification's example the resolver selects E2 as nonlinear.  With one
    row for another target before the same two rows it raises [IndexError],
    and with the best row of the target placed second in the file it
    selects E1, whose combined rank 3 is not minimal. *)
Theorem resolver_takes_the_label_for_a_position :
  fst (_get_highest_ranked_estimator "models" "t"
         (world_with_rankings rankings_example))
  = Ok (get_estimator_file_name "nonlinear" "E2" "t") ∧
  fst (_get_highest_ranked_estimator "models" "t"
         (world_with_rankings rankings_after_another_target))
  = Raise IndexError ∧
  fst (_get_highest_ranked_estimator "models" "t"
         (world_with_rankings rankings_best_row_first))
  = Ok (get_estimator_file_name "linear" "E1" "t").
Proof.
  repeat split;
    (erewrite resolver_result;
       [|unfold world_with_rankings; simpl; apply lookup_singleton_eq
        |reflexivity]);
    reflexivity.
Qed.

End ResolverClaims.

(** ** The configuration generator *)

Section GeneratorClaims.
Context `{Collaborators}.

(** C2 (the code on every input).  Whatever is selected, the generator
    writes under [estimators] a single mapping that names the first output
    value only, not a list of entries.  The pipeline iterates over that
    node, gets the keys of the mapping, and fails on the first of them with
    [TypeError]: no prediction is made. *)
Theorem generated_estimators_is_one_mapping (config : ui_config)
    (fixed_input_values : list (dict value))
    (variable_input_values : list (dict (list value)))
    (first : string) (others : list string) (w : world) :
  let generated :=
    generate_prediction_config_file config fixed_input_values
      variable_input_values (first :: others) w in
  let estimators_node :=
    YMap [("target_variable", YStr first);
          ("estimator_file", job_prediction_estimator_file config);
          ("greater_is_better", job_prediction_greater_is_better config)] in
  fst generated = Ok tt ∧
  (∃ cfg,
     _read_yaml_config (job_prediction_config_file config) (snd generated)
     = (Ok cfg, snd generated) ∧
     cfg_estimators cfg = estimators_node ∧
     (∀ items, cfg_estimators cfg ≠ YSeq items) ∧
     py_iter (cfg_estimators cfg)
     = Ok [YStr "target_variable"; YStr "estimator_file"; YStr "greater_is_better"] ∧
     ∀ od input_data estimator_path estimator_folder output_path w2,
       run_in_folder od input_data cfg estimator_path estimator_folder
                     output_path w2
       = (Raise TypeError, w2)).
Proof.
  cbv zeta. split; [reflexivity|].
  eexists. split.
  - unfold _read_yaml_config, generate_prediction_config_file. simpl.
    rewrite lookup_insert_eq. reflexivity.
  - simpl. split; [reflexivity|]. split; [discriminate|]. split; reflexivity.
Qed.

End GeneratorClaims.

(** The core run on the file that the UI wrote stops with [TypeError]; run
    on the same configuration with a list of one entry under [estimators],
    it completes. *)
Example generated_file_is_not_consumed :
  fst (demo_predict None "prediction.yaml" "models" None None None (Some "out")
         generated_world)
  = Raise TypeError ∧
  fst (demo_predict None "prediction.yaml" "models" None None None (Some "out")
         handwritten_world)
  = Ok tt.
Proof. split; vm_compute; reflexivity. Qed.

(** ** Ranking *)

Lemma filter_none {A} (f : A → bool) (l : list A) :
  (∀ a, In a l → f a = false) → List.filter f l = [].
Proof.
  induction l as [|a l IH]; simpl; intros Hf; [reflexivity|].
  rewrite (Hf a (or_introl eq_refl)). apply IH. intros b Hb. apply Hf. now right.
Qed.

Lemma filter_ext_all {A} (f g : A → bool) (l : list A) :
  (∀ a, f a = g a) → List.filter f l = List.filter g l.
Proof.
  intros Hfg. induction l as [|a l IH]; simpl; [reflexivity|].
  now rewrite Hfg, IH.
Qed.

Lemma Qle_bool_Qeq_l (x y z : Q) : Qeq x y → Qle_bool x z = Qle_bool y z.
Proof.
  intros Hxy. destruct (Qle_bool y z) eqn:E.
  - apply Qle_bool_iff. apply Qle_bool_iff in E. now rewrite Hxy.
  - destruct (Qle_bool x z) eqn:E'; [|reflexivity].
    apply Qle_bool_iff in E'. rewrite Hxy in E'. apply Qle_bool_iff in E'. congruence.
Qed.

Lemma Qle_bool_Qeq_r (x y z : Q) : Qeq x y → Qle_bool z x = Qle_bool z y.
Proof.
  intros Hxy. destruct (Qle_bool z y) eqn:E.
  - apply Qle_bool_iff. apply Qle_bool_iff in E. now rewrite Hxy.
  - destruct (Qle_bool z x) eqn:E'; [|reflexivity].
    apply Qle_bool_iff in E'. rewrite Hxy in E'. apply Qle_bool_iff in E'. congruence.
Qed.

Lemma Qeq_bool_Qeq_r (x y z : Q) : Qeq x y → Qeq_bool z x = Qeq_bool z y.
Proof.
  intros Hxy. destruct (Qeq_bool z y) eqn:E.
  - apply Qeq_bool_iff. apply Qeq_bool_iff in E. now rewrite Hxy.
  - destruct (Qeq_bool z x) eqn:E'; [|reflexivity].
    apply Qeq_bool_iff in E'. rewrite Hxy in E'. apply Qeq_bool_iff in E'. congruence.
Qed.

Lemma count_before_Qeq (ascending : bool) (xs : list Q) (x y : Q) :
  Qeq x y → count_before ascending xs x = count_before ascending xs y.
Proof.
  intros Hxy. unfold count_before. f_equal. apply filter_ext_all. intros z.
  unfold Qlt_bool. destruct ascending; f_equal;
    [now apply Qle_bool_Qeq_l | now apply Qle_bool_Qeq_r].
Qed.

Lemma count_ties_Qeq (xs : list Q) (x y : Q) :
  Qeq x y → count_ties xs x = count_ties xs y.
Proof.
  intros Hxy. unfold count_ties. f_equal. apply filter_ext_all. intros z.
  now apply Qeq_bool_Qeq_r.
Qed.

(** Values that are equal get the same rank. *)
Lemma rank_of_Qeq (ascending : bool) (xs : list Q) (x y : Q) :
  Qeq x y → rank_of ascending xs x = rank_of ascending xs y.
Proof.
  intros Hxy. unfold rank_of.
  now rewrite (count_before_Qeq _ _ _ _ Hxy), (count_ties_Qeq _ _ _ Hxy).
Qed.

Lemma count_ties_positive (xs : list Q) (i : nat) (x : Q) :
  xs !! i = Some x → 0 < count_ties xs x.
Proof.
  unfold count_ties. revert i. induction xs as [|a xs IH]; intros i; [easy|].
  destruct i as [|i]; simpl.
  - intros [= ->]. rewrite (proj2 (Qeq_bool_iff x x) (Qeq_refl x)). simpl. lia.
  - intros Hi. specialize (IH i Hi). destruct (Qeq_bool a x); simpl; lia.
Qed.

Lemma no_ties_tail (a : Q) (xs : list Q) : no_ties (a :: xs) → no_ties xs.
Proof.
  intros Hn i j x y Hi Hj Hxy.
  specialize (Hn (S i) (S j) x y Hi Hj Hxy). lia.
Qed.

Lemma count_ties_no_ties (xs : list Q) :
  no_ties xs → ∀ i x, xs !! i = Some x → count_ties xs x = 1.
Proof.
  unfold count_ties.
  induction xs as [|a xs IH]; intros Hn i x Hi; [easy|].
  destruct i as [|i]; simpl in *.
  - injection Hi as ->.
    rewrite (proj2 (Qeq_bool_iff x x) (Qeq_refl x)). simpl. f_equal.
    rewrite filter_none; [reflexivity|].
    intros y Hy. destruct (Qeq_bool y x) eqn:E; [|reflexivity].
    apply Qeq_bool_iff in E. apply list_elem_of_In, list_elem_of_lookup in Hy as [j Hj].
    specialize (Hn (S j) 0 y x Hj eq_refl E). lia.
  - destruct (Qeq_bool a x) eqn:E.
    + apply Qeq_bool_iff in E. specialize (Hn 0 (S i) a x eq_refl Hi E). lia.
    + apply (IH (no_ties_tail _ _ Hn) i x Hi).
Qed.

Lemma count_before_first (ascending : bool) (xs : list Q) (x : Q) :
  (∀ y, In y xs → if ascending then Qle x y else Qle y x) →
  count_before ascending xs x = 0.
Proof.
  intros Hx. unfold count_before. rewrite filter_none; [reflexivity|].
  intros y Hy. specialize (Hx y Hy). unfold Qlt_bool.
  destruct ascending; apply negb_false_iff; now apply Qle_bool_iff.
Qed.

Lemma list_sum_seq (a n : nat) : 2 * list_sum (seq a n) = n * (2 * a + n - 1).
Proof.
  revert a. induction n as [|n IH]; intros a; simpl; [reflexivity|].
  specialize (IH (S a)). nia.
Qed.

(** With the method "average" a value gets the mean of the places
    [before + 1], ..., [before + ties]: twice its rank is
    [2 * before + ties + 1]. *)
Lemma rank_of_average (ascending : bool) (xs : list Q) (i : nat) (x : Q) :
  xs !! i = Some x →
  Qeq (2 * rank_of ascending xs x)
      (inject_Z (Z.of_nat (2 * count_before ascending xs x + count_ties xs x + 1))).
Proof.
  intros Hi. pose proof (count_ties_positive _ _ _ Hi) as Hpos.
  unfold rank_of. rewrite length_seq.
  set (b := count_before ascending xs x) in *.
  set (t := count_ties xs x) in *.
  pose proof (list_sum_seq (S b) t) as Hsum.
  unfold Qeq, Qmult, inject_Z. simpl Qnum. simpl Qden.
  rewrite Pos.mul_1_l.
  replace (Z.pos (Pos.of_nat t)) with (Z.of_nat t)
    by (destruct t; [lia | now rewrite <- Pos.of_nat_succ, Zpos_P_of_succ_nat, Nat2Z.inj_succ]).
  nia.
Qed.

Lemma rank_of_no_ties (ascending : bool) (xs : list Q) (i : nat) (x : Q) :
  no_ties xs → xs !! i = Some x →
  rank_of ascending xs x = inject_Z (Z.of_nat (S (count_before ascending xs x))).
Proof.
  intros Hn Hi. unfold rank_of. rewrite (count_ties_no_ties _ Hn _ _ Hi).
  simpl. unfold inject_Z. f_equal. lia.
Qed.

Lemma result_map_length {A B} (f : A → result B) (xs : list A) (ys : list B) :
  result_map f xs = Ok ys → length ys = length xs.
Proof.
  intros Hm. apply result_map_Forall2 in Hm. symmetry. eapply Forall2_length, Hm.
Qed.

Lemma map_lookup {A B} (f : A → B) (l : list A) (j : nat) :
  map f l !! j = f <$> l !! j.
Proof.
  revert j. induction l as [|a l IH]; intros [|j]; simpl; try reflexivity.
  apply IH.
Qed.

Lemma rank_predictions_run (data : loc) (target_column : string)
    (greater_is_better : bool) (w : world) (df : DataFrame)
    (cells : list value) (xs : list Q) :
  frames w !! data = Some df →
  df_getitem df target_column = Ok cells →
  result_map as_num cells = Ok xs →
  column_index ("rank_" +:+ target_column) (columns df) = None →
  _rank_predictions data target_column greater_is_better w =
  (Ok data,
   set_frames
     (<[data := {| columns := columns df ++ ["rank_" +:+ target_column];
                   rows := zip_with (λ r v, r ++ [v]) (rows df)
                             (map VFloat
                                (series_rank (negb greater_is_better) xs)) |}]>
        (frames w)) w).
Proof.
  intros Hdf Hcells Hxs Hnew. unfold _rank_predictions.
  erewrite bind_Ok; [reflexivity|].
  rewrite (update_frame_run _ _ _ _ Hdf), Hcells. simpl. rewrite Hxs. simpl.
  unfold df_insert_last. rewrite Hnew.
  unfold series_rank. rewrite !length_map.
  rewrite (result_map_length _ _ _ Hxs), (df_getitem_length _ _ _ Hcells).
  now rewrite Nat.eqb_refl.
Qed.

Lemma filter_length_Permutation {A} (f : A → bool) (l l' : list A) :
  l ≡ₚ l' → length (List.filter f l) = length (List.filter f l').
Proof.
  induction 1 as [|a l l' _ IH|a b l|l l' l'' _ IH1 _ IH2]; simpl.
  - reflexivity.
  - destruct (f a); simpl; now rewrite IH.
  - destruct (f a), (f b); reflexivity.
  - now rewrite IH1.
Qed.

Lemma in_ranking_order_cons (ascending : bool) (a : Q) (order : list Q) :
  in_ranking_order ascending (a :: order) →
  (∀ y, In y order → if ascending then Qle a y else Qle y a) ∧
  in_ranking_order ascending order.
Proof.
  intros Hs. split.
  - intros y Hy. apply list_elem_of_In, list_elem_of_lookup in Hy as [j Hj].
    apply (Hs 0 (S j) a y); [lia | reflexivity | exact Hj].
  - intros i j x y Hij Hi Hj. apply (Hs (S i) (S j) x y); [lia | exact Hi | exact Hj].
Qed.

Lemma count_ties_none (xs : list Q) (x : Q) :
  (∀ y, In y xs → ¬ Qeq y x) → count_ties xs x = 0.
Proof.
  intros Hx. unfold count_ties. rewrite filter_none; [reflexivity|].
  intros y Hy. destruct (Qeq_bool y x) eqn:E; [|reflexivity].
  apply Qeq_bool_iff in E. now apply Hx in Hy.
Qed.

(** In a list that is in ranking order, the numbers equal to [x] stand
    one after the other, after the numbers that come before [x]. *)
Lemma places_in_ranking_order (ascending : bool) (x : Q) (order : list Q) :
  ∀ k, in_ranking_order ascending order →
    places_from k order x
    = seq (k + count_before ascending order x) (count_ties order x).
Proof.
  induction order as [|a order IH]; intros k Hs.
  - reflexivity.
  - apply in_ranking_order_cons in Hs as [Ha Hs].
    specialize (IH (S k) Hs).
    assert (count_before ascending (a :: order) x
            = (if (if ascending then Qlt_bool a x else Qlt_bool x a) then 1 else 0)
              + count_before ascending order x) as Hcb.
    { unfold count_before. simpl.
      destruct (if ascending then Qlt_bool a x else Qlt_bool x a); reflexivity. }
    assert (count_ties (a :: order) x
            = (if Qeq_bool a x then 1 else 0) + count_ties order x) as Hct.
    { unfold count_ties. simpl. destruct (Qeq_bool a x); reflexivity. }
    rewrite Hcb, Hct. simpl places_from.
    destruct (Qeq_bool a x) eqn:Eeq.
    + apply Qeq_bool_iff in Eeq.
      assert ((if ascending then Qlt_bool a x else Qlt_bool x a) = false) as ->.
      { unfold Qlt_bool.
        destruct ascending; apply negb_false_iff, Qle_bool_iff;
          rewrite Eeq; apply Qle_refl. }
      assert (count_before ascending order x = 0) as Hnone.
      { apply count_before_first. intros y Hy. specialize (Ha y Hy).
        destruct ascending; now rewrite <- Eeq. }
      rewrite Hnone in *. rewrite IH. simpl.
      now rewrite !Nat.add_0_r.
    + destruct (if ascending then Qlt_bool a x else Qlt_bool x a) eqn:Elt.
      * rewrite IH. simpl. f_equal. lia.
      * (* [x] comes strictly before [a], and before all that follows *)
        assert (if ascending then Qlt x a else Qlt a x) as Hxa.
        { unfold Qlt_bool in Elt.
          assert (¬ Qeq a x) as Hne
            by (intros E; apply Qeq_bool_iff in E; congruence).
          destruct ascending; apply negb_false_iff, Qle_bool_iff in Elt;
            apply Qle_lteq in Elt as [Hlt|E];
            first [exact Hlt | exfalso; apply Hne; now rewrite E]. }
        assert (count_before ascending order x = 0) as Hnone.
        { apply count_before_first. intros y Hy. specialize (Ha y Hy).
          destruct ascending; apply Qlt_le_weak;
            [eapply Qlt_le_trans | eapply Qle_lt_trans]; eassumption. }
        assert (count_ties order x = 0) as Hnot.
        { apply count_ties_none. intros y Hy E. specialize (Ha y Hy).
          destruct ascending; rewrite E in Ha;
            [apply (Qlt_irrefl x); eapply Qlt_le_trans
            |apply (Qlt_irrefl x); eapply Qle_lt_trans]; eassumption. }
        rewrite IH, Hnone, Hnot. reflexivity.
Qed.

(** The rank that [Series.rank] computes is the average of the ordinal
    ranks, whatever the order given to tied rows. *)
Lemma rank_of_is_the_average (ascending : bool) (xs order : list Q) (x : Q) :
  order ≡ₚ xs → in_ranking_order ascending order →
  rank_of ascending xs x = average (ordinal_ranks order x).
Proof.
  intros Hperm Hs. unfold ordinal_ranks.
  rewrite (places_in_ranking_order ascending x order 1 Hs).
  unfold rank_of, average, count_before, count_ties.
  now rewrite !(filter_length_Permutation _ _ _ Hperm).
Qed.

(** C6 (amended).  For a prediction table whose target column is numeric
    and which has no column [rank_<target>] yet, ranking appends the column
    [rank_<target>] to the table, in place: every row gets one more cell,
    its rank.  Put the target values in the ranking order (ascending when
    [greater_is_better] is false, descending when it is true), tied values
    in any order, and number the places from 1: the rank of a row is the
    average of the places of the rows that hold its value.  Without ties the
    row with the smallest value (ascending) or the largest value
    (descending) receives rank 1. *)
Theorem ranking_gives_rank_one_to_the_best (data : loc) (target_column : string)
    (greater_is_better : bool) (w : world) (df : DataFrame)
    (cells : list value) (xs : list Q) :
  frames w !! data = Some df →
  df_getitem df target_column = Ok cells →
  result_map as_num cells = Ok xs →
  column_index ("rank_" +:+ target_column) (columns df) = None →
  ∃ ranks : list Q,
    _rank_predictions data target_column greater_is_better w =
    (Ok data,
     set_frames
       (<[data := {| columns := columns df ++ ["rank_" +:+ target_column];
                     rows := zip_with (λ r v, r ++ [v]) (rows df)
                                      (map VFloat ranks) |}]>
          (frames w)) w) ∧
    length ranks = length (rows df) ∧
    ∀ i x rank, xs !! i = Some x → ranks !! i = Some rank →
      (∀ order, order ≡ₚ xs →
         in_ranking_order (negb greater_is_better) order →
         rank = average (ordinal_ranks order x)) ∧
      (no_ties xs →
       (greater_is_better = false → (∀ y, In y xs → Qle x y) → rank = 1%Q) ∧
       (greater_is_better = true → (∀ y, In y xs → Qle y x) → rank = 1%Q)).
Proof.
  intros Hdf Hcells Hxs Hnew.
  exists (series_rank (negb greater_is_better) xs).
  split; [now apply rank_predictions_run with (cells := cells)|].
  split.
  { unfold series_rank. rewrite length_map, (result_map_length _ _ _ Hxs).
    now apply df_getitem_length with (name := target_column). }
  intros i x rank Hi Hrank.
  unfold series_rank in Hrank. rewrite map_lookup, Hi in Hrank.
  injection Hrank as <-.
  split; [intros order Hperm Hs; now apply rank_of_is_the_average|].
  intros Hn. pose proof (rank_of_no_ties (negb greater_is_better) _ _ _ Hn Hi) as Hr.
  split; intros -> Hbest; rewrite Hr, count_before_first; try reflexivity;
    exact Hbest.
Qed.

(** C6 (amended) at a concrete input: the predictions 3, 1 and 3 are ranked
    in ascending order.  In the order 1, 3, 3 the tied rows take the places
    2 and 3: both get the rank 5/2, and the row that holds 1 gets 1. *)
Lemma ranking_gives_rank_one_to_the_best_witness :
  ∃ ranks,
    frames (snd (_rank_predictions 0 "t" false
                   (world_with_frame predictions_with_ties))) !! 0
    = Some {| columns := ["x"; "t"; "rank_t"];
              rows := zip_with (λ r v, r ++ [v]) (rows predictions_with_ties)
                               (map VFloat ranks) |} ∧
    length ranks = 3 ∧
    (∀ rank, ranks !! 0 = Some rank → rank = (5 # 2)%Q) ∧
    (∀ rank, ranks !! 1 = Some rank → rank = 1%Q) ∧
    (∀ rank, ranks !! 2 = Some rank → rank = (5 # 2)%Q).
Proof.
  destruct (ranking_gives_rank_one_to_the_best 0 "t" false
              (world_with_frame predictions_with_ties) predictions_with_ties
              [VFloat (3 # 1); VFloat (1 # 1); VFloat (3 # 1)]
              [3 # 1; 1 # 1; 3 # 1]%Q
              eq_refl eq_refl eq_refl eq_refl)
    as (ranks & Hrun & Hlen & Hranks).
  exists ranks. rewrite Hrun.
  split; [simpl; apply lookup_insert_eq|]. split; [exact Hlen|].
  assert ([1 # 1; 3 # 1; 3 # 1]%Q ≡ₚ [3 # 1; 1 # 1; 3 # 1]%Q) as Hperm
    by apply perm_swap.
  assert (in_ranking_order (negb false) [1 # 1; 3 # 1; 3 # 1]%Q) as Hs.
  { intros [|[|[|i]]] [|[|[|j]]] a b Hij Hi Hj; try lia;
      simpl in Hi, Hj; try discriminate;
      injection Hi as <-; injection Hj as <-; discriminate. }
  split; [|split]; intros rank Hrank.
  - now rewrite (proj1 (Hranks 0 _ rank eq_refl Hrank) _ Hperm Hs).
  - now rewrite (proj1 (Hranks 1 _ rank eq_refl Hrank) _ Hperm Hs).
  - now rewrite (proj1 (Hranks 2 _ rank eq_refl Hrank) _ Hperm Hs).
Defined.

(** C6, as stated, fails: a table whose target column is numeric and
    without ties, but which has a column named [rank_<target>] already, is
    refused.  [DataFrame.insert] raises [ValueError], in both directions,
    and the table stays as it was. *)
Lemma ranking_refuses_an_existing_column :
  df_getitem predictions_with_rank_column "t"
  = Ok [VFloat (3 # 1); VFloat (1 # 1)] ∧
  result_map as_num [VFloat (3 # 1); VFloat (1 # 1)] = Ok [3 # 1; 1 # 1]%Q ∧
  _rank_predictions 0 "t" false (world_with_frame predictions_with_rank_column)
  = (Raise ValueError, world_with_frame predictions_with_rank_column) ∧
  _rank_predictions 0 "t" true (world_with_frame predictions_with_rank_column)
  = (Raise ValueError, world_with_frame predictions_with_rank_column).
Proof. repeat split; reflexivity. Qed.

(** ** Strings and paths *)

Lemma append_cons (c : ascii) (s t : string) :
  String c s +:+ t = String c (s +:+ t).
Proof. reflexivity. Qed.

Lemma append_nil_l (t : string) : "" +:+ t = t.
Proof. reflexivity. Qed.

Lemma append_nil_r (s : string) : s +:+ "" = s.
Proof.
  induction s as [|c s IH]; [reflexivity|]. now rewrite append_cons, IH.
Qed.

Lemma append_assoc (a b c : string) : (a +:+ b) +:+ c = a +:+ (b +:+ c).
Proof.
  induction a as [|x a IH]; [reflexivity|]. now rewrite !append_cons, IH.
Qed.

Lemma length_append (a b : string) :
  String.length (a +:+ b) = String.length a + String.length b.
Proof.
  induction a as [|x a IH]; [reflexivity|]. rewrite append_cons. simpl.
  now rewrite IH.
Qed.

Lemma prefix_refl (s : string) : String.prefix s s = true.
Proof.
  induction s as [|c s IH]; simpl; [reflexivity|].
  now destruct (ascii_dec c c).
Qed.

Lemma prefix_append (a b : string) : String.prefix a (a +:+ b) = true.
Proof.
  induction a as [|c a IH]; [now destruct b|].
  rewrite append_cons. simpl. now destruct (ascii_dec c c).
Qed.

Lemma substring_whole (s : string) : String.substring 0 (String.length s) s = s.
Proof. induction s as [|c s IH]; simpl; [reflexivity | now rewrite IH]. Qed.

Lemma substring_append_r (a b : string) :
  String.substring (String.length a) (String.length b) (a +:+ b) = b.
Proof.
  induction a as [|c a IH]; [apply substring_whole|].
  rewrite append_cons. simpl. exact IH.
Qed.

Lemma str_endswith_append (a b : string) : str_endswith b (a +:+ b) = true.
Proof.
  unfold str_endswith. rewrite length_append.
  replace (String.length a + String.length b - String.length b)
    with (String.length a) by lia.
  rewrite substring_append_r, String.eqb_refl, andb_true_r.
  apply Nat.leb_le. lia.
Qed.

Lemma str_contains_unfold (x s : string) :
  str_contains x s =
  String.prefix x s ||
  match s with
  | EmptyString => false
  | String _ s' => str_contains x s'
  end.
Proof. now destruct s. Qed.

Lemma str_contains_self (x : string) : str_contains x x = true.
Proof. now rewrite str_contains_unfold, prefix_refl. Qed.

Lemma str_contains_append_r (x a s : string) :
  str_contains x s = true → str_contains x (a +:+ s) = true.
Proof.
  intros Hs. induction a as [|c a IH]; [assumption|].
  rewrite append_cons, str_contains_unfold, IH. apply orb_true_r.
Qed.

Lemma str_contains_suffix (x a : string) : str_contains x (a +:+ x) = true.
Proof. apply str_contains_append_r, str_contains_self. Qed.

(** A relative name is appended to the directory part. *)
Lemma os_path_join_relative (output_path name : string) :
  str_startswith "/" name = false →
  os_path_join output_path name = os_path_join output_path "" +:+ name.
Proof.
  intros Hrel. unfold os_path_join. rewrite Hrel.
  change (str_startswith "/" "") with false. cbv iota.
  destruct (String.eqb output_path "" || str_endswith "/" output_path).
  - now rewrite append_nil_r.
  - now rewrite append_nil_r, append_assoc.
Qed.

(** A path that ends with one of the two names to ignore is ignored. *)
Lemma output_files_are_ignored (output_path : string) :
  ignored (os_path_join output_path PRED_ALL_PREDICTIONS_FILE) = true ∧
  ignored (os_path_join output_path PRED_GROUND_TRUTH_FILE) = true.
Proof.
  unfold ignored, ignore_files. simpl existsb.
  rewrite (os_path_join_relative _ PRED_ALL_PREDICTIONS_FILE) by reflexivity.
  rewrite (os_path_join_relative _ PRED_GROUND_TRUTH_FILE) by reflexivity.
  rewrite !str_contains_suffix. split; [reflexivity | apply orb_true_r].
Qed.

Lemma ignored_spec (filename : string) :
  ignored filename = false ↔
  str_contains PRED_ALL_PREDICTIONS_FILE filename = false ∧
  str_contains PRED_GROUND_TRUTH_FILE filename = false.
Proof.
  unfold ignored, ignore_files. simpl existsb.
  rewrite orb_false_r. apply orb_false_iff.
Qed.

Lemma join_inputs_In (files : list string) (filename : string) :
  In filename (join_inputs files) ↔ In filename files ∧ ignored filename = false.
Proof. unfold join_inputs. now rewrite filter_In, negb_true_iff. Qed.

(** ** The merge step *)

(** The scan of a directory whose path has no special character lists
    files that exist, each once. *)
Lemma glob_predictions_run `{Collaborators} (output_path : string) (w : world) :
  has_magic output_path = false →
  ∃ files,
    glob_predictions output_path w = (Ok files, w) ∧
    List.NoDup files ∧
    ∀ p, In p files ↔
         is_Some (csv_files w !! p) ∧
         ∃ name, p = os_path_join output_path "" +:+ name ∧
                 str_contains "/" name = false ∧
                 is_predictions_name name = true.
Proof.
  intros Hplain. unfold glob_predictions. rewrite Hplain.
  eexists. split; [reflexivity|]. split.
  - apply List.NoDup_filter. apply NoDup_ListNoDup.
    change (map fst (map_to_list (csv_files w)))
      with ((map_to_list (csv_files w)).*1).
    apply NoDup_fst_map_to_list.
  - intros p. rewrite filter_In. split.
    + intros [Hin Hcond].
      apply in_map_iff in Hin as ([p' t] & Hp & Hin). simpl in Hp. subst p'.
      apply list_elem_of_In, elem_of_map_to_list in Hin.
      split; [now exists t|].
      apply andb_true_iff in Hcond as [Hpre Hname].
      apply andb_true_iff in Hname as [Hslash Hname].
      apply negb_true_iff in Hslash.
      eexists. split; [|split; eassumption].
      unfold str_startswith in Hpre. apply prefix_correct in Hpre.
      set (prefix := os_path_join output_path "") in *.
      clearbody prefix. clear -Hpre. revert p Hpre.
      induction prefix as [|c prefix IH]; intros p Hpre.
      * rewrite append_nil_l. simpl. rewrite Nat.sub_0_r.
        now rewrite substring_whole.
      * destruct p as [|c' p]; simpl in Hpre; [discriminate|].
        injection Hpre as -> Hpre. rewrite append_cons. simpl. f_equal.
        now apply IH.
    + intros [[t Ht] (name & -> & Hslash & Hname)]. split.
      * apply in_map_iff. exists (os_path_join output_path "" +:+ name, t).
        split; [reflexivity|]. now apply list_elem_of_In, elem_of_map_to_list.
      * unfold str_startswith. rewrite prefix_append. simpl.
        rewrite length_append.
        replace (String.length (os_path_join output_path "") + String.length name
                 - String.length (os_path_join output_path ""))
          with (String.length name) by lia.
        rewrite substring_append_r, Hslash, Hname. reflexivity.
Qed.

Lemma fresh_frame (w : world) : frames w !! fresh (dom (frames w)) = None.
Proof. apply not_elem_of_dom, is_fresh. Qed.

Lemma new_frame_extends (df : DataFrame) (w : world) :
  frames w ⊆ <[fresh (dom (frames w)) := df]> (frames w).
Proof. apply insert_subseteq, fresh_frame. Qed.

(** The loop that reads the files to merge: it reads the files that are not
    ignored, in order, each into a new object, and touches nothing else. *)
Lemma read_predictions_run (files : list string) :
  ∀ (dfs : list loc) (w : world),
    (∀ f, In f files → is_Some (csv_files w !! f)) →
    ∃ new w',
      read_predictions files dfs w = (Ok (dfs ++ new), w') ∧
      csv_files w' = csv_files w ∧
      frames w ⊆ frames w' ∧
      Forall2 (λ df filename, frames w' !! df = csv_files w !! filename)
              new (join_inputs files).
Proof.
  induction files as [|f files IH]; intros dfs w Hfiles.
  - exists [], w. rewrite app_nil_r. repeat split; [reflexivity | constructor].
  - simpl. unfold join_inputs. simpl. destruct (ignored f) eqn:E; simpl.
    + apply IH. intros f' Hf'. apply Hfiles. now right.
    + destruct (Hfiles f (or_introl eq_refl)) as [table Htable].
      set (w1 := set_frames (<[fresh (dom (frames w)) := table]> (frames w)) w).
      destruct (IH (dfs ++ [fresh (dom (frames w))]) w1) as (new & w' & Hrun & Hcsv & Hsub & Hall).
      { intros f' Hf'. simpl. apply Hfiles. now right. }
      exists (fresh (dom (frames w)) :: new), w'.
      split; [|split; [|split]].
      * erewrite bind_Ok; [|unfold pd_read_csv; rewrite Htable; reflexivity].
        fold w1. rewrite Hrun. now rewrite <- app_assoc.
      * exact Hcsv.
      * etrans; [apply new_frame_extends | exact Hsub].
      * constructor; [|exact Hall].
        rewrite Htable. eapply lookup_weaken; [|exact Hsub].
        simpl. apply lookup_insert_eq.
Qed.

Lemma prefix_nil (s : string) : String.prefix "" s = true.
Proof. now destruct s. Qed.

(** A one-character pattern occurs in a concatenation when it occurs in one
    of the two parts. *)
Lemma str_contains_char_append (c : ascii) (a b : string) :
  str_contains (String c "") (a +:+ b)
  = str_contains (String c "") a || str_contains (String c "") b.
Proof.
  induction a as [|d a IH]; [reflexivity|].
  rewrite append_cons, (str_contains_unfold _ (String d (a +:+ b))),
    (str_contains_unfold _ (String d a)), IH.
  simpl. destruct (ascii_dec c d); [now rewrite !prefix_nil|]. reflexivity.
Qed.

Lemma per_target_name (target_variable : string) :
  str_contains "/" target_variable = false →
  str_contains "/" ("predictions-" +:+ target_variable +:+ ".csv") = false ∧
  is_predictions_name ("predictions-" +:+ target_variable +:+ ".csv") = true ∧
  str_startswith "/" ("predictions-" +:+ target_variable +:+ ".csv") = false.
Proof.
  intros Hslash. split; [|split].
  - rewrite !str_contains_char_append, Hslash. reflexivity.
  - unfold is_predictions_name, str_startswith.
    rewrite prefix_append.
    rewrite <- append_assoc, str_endswith_append.
    rewrite append_assoc, !length_append. apply Nat.leb_le. simpl. lia.
  - reflexivity.
Qed.

(** C7.  The merge step leaves out a per-target prediction file.  The
    runner writes the file of the target [overall-predictions], whose name
    contains [all-predictions.csv]; the scan of the output directory finds
    the file and the merge step skips it, so that the join inputs are not
    the per-target prediction files and the consolidated table has the
    columns of [speed] only. *)
Lemma file_of_a_target_left_out_of_the_merge :
  fst two_targets_run = Ok tt ∧
  (∃ table,
     csv_files (snd two_targets_run) !! per_target_file "out" "overall-predictions"
     = Some table ∧
     columns table = ["b"; "a"; "overall-predictions"; "rank_overall-predictions"]) ∧
  ignored (per_target_file "out" "overall-predictions") = true ∧
  fst (glob_predictions "out" (snd two_targets_run))
  = Ok [per_target_file "out" "overall-predictions"; per_target_file "out" "speed"] ∧
  join_inputs [per_target_file "out" "overall-predictions";
               per_target_file "out" "speed"]
  = [per_target_file "out" "speed"] ∧
  (∃ table,
     csv_files (snd two_targets_run) !! os_path_join "out" PRED_ALL_PREDICTIONS_FILE
     = Some table ∧
     columns table = ["b"; "a"; "speed"; "rank_speed"]).
Proof.
  split; [vm_compute; reflexivity|].
  split; [eexists; split; vm_compute; reflexivity|].
  split; [vm_compute; reflexivity|].
  split; [vm_compute; reflexivity|].
  split; [vm_compute; reflexivity|].
  eexists; split; vm_compute; reflexivity.
Qed.

(** ** What the steps of the runner leave alone *)

Lemma bind_inv {A B} (m : M A) (k : A → M B) (w w' : world) (r : result B) :
  bind m k w = (r, w') →
  (∃ e, m w = (Raise e, w') ∧ r = Raise e) ∨
  (∃ a w1, m w = (Ok a, w1) ∧ k a w1 = (r, w')).
Proof.
  unfold bind. destruct (m w) as [[a|e] w1] eqn:E; intros Hk.
  - right. now exists a, w1.
  - left. exists e. now injection Hk as <- <-.
Qed.

Create HintDb dirs.
Create HintDb objects.

Ltac step_by_step E :=
  cbv beta in E;
  repeat (case_match; simplify_eq);
  simplify_eq; simpl; auto.

Lemma keeps_ret {A} (a : A) : keeps_directories (ret a).
Proof. intros w r w' E. unfold ret in E. step_by_step E. Qed.

Lemma keeps_raise {A} (e : error) : keeps_directories (raise e : M A).
Proof. intros w r w' E. unfold raise in E. step_by_step E. Qed.

Lemma keeps_lift {A} (x : result A) : keeps_directories (lift x).
Proof. intros w r w' E. unfold lift in E. step_by_step E. Qed.

Lemma keeps_bind {A B} (m : M A) (k : A → M B) :
  keeps_directories m → (∀ a, keeps_directories (k a)) →
  keeps_directories (bind m k).
Proof.
  intros Hm Hk w r w' E.
  apply bind_inv in E as [(e & E & ->)|(a & w1 & E & E')].
  - eapply Hm, E.
  - destruct (Hm _ _ _ E) as [F1 A1]. destruct (Hk a _ _ _ E') as [F2 A2].
    split; congruence.
Qed.

Lemma keeps_for_each {A} (xs : list A) (body : A → M unit) :
  (∀ x, keeps_directories (body x)) → keeps_directories (for_each xs body).
Proof.
  intros Hb. induction xs as [|x xs IH]; simpl.
  - apply keeps_ret.
  - apply keeps_bind; [apply Hb | intros _; exact IH].
Qed.

Lemma keeps_read_frame (l : loc) : keeps_directories (read_frame l).
Proof. intros w r w' E. unfold read_frame in E. step_by_step E. Qed.

Lemma keeps_new_frame (df : DataFrame) : keeps_directories (new_frame df).
Proof. intros w r w' E. unfold new_frame in E. step_by_step E. Qed.

Lemma keeps_update_frame (l : loc) (f : DataFrame → result DataFrame) :
  keeps_directories (update_frame l f).
Proof.
  unfold update_frame.
  apply keeps_bind; [apply keeps_read_frame | intros df].
  apply keeps_bind; [apply keeps_lift | intros df'].
  intros w r w' E. step_by_step E.
Qed.

Lemma keeps_frame_copy (l : loc) : keeps_directories (frame_copy l).
Proof.
  unfold frame_copy.
  apply keeps_bind; [apply keeps_read_frame | intros df; apply keeps_new_frame].
Qed.

Lemma keeps_write_df_to_csv (df : loc) (output_path output_file : string) :
  keeps_directories (write_df_to_csv df output_path output_file).
Proof.
  unfold write_df_to_csv.
  apply keeps_bind; [apply keeps_read_frame | intros table].
  intros w r w' E. step_by_step E.
Qed.

Lemma keeps_pd_read_csv (filename : string) : keeps_directories (pd_read_csv filename).
Proof.
  intros w r w' E. unfold pd_read_csv in E.
  destruct (csv_files w !! filename); [|step_by_step E].
  eapply keeps_new_frame, E.
Qed.

Lemma keeps_glob_predictions `{Collaborators} (output_path : string) :
  keeps_directories (glob_predictions output_path).
Proof. intros w r w' E. unfold glob_predictions in E. step_by_step E. Qed.

Lemma keeps_load_estimator (input_path pickle_file : string) :
  keeps_directories (load_estimator input_path pickle_file).
Proof. intros w r w' E. unfold load_estimator in E. step_by_step E. Qed.

Lemma keeps_read_rankings (estimator_path : string) :
  keeps_directories (read_rankings estimator_path).
Proof. intros w r w' E. unfold read_rankings in E. step_by_step E. Qed.

Lemma keeps_is_zipfile (path : string) : keeps_directories (is_zipfile path).
Proof. intros w r w' E. unfold is_zipfile in E. step_by_step E. Qed.

#[local] Hint Resolve keeps_ret keeps_raise keeps_lift keeps_read_frame
  keeps_new_frame keeps_update_frame keeps_frame_copy keeps_write_df_to_csv
  keeps_pd_read_csv keeps_glob_predictions keeps_load_estimator
  keeps_read_rankings keeps_is_zipfile : dirs.

(** Goes through a computation made of the steps above. *)
Ltac keeps_all :=
  repeat first
    [ solve [auto with dirs]
    | apply keeps_for_each; intros ?
    | match goal with
      | |- keeps_directories (if ?b then _ else _) => destruct b
      | |- keeps_directories (match ?x with _ => _ end) => destruct x
      end
    | apply keeps_bind; [|intros ?] ].

Lemma keeps_rank_predictions (data : loc) (target_column : string) (gib : bool) :
  keeps_directories (_rank_predictions data target_column gib).
Proof. unfold _rank_predictions. keeps_all. Qed.

#[local] Hint Resolve keeps_rank_predictions : dirs.

Lemma keeps_read_predictions (files : list string) :
  ∀ dfs, keeps_directories (read_predictions files dfs).
Proof.
  induction files as [|f files IH]; intros dfs; simpl; [auto with dirs|].
  destruct (ignored f); [apply IH|].
  apply keeps_bind; [auto with dirs | intros df; apply IH].
Qed.

#[local] Hint Resolve keeps_read_predictions : dirs.

Section RunnerFrame.
Context `{Collaborators}.

Lemma keeps_resolver (estimator_path target_variable : string) :
  keeps_directories (_get_highest_ranked_estimator estimator_path target_variable).
Proof. unfold _get_highest_ranked_estimator. keeps_all. Qed.

Lemma keeps_predict_entry (input_data : loc) (estimator_folder output_path : string)
    (entry : yaml) :
  keeps_directories (predict_entry input_data estimator_folder output_path entry).
Proof.
  pose proof keeps_resolver. unfold predict_entry. keeps_all.
Qed.

Lemma keeps_reduce_merge (dfs : list loc) :
  ∀ x, keeps_directories (reduce_merge x dfs).
Proof.
  induction dfs as [|y dfs IH]; intros x; simpl; [auto with dirs|].
  keeps_all.
Qed.

Lemma keeps_merge_predictions (output_path : string) :
  keeps_directories (merge_predictions output_path).
Proof.
  pose proof keeps_reduce_merge. unfold merge_predictions. keeps_all.
Qed.

Lemma keeps_reconcile (original_data : option loc) (input_data all_predictions_df : loc)
    (output_path : string) :
  keeps_directories (reconcile original_data input_data all_predictions_df output_path).
Proof. unfold reconcile. keeps_all. Qed.

End RunnerFrame.

(** ** The extracted archive *)

Section ArchiveClaims.
Context `{Collaborators}.

Ltac stage E lemma F A :=
  let e := fresh "e" in
  let a := fresh "a" in
  let w2 := fresh "w" in
  let E0 := fresh "E" in
  let F0 := fresh "F" in
  let A0 := fresh "A" in
  apply bind_inv in E as [(e & E0 & ->)|(a & w2 & E0 & E)];
  [ destruct (lemma _ _ _ E0) as [F0 A0]; rewrite (eq_trans F0 F); reflexivity
  | destruct (lemma _ _ _ E0) as [F0 A0];
    let F' := fresh "F" in
    let A' := fresh "A" in
    pose proof (eq_trans F0 F) as F'; pose proof (eq_trans A0 A) as A';
    clear F A F0 A0 E0; rename F' into F; rename A' into A ].

Lemma below_outside {A} (directory : string) (files : gmap string A) :
  below directory (outside directory files) = ∅.
Proof.
  unfold below, outside. apply map_empty_filter.
  intros p x Hp. apply map_lookup_filter_Some in Hp as [_ Hp].
  simpl in *. congruence.
Qed.

Lemma below_delete {A} (directory p : string) (files : gmap string A) :
  below directory files = ∅ → below directory (delete p files) = ∅.
Proof.
  unfold below. rewrite map_filter_delete. intros ->. apply delete_empty.
Qed.

(** What [rmtree] leaves: the directory is gone, with all that was below
    it. *)
Lemma rmtree_inv (path : string) (w w' : world) (r : result unit) :
  rmtree path w = (r, w') →
  match r with
  | Ok _ => folders w' !! path = None ∧ isdir w' path = false
  | Raise _ => w' = w
  end.
Proof.
  unfold rmtree. destruct (is_file w path); [now intros [= <- <-]|].
  destruct (isdir w path); intros [= <- <-]; [|reflexivity].
  split; [simpl; apply lookup_delete_eq|].
  unfold isdir. simpl.
  rewrite lookup_delete_eq, !below_outside, (below_delete _ _ _ (below_outside _ _)).
  rewrite bool_decide_eq_false_2 by (intros [? [=]]).
  now rewrite !bool_decide_eq_true_2.
Qed.

(** Once the archive is extracted, the directory is removed when the run
    comes to its end, and only then. *)
Lemma run_in_folder_cleanup (od : option loc) (input_data : loc) (cfg : Config)
    (estimator_path estimator_folder output_path : string) (w1 w' : world)
    (r : result unit) :
  is_Some (folders w1 !! estimator_folder) →
  is_Some (archives w1 !! estimator_path) →
  run_in_folder od input_data cfg estimator_path estimator_folder output_path w1
  = (r, w') →
  match r with
  | Ok _ => folders w' !! estimator_folder = None ∧ isdir w' estimator_folder = false
  | Raise _ => folders w' !! estimator_folder = folders w1 !! estimator_folder
  end.
Proof.
  intros Hfolder Harchive E. unfold run_in_folder in E.
  assert (folders w1 = folders w1) as F by reflexivity.
  assert (archives w1 = archives w1) as A by reflexivity.
  stage E (keeps_lift (py_iter (cfg_estimators cfg))) F A.
  stage E (keeps_for_each a
             (predict_entry input_data estimator_folder output_path)
             (keeps_predict_entry input_data estimator_folder output_path)) F A.
  stage E (keeps_merge_predictions output_path) F A.
  stage E (keeps_reconcile od input_data a1 output_path) F A.
  unfold bind, is_zipfile in E. rewrite A in E.
  rewrite (bool_decide_eq_true_2 _ Harchive) in E.
  pose proof (rmtree_inv _ _ _ _ E) as Hend.
  destruct r as [[]|e]; [exact Hend|]. subst w'. now rewrite F.
Qed.

Lemma unpack_archive_run (estimator_path estimator_folder : string) (w : world)
    (content : folder) :
  archives w !! estimator_path = Some content →
  str_endswith ".zip" estimator_path = true →
  no_entry content = false →
  is_file w estimator_folder = false →
  unpack_archive estimator_path estimator_folder w
  = (Ok tt,
     set_folders (<[estimator_folder :=
                      extract_into content (folders w !! estimator_folder)]>
                    (folders w)) w).
Proof.
  intros Ha Hz He Hf. unfold unpack_archive. now rewrite Ha, Hz, He, Hf.
Qed.

(** C8 (amended).  When the estimator source path is a zip archive that
    holds at least one file, under a name in [.zip] as
    [shutil.unpack_archive] needs it to be, and no regular file stands at
    the path of the sibling directory named after the archive, the runner
    first extracts the archive to that directory; the loop over the target
    variables, where the estimators are loaded, and all that follows run in
    the world that holds the extracted directory.  When the run completes
    without an exception the directory does not exist any more; when the
    run raises, in the loop or later, the directory is still there, with
    what was extracted. *)
Theorem extracted_folder_removed_on_success_only (od : option loc) (input_data : loc)
    (cfg : Config) (estimator_path output_path : string) (w : world)
    (content : folder) :
  archives w !! estimator_path = Some content →
  str_endswith ".zip" estimator_path = true →
  no_entry content = false →
  is_file w (sibling_folder estimator_path) = false →
  let estimator_folder := sibling_folder estimator_path in
  let extracted := extract_into content (folders w !! estimator_folder) in
  ∃ w1,
    unpack_archive estimator_path estimator_folder w = (Ok tt, w1) ∧
    folders w1 !! estimator_folder = Some extracted ∧
    _run_predictions od input_data cfg estimator_path output_path w
    = run_in_folder od input_data cfg estimator_path estimator_folder
                    output_path w1 ∧
    (∀ r w',
       _run_predictions od input_data cfg estimator_path output_path w = (r, w') →
       match r with
       | Ok _ =>
           folders w' !! estimator_folder = None ∧
           isdir w' estimator_folder = false
       | Raise _ => folders w' !! estimator_folder = Some extracted
       end) ∧
    (∀ entries e w2,
       py_iter (cfg_estimators cfg) = Ok entries →
       for_each entries (predict_entry input_data estimator_folder output_path) w1
       = (Raise e, w2) →
       _run_predictions od input_data cfg estimator_path output_path w
       = (Raise e, w2) ∧
       folders w2 !! estimator_folder = Some extracted).
Proof.
  intros Ha Hz He Hf. cbv zeta.
  pose proof (unpack_archive_run _ (sibling_folder estimator_path) _ _ Ha Hz He Hf)
    as Hu.
  eexists. split; [exact Hu|].
  assert (_run_predictions od input_data cfg estimator_path output_path w
          = run_in_folder od input_data cfg estimator_path
              (sibling_folder estimator_path) output_path
              (set_folders
                 (<[sibling_folder estimator_path :=
                      extract_into content
                        (folders w !! sibling_folder estimator_path)]>
                    (folders w)) w)) as Hrun.
  { unfold _run_predictions.
    erewrite bind_Ok;
      [|unfold is_zipfile; rewrite bool_decide_eq_true_2 by (now exists content);
        reflexivity].
    erewrite bind_Ok; [reflexivity|].
    erewrite bind_Ok; [reflexivity | exact Hu]. }
  split; [simpl; apply lookup_insert_eq|].
  split; [exact Hrun|].
  split.
  - intros r w' E. rewrite Hrun in E.
    apply run_in_folder_cleanup in E.
    + destruct r; [exact E|]. rewrite E. simpl. apply lookup_insert_eq.
    + simpl. rewrite lookup_insert_eq. eauto.
    + simpl. now exists content.
  - intros entries e w2 Hentries Hloop. rewrite Hrun.
    assert (run_in_folder od input_data cfg estimator_path
              (sibling_folder estimator_path) output_path
              (set_folders
                 (<[sibling_folder estimator_path :=
                      extract_into content
                        (folders w !! sibling_folder estimator_path)]>
                    (folders w)) w) = (Raise e, w2)) as E.
    { unfold run_in_folder.
      erewrite bind_Ok; [|unfold lift; rewrite Hentries; reflexivity].
      erewrite bind_Raise; [reflexivity | exact Hloop]. }
    split; [exact E|].
    apply (run_in_folder_cleanup _ _ _ _ _ _ _ _ (Raise e)) in E.
    + rewrite E. simpl. apply lookup_insert_eq.
    + simpl. rewrite lookup_insert_eq. eauto.
    + simpl. now exists content.
Qed.

End ArchiveClaims.

(** C8 (amended) at a concrete input: the archive [store/models.zip] is
    extracted to [store/models]; the directory is gone after a run that
    completes, and still there, with the estimators, after a run that stops
    at a missing estimator file. *)
Lemma extracted_folder_removed_on_success_only_witness :
  sibling_folder "store/models.zip" = "store/models" ∧
  isdir (snd (_run_predictions None 0 cfg_one_target "store/models.zip" "out"
                world_with_archive)) "store/models" = false ∧
  folders (snd (_run_predictions None 0 cfg_missing_estimator
                  "store/models.zip" "out" world_with_archive))
    !! "store/models" = Some sample_models.
Proof.
  split; [reflexivity|]. split.
  - destruct (extracted_folder_removed_on_success_only None 0 cfg_one_target
                "store/models.zip" "out" world_with_archive sample_models
                eq_refl eq_refl eq_refl eq_refl) as (w1 & _ & _ & _ & Hend & _).
    apply (Hend (Ok tt)). vm_compute. reflexivity.
  - destruct (extracted_folder_removed_on_success_only None 0 cfg_missing_estimator
                "store/models.zip" "out" world_with_archive sample_models
                eq_refl eq_refl eq_refl eq_refl) as (w1 & _ & _ & _ & Hend & _).
    apply (Hend (Raise FileNotFoundError)). vm_compute. reflexivity.
Defined.

(** C8, as stated, fails.  A zip archive stored under a name that does not
    end in [.zip] is not extracted: [shutil.unpack_archive] raises
    [ReadError].  The archive [store/.zip] has itself as sibling directory:
    making the directory raises [FileExistsError].  An archive without
    files leaves no directory: the loop stops at the first estimator, and
    there is no extracted directory on disk. *)
Lemma archive_not_extracted_to_a_sibling_directory :
  (archives world_with_misnamed_archive !! "store/models" = Some sample_models ∧
   _run_predictions None 0 cfg_one_target "store/models" "out"
     world_with_misnamed_archive
   = (Raise ReadError, world_with_misnamed_archive) ∧
   isdir world_with_misnamed_archive (sibling_folder "store/models") = false) ∧
  (sibling_folder "store/.zip" = "store/.zip" ∧
   _run_predictions None 0 cfg_one_target "store/.zip" "out"
     world_with_hidden_archive
   = (Raise FileExistsError, world_with_hidden_archive)) ∧
  (_run_predictions None 0 cfg_one_target "store/models.zip" "out"
     world_with_empty_archive
   = (Raise FileNotFoundError, world_with_empty_archive) ∧
   isdir world_with_empty_archive (sibling_folder "store/models.zip") = false).
Proof. repeat split; vm_compute; reflexivity. Qed.

(** ** The objects that the runner changes *)

Lemma changes_nothing {A} (own : gset loc) (m : M A) :
  (∀ w r w', m w = (r, w') → frames w' = frames w) → changes_only own m.
Proof. intros Hm w r w' E l _ _. now rewrite (Hm _ _ _ E). Qed.

Lemma changes_ret {A} (own : gset loc) (a : A) : changes_only own (ret a).
Proof. apply changes_nothing. intros w r w' E. unfold ret in E. step_by_step E. Qed.

Lemma changes_raise {A} (own : gset loc) (e : error) :
  changes_only own (raise e : M A).
Proof. apply changes_nothing. intros w r w' E. unfold raise in E. step_by_step E. Qed.

Lemma changes_lift {A} (own : gset loc) (x : result A) : changes_only own (lift x).
Proof. apply changes_nothing. intros w r w' E. unfold lift in E. step_by_step E. Qed.

Lemma changes_read_frame (own : gset loc) (l : loc) : changes_only own (read_frame l).
Proof.
  apply changes_nothing. intros w r w' E. unfold read_frame in E. step_by_step E.
Qed.

Lemma changes_glob_predictions `{Collaborators} (own : gset loc)
    (output_path : string) :
  changes_only own (glob_predictions output_path).
Proof.
  apply changes_nothing. intros w r w' E. unfold glob_predictions in E.
  step_by_step E.
Qed.

Lemma changes_load_estimator (own : gset loc) (input_path pickle_file : string) :
  changes_only own (load_estimator input_path pickle_file).
Proof.
  apply changes_nothing. intros w r w' E. unfold load_estimator in E.
  step_by_step E.
Qed.

Lemma changes_read_rankings (own : gset loc) (estimator_path : string) :
  changes_only own (read_rankings estimator_path).
Proof.
  apply changes_nothing. intros w r w' E. unfold read_rankings in E.
  step_by_step E.
Qed.

Lemma changes_is_zipfile (own : gset loc) (path : string) :
  changes_only own (is_zipfile path).
Proof.
  apply changes_nothing. intros w r w' E. unfold is_zipfile in E. step_by_step E.
Qed.

Lemma changes_unpack_archive (own : gset loc) (filename extract_dir : string) :
  changes_only own (unpack_archive filename extract_dir).
Proof.
  apply changes_nothing. intros w r w' E. unfold unpack_archive in E.
  step_by_step E.
Qed.

Lemma changes_rmtree (own : gset loc) (path : string) : changes_only own (rmtree path).
Proof.
  apply changes_nothing. intros w r w' E. unfold rmtree in E. step_by_step E.
Qed.

Lemma changes_new_frame (own : gset loc) (df : DataFrame) :
  changes_only own (new_frame df).
Proof.
  intros w r w' E l _ [t Hl]. unfold new_frame in E. injection E as <- <-. simpl.
  apply lookup_insert_ne. intros <-. rewrite fresh_frame in Hl. discriminate.
Qed.

Lemma changes_bind {A B} (own : gset loc) (m : M A) (k : A → M B) :
  changes_only own m → (∀ a, changes_only own (k a)) → changes_only own (bind m k).
Proof.
  intros Hm Hk w r w' E l Hl Hex.
  apply bind_inv in E as [(e & E & ->)|(a & w1 & E & E')].
  - eapply Hm; eassumption.
  - pose proof (Hm _ _ _ E l Hl Hex) as H1.
    rewrite <- H1. eapply Hk; [eassumption | assumption | now rewrite H1].
Qed.

(** An object made on the way may be changed later on. *)
Lemma changes_after_new_frame {B} (own : gset loc) (df : DataFrame) (k : loc → M B) :
  (∀ l', changes_only (own ∪ {[l']}) (k l')) →
  changes_only own (bind (new_frame df) k).
Proof.
  intros Hk w r w' E l Hl Hex.
  apply bind_inv in E as [(e & E & ->)|(l' & w1 & E & E')].
  - eapply changes_new_frame; eassumption.
  - pose proof (changes_new_frame own df _ _ _ E l Hl Hex) as H1.
    rewrite <- H1. eapply Hk; [eassumption | | now rewrite H1].
    unfold new_frame in E. injection E as <- <-.
    destruct Hex as [t Ht].
    apply not_elem_of_union. split; [assumption|].
    apply not_elem_of_singleton. intros ->.
    rewrite fresh_frame in Ht. discriminate.
Qed.

Lemma changes_after_frame_copy {B} (own : gset loc) (l0 : loc) (k : loc → M B) :
  (∀ l', changes_only (own ∪ {[l']}) (k l')) →
  changes_only own (bind (frame_copy l0) k).
Proof.
  intros Hk w r w' E. unfold frame_copy in E.
  assert (bind (read_frame l0) (λ df, bind (new_frame df) k) w = (r, w')) as E'.
  { rewrite <- E. unfold bind. now destruct (read_frame l0 w) as [[df|e] w1]. }
  revert E'. apply changes_bind; [apply changes_read_frame|].
  intros df. now apply changes_after_new_frame.
Qed.

Lemma changes_update_frame (own : gset loc) (l : loc)
    (f : DataFrame → result DataFrame) :
  l ∈ own → changes_only own (update_frame l f).
Proof.
  intros Hown w r w' E l' Hl' _. unfold update_frame, bind, read_frame, lift in E.
  step_by_step E. apply lookup_insert_ne. intros <-. contradiction.
Qed.

Lemma changes_write_df_to_csv (own : gset loc) (df : loc)
    (output_path output_file : string) :
  changes_only own (write_df_to_csv df output_path output_file).
Proof.
  apply changes_nothing. intros w r w' E.
  unfold write_df_to_csv, bind, read_frame in E. step_by_step E.
Qed.

Lemma changes_pd_read_csv (own : gset loc) (filename : string) :
  changes_only own (pd_read_csv filename).
Proof.
  intros w r w' E. unfold pd_read_csv in E.
  destruct (csv_files w !! filename).
  - eapply changes_new_frame, E.
  - injection E as <- <-. reflexivity.
Qed.

Lemma changes_for_each {A} (own : gset loc) (xs : list A) (body : A → M unit) :
  (∀ x, changes_only own (body x)) → changes_only own (for_each xs body).
Proof.
  intros Hb. induction xs as [|x xs IH]; simpl.
  - apply changes_ret.
  - apply changes_bind; [apply Hb | intros _; exact IH].
Qed.

Lemma changes_rank_predictions (own : gset loc) (data : loc)
    (target_column : string) (gib : bool) :
  data ∈ own → changes_only own (_rank_predictions data target_column gib).
Proof.
  intros Hown. unfold _rank_predictions.
  apply changes_bind; [now apply changes_update_frame | intros _; apply changes_ret].
Qed.

Lemma changes_read_predictions (own : gset loc) (files : list string) :
  ∀ dfs, changes_only own (read_predictions files dfs).
Proof.
  induction files as [|f files IH]; intros dfs; simpl; [apply changes_ret|].
  destruct (ignored f); [apply IH|].
  apply changes_bind; [apply changes_pd_read_csv | intros df; apply IH].
Qed.

#[local] Hint Resolve changes_ret changes_raise changes_lift changes_read_frame
  changes_glob_predictions changes_load_estimator changes_read_rankings
  changes_is_zipfile changes_unpack_archive changes_rmtree changes_new_frame
  changes_write_df_to_csv changes_pd_read_csv changes_read_predictions : objects.

#[local] Hint Extern 1 (changes_only _ (update_frame _ _)) =>
  apply changes_update_frame; set_solver : objects.

#[local] Hint Extern 1 (changes_only _ (_rank_predictions _ _ _)) =>
  apply changes_rank_predictions; set_solver : objects.

(** Goes through a computation made of the steps above. *)
Ltac changes_all :=
  repeat first
    [ solve [auto with objects]
    | apply changes_for_each; intros ?
    | match goal with
      | |- changes_only _ (if ?b then _ else _) => destruct b
      | |- changes_only _ (match ?x with _ => _ end) => destruct x
      end
    | apply changes_after_frame_copy; intros ?
    | apply changes_after_new_frame; intros ?
    | apply changes_bind; [|intros ?] ].

Section RunnerObjects.
Context `{Collaborators}.

Lemma changes_resolver (own : gset loc) (estimator_path target_variable : string) :
  changes_only own (_get_highest_ranked_estimator estimator_path target_variable).
Proof. unfold _get_highest_ranked_estimator. changes_all. Qed.

Lemma changes_predict_entry (own : gset loc) (input_data : loc)
    (estimator_folder output_path : string) (entry : yaml) :
  changes_only own (predict_entry input_data estimator_folder output_path entry).
Proof.
  pose proof changes_resolver. unfold predict_entry. changes_all.
Qed.

Lemma changes_reduce_merge (dfs : list loc) :
  ∀ (own : gset loc) x, changes_only own (reduce_merge x dfs).
Proof.
  induction dfs as [|y dfs IH]; intros own x; simpl; [apply changes_ret|].
  changes_all.
Qed.

Lemma changes_merge_predictions (own : gset loc) (output_path : string) :
  changes_only own (merge_predictions output_path).
Proof.
  pose proof changes_reduce_merge. unfold merge_predictions. changes_all.
Qed.

Lemma changes_reconcile (own : gset loc) (original_data : option loc)
    (input_data all_predictions_df : loc) (output_path : string) :
  changes_only own
    (reconcile original_data input_data all_predictions_df output_path).
Proof. unfold reconcile. changes_all. Qed.

Lemma changes_run_predictions (own : gset loc) (original_data : option loc)
    (input_data : loc) (estimators_config : Config)
    (estimator_path output_path : string) :
  changes_only own
    (_run_predictions original_data input_data estimators_config estimator_path
       output_path).
Proof.
  pose proof changes_predict_entry. pose proof changes_merge_predictions.
  pose proof changes_reconcile.
  unfold _run_predictions, run_in_folder. changes_all.
Qed.

End RunnerObjects.

(** ** More on tables *)

Lemma mapM_lookup_after_insert (i j : nat) (rows : list (list value)) :
  ∀ vals : list value,
    length vals = length rows →
    Forall (λ r, (i < length r)%nat) rows →
    mapM (λ r : list value, r !! j)
         (zip_with (λ r v, <[i := v]> r) rows vals)
    = if Nat.eqb i j then Some vals else mapM (λ r : list value, r !! j) rows.
Proof.
  induction rows as [|r rows IH]; intros [|v vals] Hlen Hwf; try discriminate.
  - now destruct (Nat.eqb i j).
  - apply Forall_cons in Hwf as [Hr Hwf]. simpl.
    rewrite (IH vals) by (simpl in Hlen; first [lia | assumption]).
    destruct (Nat.eqb i j) eqn:E.
    + apply Nat.eqb_eq in E. subst j.
      rewrite list_lookup_insert_eq by exact Hr. reflexivity.
    + apply Nat.eqb_neq in E. rewrite list_lookup_insert_ne by exact E.
      reflexivity.
Qed.

Lemma mapM_lookup_after_append (n j : nat) (rows : list (list value)) :
  ∀ vals : list value,
    length vals = length rows →
    Forall (λ r, length r = n) rows →
    mapM (λ r : list value, r !! j)
         (zip_with (λ r v, r ++ [v]) rows vals)
    = if Nat.eqb n j then Some vals
      else if Nat.ltb j n then mapM (λ r : list value, r !! j) rows
      else if Nat.eqb (length rows) 0 then Some [] else None.
Proof.
  induction rows as [|r rows IH]; intros [|v vals] Hlen Hwf; try discriminate.
  - simpl. destruct (Nat.eqb n j); [reflexivity|]. now destruct (Nat.ltb j n).
  - apply Forall_cons in Hwf as [Hr Hwf]. simpl.
    rewrite (IH vals) by (simpl in Hlen; first [lia | assumption]).
    destruct (Nat.eqb n j) eqn:E.
    + apply Nat.eqb_eq in E. subst j.
      rewrite lookup_app_r by lia. rewrite Hr, Nat.sub_diag. reflexivity.
    + apply Nat.eqb_neq in E. destruct (Nat.ltb j n) eqn:E'.
      * apply Nat.ltb_lt in E'. rewrite lookup_app_l by lia. reflexivity.
      * apply Nat.ltb_ge in E'.
        rewrite lookup_ge_None_2 by (rewrite length_app; simpl; lia).
        reflexivity.
Qed.

Lemma Forall_zip_with_rows {A B C} (P : A → Prop) (Q : C → Prop)
    (f : A → B → C) (l : list A) :
  (∀ a b, P a → Q (f a b)) →
  ∀ k : list B, Forall P l → Forall Q (zip_with f l k).
Proof.
  intros Hf. induction l as [|a l IH]; intros [|b k] Hl; simpl;
    try constructor.
  - apply Hf. now apply Forall_cons in Hl as [? _].
  - apply IH. now apply Forall_cons in Hl as [_ ?].
Qed.

(** [df[name] = vals] on a table with one cell per column: the column
    [name] holds [vals] afterwards and the other columns are as before. *)
Lemma setitem_getitem (name : string) (vals : list value) (df df' : DataFrame) :
  well_formed df →
  df_setitem name vals df = Ok df' →
  well_formed df' ∧
  length (rows df') = length (rows df) ∧
  df_getitem df' name = Ok vals ∧
  ∀ name', name' ≠ name → df_getitem df' name' = df_getitem df name'.
Proof.
  unfold well_formed, df_setitem. intros Hwf.
  destruct (negb (Nat.eqb (length vals) (length (rows df)))) eqn:El;
    [discriminate|].
  apply negb_false_iff, Nat.eqb_eq in El.
  destruct (column_index name (columns df)) as [i|] eqn:Ei; intros [= <-];
    simpl.
  - pose proof (column_index_lt _ _ _ Ei) as Hi.
    assert (Forall (λ r : list value, (i < length r)%nat) (rows df)) as Hwf'.
    { eapply Forall_impl; [exact Hwf|]. simpl. intros r ->. exact Hi. }
    split; [|split; [|split]].
    + apply Forall_zip_with_rows with (P := λ r, length r = length (columns df));
        [|exact Hwf].
      intros r v Hr. now rewrite length_insert.
    + rewrite length_zip_with. lia.
    + unfold df_getitem. simpl. rewrite Ei.
      rewrite (mapM_lookup_after_insert i i _ _ El Hwf'), Nat.eqb_refl.
      reflexivity.
    + intros name' Hne. unfold df_getitem. simpl.
      destruct (column_index name' (columns df)) as [j|] eqn:Ej; [|reflexivity].
      rewrite (mapM_lookup_after_insert i j _ _ El Hwf').
      destruct (Nat.eqb i j) eqn:E; [|reflexivity].
      apply Nat.eqb_eq in E. subst j. exfalso. apply Hne.
      eapply column_index_inj; eassumption.
  - split; [|split; [|split]].
    + apply Forall_zip_with_rows with (P := λ r, length r = length (columns df));
        [|exact Hwf].
      intros r v Hr. rewrite !length_app, Hr. reflexivity.
    + rewrite length_zip_with. lia.
    + unfold df_getitem. simpl. rewrite (column_index_app_new _ _ Ei).
      rewrite (mapM_lookup_after_append (length (columns df))
                 (length (columns df)) _ _ El Hwf), Nat.eqb_refl.
      reflexivity.
    + intros name' Hne. unfold df_getitem. simpl.
      destruct (column_index name' (columns df)) as [j|] eqn:Ej.
      * rewrite (column_index_app_l _ _ _ _ Ej).
        pose proof (column_index_lt _ _ _ Ej) as Hj.
        rewrite (mapM_lookup_after_append (length (columns df)) j _ _ El Hwf).
        destruct (Nat.eqb (length (columns df)) j) eqn:E;
          [apply Nat.eqb_eq in E; lia|].
        now rewrite (proj2 (Nat.ltb_lt _ _) Hj).
      * assert (column_index name' (columns df ++ [name]) = None) as ->;
          [|reflexivity].
        apply column_index_None. apply column_index_None in Ej.
        rewrite in_app_iff. simpl. intuition.
Qed.

Lemma setitem_rows (name : string) (vals : list value) (df df' : DataFrame) :
  df_setitem name vals df = Ok df' →
  length vals = length (rows df) ∧
  ∀ k r, rows df !! k = Some r →
    ∃ v, vals !! k = Some v ∧
         rows df' !! k
         = Some (match column_index name (columns df) with
                 | Some i => <[i := v]> r
                 | None => r ++ [v]
                 end).
Proof.
  unfold df_setitem.
  destruct (negb (Nat.eqb (length vals) (length (rows df)))) eqn:El; [discriminate|].
  apply negb_false_iff, Nat.eqb_eq in El. intros Hset.
  split; [exact El|]. intros k r Hr.
  destruct (lookup_lt_is_Some_2 vals k) as [v Hv].
  { rewrite El. eapply lookup_lt_Some, Hr. }
  exists v. split; [exact Hv|].
  destruct (column_index name (columns df)); injection Hset as <-; simpl;
    now rewrite lookup_zip_with, Hr, Hv.
Qed.

Lemma insert_last_rows (name : string) (vals : list value) (df df' : DataFrame) :
  df_insert_last name vals df = Ok df' →
  length vals = length (rows df) ∧
  ∀ k r, rows df !! k = Some r →
    ∃ v, vals !! k = Some v ∧ rows df' !! k = Some (r ++ [v]).
Proof.
  unfold df_insert_last.
  destruct (column_index name (columns df)); [discriminate|].
  destruct (negb (Nat.eqb (length vals) (length (rows df)))) eqn:El; [discriminate|].
  apply negb_false_iff, Nat.eqb_eq in El. intros [= <-].
  split; [exact El|]. intros k r Hr.
  destruct (lookup_lt_is_Some_2 vals k) as [v Hv].
  { rewrite El. eapply lookup_lt_Some, Hr. }
  exists v. split; [exact Hv|]. simpl. now rewrite lookup_zip_with, Hr, Hv.
Qed.

(** ** One iteration of the runner *)

Lemma bind_Ok_inv {A B} (m : M A) (k : A → M B) (w w' : world) (b : B) :
  bind m k w = (Ok b, w') → ∃ a w1, m w = (Ok a, w1) ∧ k a w1 = (Ok b, w').
Proof.
  intros E. apply bind_inv in E as [(e & _ & [=])|(a & w1 & E & E')].
  now exists a, w1.
Qed.

Lemma lift_inv {A} (x r : result A) (w w' : world) :
  lift x w = (r, w') → r = x ∧ w' = w.
Proof. unfold lift. now intros [= <- <-]. Qed.

Lemma read_frame_inv (l : loc) (df : DataFrame) (w w' : world) :
  read_frame l w = (Ok df, w') → frames w !! l = Some df ∧ w' = w.
Proof.
  unfold read_frame. destruct (frames w !! l); [|discriminate].
  now intros [= <- <-].
Qed.

Lemma load_estimator_inv (input_path pickle_file : string) (r : result estimator)
    (w w' : world) :
  load_estimator input_path pickle_file w = (r, w') → w' = w.
Proof.
  unfold load_estimator. intros E. repeat case_match; now simplify_eq.
Qed.

Lemma frame_copy_run (l : loc) (df : DataFrame) (w : world) :
  frames w !! l = Some df →
  frame_copy l w =
  (Ok (fresh (dom (frames w))),
   set_frames (<[fresh (dom (frames w)) := df]> (frames w)) w).
Proof.
  intros E. unfold frame_copy.
  now rewrite (bind_Ok _ _ _ _ _ (read_frame_run _ _ _ E)).
Qed.

Lemma setitem_columns_In (name c : string) (vals : list value) (df df' : DataFrame) :
  df_setitem name vals df = Ok df' →
  (In c (columns df') ↔ In c (columns df) ∨ c = name) ∧
  length (rows df') = length (rows df).
Proof.
  unfold df_setitem.
  destruct (negb (Nat.eqb (length vals) (length (rows df)))) eqn:El; [discriminate|].
  apply negb_false_iff, Nat.eqb_eq in El.
  destruct (column_index name (columns df)) as [i|] eqn:E; intros [= <-]; simpl.
  - split; [|rewrite length_zip_with; lia]. split; [now left|].
    intros [Hc| ->]; [assumption|].
    apply column_index_Some in E. apply list_elem_of_In.
    eapply list_elem_of_lookup_2; eassumption.
  - split; [|rewrite length_zip_with; lia].
    rewrite in_app_iff. simpl. intuition.
Qed.

Lemma insert_last_columns (name : string) (vals : list value) (df df' : DataFrame) :
  df_insert_last name vals df = Ok df' →
  columns df' = columns df ++ [name] ∧
  ¬ In name (columns df) ∧
  length (rows df') = length (rows df).
Proof.
  unfold df_insert_last.
  destruct (column_index name (columns df)) eqn:E; [discriminate|].
  destruct (negb (Nat.eqb (length vals) (length (rows df)))) eqn:El; [discriminate|].
  apply negb_false_iff, Nat.eqb_eq in El.
  intros [= <-]. simpl. split; [reflexivity|].
  split; [now apply column_index_None | rewrite length_zip_with; lia].
Qed.

Section IterationClaims.
Context `{Collaborators}.

Lemma resolver_inv (estimator_path target_variable : string) (r : result string)
    (w w' : world) :
  _get_highest_ranked_estimator estimator_path target_variable w = (r, w') → w' = w.
Proof.
  unfold _get_highest_ranked_estimator, bind, read_rankings, lift, raise, ret.
  intros E. repeat case_match; now simplify_eq.
Qed.

(** One iteration that goes through: the estimator is the one that the
    entry names, or the one that the resolver finds for the target; the
    prediction is made from the table that [input_data] holds; it is added
    to a copy, which is ranked and written to the file of the target; the
    object [input_data] holds the same table afterwards. *)
Lemma predict_entry_trace (input_data : loc) (estimator_folder output_path : string)
    (entry : yaml) (w w' : world) (input_table : DataFrame) :
  frames w !! input_data = Some input_table →
  predict_entry input_data estimator_folder output_path entry w = (Ok tt, w') →
  ∃ target_variable greater_is_better estimator_file estimator y_pred
    with_target cells xs table,
    py_getitem entry PRED_CONFIG_TARGET_VAR = Ok (YStr target_variable) ∧
    py_getitem entry PRED_CONFIG_GREATER_BETTER = Ok greater_is_better ∧
    (py_contains PRED_CONFIG_ESTIMATOR_FILE entry = Ok true ∧
     py_getitem entry PRED_CONFIG_ESTIMATOR_FILE = Ok (YStr estimator_file)
     ∨
     py_contains PRED_CONFIG_ESTIMATOR_FILE entry = Ok false ∧
     _get_highest_ranked_estimator estimator_folder target_variable w
     = (Ok estimator_file, w)) ∧
    load_estimator estimator_folder estimator_file w = (Ok estimator, w) ∧
    predict estimator input_table = Ok y_pred ∧
    df_setitem target_variable y_pred input_table = Ok with_target ∧
    df_getitem with_target target_variable = Ok cells ∧
    result_map as_num cells = Ok xs ∧
    df_insert_last ("rank_" +:+ target_variable)
      (map VFloat (series_rank (negb (py_truthy greater_is_better)) xs))
      with_target = Ok table ∧
    csv_files w' !! per_target_file output_path target_variable = Some table ∧
    frames w' !! input_data = Some input_table.
Proof.
  intros Hin E. unfold predict_entry in E.
  apply bind_Ok_inv in E as (target & w1 & E1 & E).
  apply lift_inv in E1 as [E1 ->].
  destruct (py_getitem entry PRED_CONFIG_TARGET_VAR) as [tv|] eqn:Etv;
    [|discriminate].
  simpl in E1. destruct tv; try discriminate. injection E1 as <-.
  apply bind_Ok_inv in E as (gib & w1 & E2 & E).
  apply lift_inv in E2 as [E2 ->]. symmetry in E2.
  apply bind_Ok_inv in E as (given & w1 & E3 & E).
  apply lift_inv in E3 as [E3 ->]. symmetry in E3.
  apply bind_Ok_inv in E as (estimator_file & w1 & E4 & E).
  assert (w1 = w) as ->.
  { destruct given; [now apply lift_inv in E4 | now apply resolver_inv in E4]. }
  assert (py_contains PRED_CONFIG_ESTIMATOR_FILE entry = Ok true ∧
          py_getitem entry PRED_CONFIG_ESTIMATOR_FILE = Ok (YStr estimator_file)
          ∨
          py_contains PRED_CONFIG_ESTIMATOR_FILE entry = Ok false ∧
          _get_highest_ranked_estimator estimator_folder target w
          = (Ok estimator_file, w)) as Hfile.
  { destruct given; [left | right; now split].
    split; [exact E3|]. apply lift_inv in E4 as [E4 _].
    destruct (py_getitem entry PRED_CONFIG_ESTIMATOR_FILE) as [ef|];
      [|discriminate].
    destruct ef; try discriminate. simpl in E4. now injection E4 as <-. }
  clear E4.
  apply bind_Ok_inv in E as (estimator & w1 & E5 & E).
  pose proof (load_estimator_inv _ _ _ _ _ E5) as ->.
  apply bind_Ok_inv in E as (table0 & w1 & E6 & E).
  apply read_frame_inv in E6 as [E6 ->].
  rewrite Hin in E6. injection E6 as <-.
  apply bind_Ok_inv in E as (y_pred & w1 & E7 & E).
  apply lift_inv in E7 as [E7 ->]. symmetry in E7.
  apply bind_Ok_inv in E as (l & w1 & E8 & E).
  rewrite (frame_copy_run _ _ _ Hin) in E8. injection E8 as <- <-.
  set (l := fresh (dom (frames w))) in *.
  assert (l ≠ input_data) as Hfresh.
  { intros Heq. unfold l in Heq. rewrite <- Heq, fresh_frame in Hin. discriminate. }
  apply bind_Ok_inv in E as ([] & w2 & E9 & E).
  rewrite (update_frame_run _ _ input_table) in E9
    by (simpl; apply lookup_insert_eq).
  destruct (df_setitem target y_pred input_table) as [with_target|] eqn:Eset;
    [|discriminate].
  injection E9 as <-.
  apply bind_Ok_inv in E as (l2 & w3 & E10 & E).
  unfold _rank_predictions in E10.
  apply bind_Ok_inv in E10 as ([] & w4 & E10 & E10').
  unfold ret in E10'. injection E10' as <- <-.
  rewrite (update_frame_run _ _ with_target) in E10
    by (simpl; apply lookup_insert_eq).
  destruct (df_getitem with_target target) as [cells|] eqn:Ecells; [|discriminate].
  simpl in E10.
  destruct (result_map as_num cells) as [xs|] eqn:Exs; [|discriminate].
  simpl in E10.
  destruct (df_insert_last _ _ with_target) as [table|] eqn:Eins; [|discriminate].
  injection E10 as <-.
  apply bind_Ok_inv in E as (path & w5 & E11 & E).
  unfold write_df_to_csv in E11.
  erewrite bind_Ok in E11;
    [|apply read_frame_run; simpl; apply lookup_insert_eq].
  injection E11 as <- <-.
  unfold ret in E. injection E as <-.
  exists target, gib, estimator_file, estimator, y_pred, with_target, cells, xs, table.
  repeat (split; [first [assumption | reflexivity]|]).
  split; [simpl; apply lookup_insert_eq|].
  simpl. rewrite !lookup_insert_ne by assumption. exact Hin.
Qed.

Lemma predict_entry_run (input_data : loc) (estimator_folder output_path : string)
    (entry : yaml) (w w' : world) (input_table : DataFrame) :
  frames w !! input_data = Some input_table →
  predict_entry input_data estimator_folder output_path entry w = (Ok tt, w') →
  ∃ target_variable greater_is_better estimator_file estimator y_pred
    with_target cells xs table,
    py_getitem entry PRED_CONFIG_TARGET_VAR = Ok (YStr target_variable) ∧
    py_getitem entry PRED_CONFIG_GREATER_BETTER = Ok greater_is_better ∧
    load_estimator estimator_folder estimator_file w = (Ok estimator, w) ∧
    predict estimator input_table = Ok y_pred ∧
    df_setitem target_variable y_pred input_table = Ok with_target ∧
    df_getitem with_target target_variable = Ok cells ∧
    result_map as_num cells = Ok xs ∧
    df_insert_last ("rank_" +:+ target_variable)
      (map VFloat (series_rank (negb (py_truthy greater_is_better)) xs))
      with_target = Ok table ∧
    csv_files w' !! per_target_file output_path target_variable = Some table ∧
    frames w' !! input_data = Some input_table.
Proof.
  intros Hin E.
  destruct (predict_entry_trace _ _ _ _ _ _ _ Hin E)
    as (t & gib & ef & est & yp & wt & cells & xs & tbl
        & H1 & H2 & _ & H3 & H4 & H5 & H6 & H7 & H8 & H9 & H10).
  exists t, gib, ef, est, yp, wt, cells, xs, tbl. repeat split; assumption.
Qed.

End IterationClaims.

Section CopyClaims.
Context `{Collaborators}.

(** The iterations of a loop that completes all start from a world in which
    the object [input_data] holds the table it held before the loop. *)
Lemma loop_iterations_start_alike (input_data : loc)
    (estimator_folder output_path : string) (input_table : DataFrame)
    (entries : list yaml) :
  ∀ w w',
    frames w !! input_data = Some input_table →
    for_each entries (predict_entry input_data estimator_folder output_path) w
    = (Ok tt, w') →
    Forall (λ entry, ∃ w0 w0',
              frames w0 !! input_data = Some input_table ∧
              predict_entry input_data estimator_folder output_path entry w0
              = (Ok tt, w0')) entries.
Proof.
  induction entries as [|entry entries IH]; intros w w' Hin E; [constructor|].
  simpl in E. apply bind_Ok_inv in E as ([] & w1 & E1 & E).
  constructor; [now exists w, w1|].
  apply (IH w1 w'); [|exact E].
  rewrite <- Hin.
  apply (changes_predict_entry ∅ _ _ _ _ _ _ _ E1); [set_solver | eauto].
Qed.

(** C10.  The runner never changes the input-space table it is given:
    whatever the outcome of the run, and of the loop over the targets, the
    object [input_data] holds the same table afterwards, so that every
    iteration of a loop starts with that table.  An iteration that
    completes loads the estimator that the entry names, or the one that the
    resolver finds for the target, and predicts from that table.  The
    table it writes for the target has the rows of the input space, each
    with the prediction of the row under the target and with its rank
    under [rank_<target>]: its columns are the columns of the input space,
    the target and [rank_<target>], in that order when the target is not
    the name of an input column (the column of that name holds the
    predictions otherwise).  The ranks are those of the predictions when
    the input space has one cell per column in every row. *)
Theorem input_space_is_never_mutated (od : option loc) (input_data : loc)
    (cfg : Config) (estimator_path output_path : string) (w : world)
    (input_table : DataFrame) :
  frames w !! input_data = Some input_table →
  (∀ r w',
     _run_predictions od input_data cfg estimator_path output_path w = (r, w') →
     frames w' !! input_data = Some input_table) ∧
  (∀ estimator_folder entries r w',
     for_each entries (predict_entry input_data estimator_folder output_path) w
     = (r, w') →
     frames w' !! input_data = Some input_table) ∧
  (∀ estimator_folder entries w',
     for_each entries (predict_entry input_data estimator_folder output_path) w
     = (Ok tt, w') →
     Forall (λ entry, ∃ w0 w0',
               frames w0 !! input_data = Some input_table ∧
               predict_entry input_data estimator_folder output_path entry w0
               = (Ok tt, w0')) entries) ∧
  (∀ estimator_folder entry w0 w0',
     frames w0 !! input_data = Some input_table →
     predict_entry input_data estimator_folder output_path entry w0 = (Ok tt, w0') →
     ∃ target_variable greater_is_better estimator_file estimator y_pred ranks
       table,
       py_getitem entry PRED_CONFIG_TARGET_VAR = Ok (YStr target_variable) ∧
       py_getitem entry PRED_CONFIG_GREATER_BETTER = Ok greater_is_better ∧
       (py_contains PRED_CONFIG_ESTIMATOR_FILE entry = Ok true ∧
        py_getitem entry PRED_CONFIG_ESTIMATOR_FILE = Ok (YStr estimator_file)
        ∨
        py_contains PRED_CONFIG_ESTIMATOR_FILE entry = Ok false ∧
        _get_highest_ranked_estimator estimator_folder target_variable w0
        = (Ok estimator_file, w0)) ∧
       load_estimator estimator_folder estimator_file w0 = (Ok estimator, w0) ∧
       predict estimator input_table = Ok y_pred ∧
       csv_files w0' !! per_target_file output_path target_variable = Some table ∧
       frames w0' !! input_data = Some input_table ∧
       (∀ c, In c (columns table) ↔
             In c (columns input_table) ∨ c = target_variable
             ∨ c = "rank_" +:+ target_variable) ∧
       (¬ In target_variable (columns input_table) →
        columns table
        = columns input_table ++ [target_variable; "rank_" +:+ target_variable]) ∧
       length (rows table) = length (rows input_table) ∧
       (∀ k r, rows input_table !! k = Some r →
          ∃ v rank,
            y_pred !! k = Some v ∧ ranks !! k = Some rank ∧
            rows table !! k
            = Some (match column_index target_variable (columns input_table) with
                    | None => r ++ [v; VFloat rank]
                    | Some i => <[i := v]> r ++ [VFloat rank]
                    end)) ∧
       (well_formed input_table →
        ∃ xs, result_map as_num y_pred = Ok xs ∧
              ranks = series_rank (negb (py_truthy greater_is_better)) xs)).
Proof.
  intros Hin. split; [|split; [|split]].
  - intros r w' E. rewrite <- Hin.
    apply (changes_run_predictions ∅ _ _ _ _ _ _ _ _ E); [set_solver | eauto].
  - intros folder entries r w' E. rewrite <- Hin.
    refine (changes_for_each ∅ entries _ _ _ _ _ E _ _ _); [|set_solver | eauto].
    intros entry. apply changes_predict_entry.
  - intros folder entries w' E.
    exact (loop_iterations_start_alike _ _ _ _ _ _ _ Hin E).
  - intros folder entry w0 w0' Hin0 E.
    destruct (predict_entry_trace _ _ _ _ _ _ _ Hin0 E)
      as (target & gib & file & estimator & y_pred & with_target & cells & xs
          & table & Htv & Hgib & Hfile & Hload & Hpred & Hset & Hcells & Hxs
          & Hins & Hcsv & Hkeep).
    exists target, gib, file, estimator, y_pred,
      (series_rank (negb (py_truthy gib)) xs), table.
    destruct (setitem_columns_In target target _ _ _ Hset) as [_ Hlen1].
    destruct (insert_last_columns _ _ _ _ Hins) as (Hcols & _ & Hlen2).
    destruct (setitem_rows _ _ _ _ Hset) as [_ Hrows1].
    destruct (insert_last_rows _ _ _ _ Hins) as [_ Hrows2].
    repeat (split; [assumption|]).
    split; [|split; [|split; [congruence|split]]].
    + intros c. rewrite Hcols, in_app_iff.
      destruct (setitem_columns_In target c _ _ _ Hset) as [Hc _].
      rewrite Hc. simpl. intuition.
    + intros Hnew. rewrite Hcols.
      unfold df_setitem in Hset.
      destruct (negb _); [discriminate|].
      apply column_index_None in Hnew. rewrite Hnew in Hset.
      injection Hset as <-. simpl. now rewrite <- app_assoc.
    + intros k r Hr.
      destruct (Hrows1 k r Hr) as (v & Hv & Hr1).
      destruct (Hrows2 k _ Hr1) as (c & Hc & Hr2).
      rewrite map_lookup in Hc.
      destruct (series_rank (negb (py_truthy gib)) xs !! k) as [rank|] eqn:Hrank;
        [|discriminate].
      injection Hc as <-.
      exists v, rank. split; [exact Hv|]. split; [reflexivity|].
      rewrite Hr2.
      destruct (column_index target (columns input_table)); [reflexivity|].
      now rewrite <- app_assoc.
    + intros Hwf.
      destruct (setitem_getitem _ _ _ _ Hwf Hset) as (_ & _ & Hget & _).
      rewrite Hget in Hcells. injection Hcells as <-.
      now exists xs.
Qed.

End CopyClaims.

(** C10 at a concrete input.  After a run that completes, the object 0
    still holds the input space of the example.  The iteration for the
    target [speed] predicts 9 and 8 from its two rows with the estimator
    [speed.pkl]; the first row of the file of the target is the first row
    of the input space with its prediction and a rank. *)
Lemma input_space_is_never_mutated_witness :
  fst (_run_predictions None 0 cfg_one_target "models" "out" world_with_models)
  = Ok tt ∧
  frames (snd (_run_predictions None 0 cfg_one_target "models" "out"
                 world_with_models)) !! 0
  = Some input_space_example ∧
  ∃ table rank,
    csv_files (snd (predict_entry 0 "models" "out"
                      (estimator_entry "speed" "speed.pkl") world_with_models))
      !! per_target_file "out" "speed" = Some table ∧
    rows table !! 0 = Some [VInt 1; VInt 1; VFloat (9 # 1); VFloat rank].
Proof.
  pose proof (input_space_is_never_mutated None 0 cfg_one_target "models" "out"
                world_with_models input_space_example eq_refl)
    as (Hrun & _ & _ & Hentry).
  split; [vm_compute; reflexivity|]. split.
  - apply (Hrun (fst (_run_predictions None 0 cfg_one_target "models" "out"
                        world_with_models))).
    apply surjective_pairing.
  - destruct (Hentry "models" (estimator_entry "speed" "speed.pkl")
                world_with_models
                (snd (predict_entry 0 "models" "out"
                        (estimator_entry "speed" "speed.pkl") world_with_models))
                eq_refl)
      as (target & gib & file & estimator & y_pred & ranks & table
          & Htv & _ & Hfile & Hload & Hpred & Hcsv & _ & _ & _ & _ & Hrows & _).
    { vm_compute. reflexivity. }
    injection Htv as <-.
    destruct Hfile as [[_ Hfile]|[Hfile _]]; [|discriminate].
    injection Hfile as <-.
    vm_compute in Hload. injection Hload as <-.
    injection Hpred as <-.
    destruct (Hrows 0 [VInt 1; VInt 1] eq_refl) as (v & rank & Hv & _ & Hrow).
    injection Hv as <-.
    exists table, rank. split; [exact Hcsv | exact Hrow].
Defined.

(* ================================================================== *)
(** * Part III: further properties of the code *)

(** ** More on the ranking of predictions *)

(** Every value is before [x], after [x] or equal to [x]. *)
Lemma count_trichotomy (xs : list Q) (x : Q) :
  count_before true xs x + count_before false xs x + count_ties xs x
  = length xs.
Proof.
  unfold count_before, count_ties, Qlt_bool.
  induction xs as [|a xs IH]; simpl; [reflexivity|].
  assert (Qeq_bool a x = true → Qle_bool x a = true ∧ Qle_bool a x = true) as H1.
  { intros E. apply Qeq_bool_iff in E.
    split; apply Qle_bool_iff; rewrite E; apply Qle_refl. }
  assert (Qle_bool x a = true → Qle_bool a x = true → Qeq_bool a x = true) as H2.
  { intros E1 E2. apply Qle_bool_iff in E1, E2.
    apply Qeq_bool_iff. now apply Qle_antisym. }
  assert (Qle_bool x a = false → Qle_bool a x = true) as H3.
  { intros E. apply Qle_bool_iff.
    destruct (Qlt_le_dec a x) as [Hlt|Hle]; [now apply Qlt_le_weak|].
    apply Qle_bool_iff in Hle. congruence. }
  destruct (Qle_bool x a) eqn:E1, (Qle_bool a x) eqn:E2, (Qeq_bool a x) eqn:E3;
    simpl;
    try (destruct (H1 eq_refl); discriminate);
    try (specialize (H2 eq_refl eq_refl); discriminate);
    try (specialize (H3 eq_refl); discriminate);
    lia.
Qed.

(** The values before or equal to [x] are all before a larger [y]. *)
Lemma count_before_step (xs : list Q) (x y : Q) :
  Qlt x y →
  (count_before true xs x + count_ties xs x <= count_before true xs y)%nat ∧
  (count_before false xs y + count_ties xs y <= count_before false xs x)%nat.
Proof.
  intros Hxy. unfold count_before, count_ties, Qlt_bool.
  induction xs as [|a xs [IH1 IH2]]; simpl; [lia|].
  assert (Qle_bool x a = false → Qle_bool y a = false) as H1.
  { intros E. destruct (Qle_bool y a) eqn:E'; [|reflexivity].
    apply Qle_bool_iff in E'.
    assert (Qle x a) as Hle by (apply Qlt_le_weak; eapply Qlt_le_trans; eassumption).
    apply Qle_bool_iff in Hle. congruence. }
  assert (Qeq_bool a x = true → Qle_bool y a = false ∧ Qle_bool x a = true) as H2.
  { intros E. apply Qeq_bool_iff in E. split.
    - destruct (Qle_bool y a) eqn:E'; [|reflexivity].
      apply Qle_bool_iff in E'. rewrite E in E'.
      exfalso. eapply Qlt_not_le; eassumption.
    - apply Qle_bool_iff. rewrite E. apply Qle_refl. }
  assert (Qle_bool a y = false → Qle_bool a x = false) as H3.
  { intros E. destruct (Qle_bool a x) eqn:E'; [|reflexivity].
    apply Qle_bool_iff in E'.
    assert (Qle a y) as Hle by (apply Qlt_le_weak; eapply Qle_lt_trans; eassumption).
    apply Qle_bool_iff in Hle. congruence. }
  assert (Qeq_bool a y = true → Qle_bool a x = false ∧ Qle_bool a y = true) as H4.
  { intros E. apply Qeq_bool_iff in E. split.
    - destruct (Qle_bool a x) eqn:E'; [|reflexivity].
      apply Qle_bool_iff in E'. rewrite E in E'.
      exfalso. eapply Qlt_not_le; eassumption.
    - apply Qle_bool_iff. rewrite E. apply Qle_refl. }
  destruct (Qle_bool x a) eqn:E1, (Qle_bool y a) eqn:E2,
           (Qle_bool a x) eqn:E3, (Qle_bool a y) eqn:E4,
           (Qeq_bool a x) eqn:E5, (Qeq_bool a y) eqn:E6;
    simpl;
    try (specialize (H1 eq_refl); discriminate);
    try (specialize (H3 eq_refl); discriminate);
    try (destruct (H2 eq_refl); discriminate);
    try (destruct (H4 eq_refl); discriminate);
    lia.
Qed.

Lemma rank_of_Qlt (ascending : bool) (xs : list Q) (i j : nat) (x y : Q) :
  xs !! i = Some x → xs !! j = Some y →
  (twice_rank ascending xs x < twice_rank ascending xs y)%nat →
  Qlt (rank_of ascending xs x) (rank_of ascending xs y).
Proof.
  intros Hi Hj Hlt.
  apply (proj1 (Qmult_lt_l _ _ 2 eq_refl)).
  rewrite (rank_of_average _ _ _ _ Hi), (rank_of_average _ _ _ _ Hj).
  rewrite <- Zlt_Qlt. unfold twice_rank in Hlt. lia.
Qed.

Lemma rank_of_bounds (ascending : bool) (xs : list Q) (i : nat) (x : Q) :
  xs !! i = Some x →
  Qle 1 (rank_of ascending xs x) ∧
  Qle (rank_of ascending xs x) (inject_Z (Z.of_nat (length xs))).
Proof.
  intros Hi.
  pose proof (count_ties_positive _ _ _ Hi) as Hpos.
  pose proof (count_trichotomy xs x) as Htri.
  split; apply (proj1 (Qmult_le_l _ _ 2 eq_refl));
    rewrite (rank_of_average _ _ _ _ Hi).
  - change (2 * 1)%Q with (inject_Z 2). rewrite <- Zle_Qle. lia.
  - change 2%Q with (inject_Z 2) at 1. rewrite <- inject_Z_mult, <- Zle_Qle.
    destruct ascending; lia.
Qed.

(** X1.  Ranks follow the order of the target values.  On a table whose
    target column is numeric and which has no column [rank_<target>] yet,
    the ranks that [_rank_predictions] appends lie between 1 and the number
    of rows; of two rows the one with the smaller target value gets the
    strictly smaller rank when [greater_is_better] is false and the
    strictly larger one when it is true. *)
Theorem ranks_follow_the_order_of_the_values (data : loc) (target_column : string)
    (greater_is_better : bool) (w : world) (df : DataFrame)
    (cells : list value) (xs : list Q) :
  frames w !! data = Some df →
  df_getitem df target_column = Ok cells →
  result_map as_num cells = Ok xs →
  column_index ("rank_" +:+ target_column) (columns df) = None →
  ∃ ranks,
    _rank_predictions data target_column greater_is_better w =
    (Ok data,
     set_frames
       (<[data := {| columns := columns df ++ ["rank_" +:+ target_column];
                     rows := zip_with (λ r v, r ++ [v]) (rows df)
                                      (map VFloat ranks) |}]>
          (frames w)) w) ∧
    length ranks = length (rows df) ∧
    ∀ i x, xs !! i = Some x →
      ∃ ri, ranks !! i = Some ri ∧
        Qle 1 ri ∧ Qle ri (inject_Z (Z.of_nat (length (rows df)))) ∧
        ∀ j y, xs !! j = Some y → Qlt x y →
          ∃ rj, ranks !! j = Some rj ∧
            if greater_is_better then Qlt rj ri else Qlt ri rj.
Proof.
  intros Hdf Hcells Hxs Hnew.
  exists (series_rank (negb greater_is_better) xs).
  assert (length xs = length (rows df)) as Hlen.
  { rewrite (result_map_length _ _ _ Hxs).
    now apply df_getitem_length with (name := target_column). }
  split; [now apply rank_predictions_run with (cells := cells)|].
  split; [unfold series_rank; now rewrite length_map|].
  assert (∀ j y, xs !! j = Some y →
            series_rank (negb greater_is_better) xs !! j
            = Some (rank_of (negb greater_is_better) xs y)) as Hrank.
  { intros j y Hj. unfold series_rank. now rewrite map_lookup, Hj. }
  intros i x Hi. exists (rank_of (negb greater_is_better) xs x).
  split; [now apply Hrank|].
  rewrite <- Hlen.
  split; [eapply rank_of_bounds; eassumption|].
  split; [eapply rank_of_bounds; eassumption|].
  intros j y Hj Hxy. exists (rank_of (negb greater_is_better) xs y).
  split; [now apply Hrank|].
  pose proof (count_before_step xs x y Hxy) as [Hasc Hdesc].
  pose proof (count_ties_positive _ _ _ Hi).
  pose proof (count_ties_positive _ _ _ Hj).
  destruct greater_is_better; simpl;
    (eapply rank_of_Qlt; [eassumption..|unfold twice_rank; lia]).
Qed.

(** X1 on the predictions of the example, ranked with the smaller value
    the better. *)
Lemma ranks_follow_the_order_of_the_values_witness :
  ∃ ranks,
    _rank_predictions 0 "t" false (world_with_frame predictions_example) =
    (Ok 0,
     set_frames
       (<[0 := {| columns := columns predictions_example ++ ["rank_t"];
                  rows := zip_with (λ r v, r ++ [v]) (rows predictions_example)
                                   (map VFloat ranks) |}]>
          (frames (world_with_frame predictions_example)))
       (world_with_frame predictions_example)) ∧
    length ranks = length (rows predictions_example).
Proof.
  destruct (ranks_follow_the_order_of_the_values 0 "t" false
              (world_with_frame predictions_example) predictions_example
              _ _ eq_refl eq_refl eq_refl eq_refl) as (ranks & Hrun & Hlen & _).
  exists ranks. split; [exact Hrun | exact Hlen].
Defined.

(** X2.  Turning [greater_is_better] around mirrors the ranking: the rank
    that a value gets with the flag set and the rank that it gets with the
    flag unset add up to the number of values plus one, ties included. *)
Theorem opposite_directions_mirror_the_ranks (xs : list Q) (i : nat) (x : Q) :
  xs !! i = Some x →
  series_rank (negb true) xs !! i = Some (rank_of false xs x) ∧
  series_rank (negb false) xs !! i = Some (rank_of true xs x) ∧
  Qeq (rank_of false xs x + rank_of true xs x)
      (inject_Z (Z.of_nat (length xs) + 1)).
Proof.
  intros Hi. unfold series_rank. rewrite !map_lookup, Hi. simpl.
  split; [reflexivity|]. split; [reflexivity|].
  apply (Qmult_inj_l _ _ 2); [discriminate|].
  rewrite Qmult_plus_distr_r.
  rewrite (rank_of_average _ _ _ _ Hi), (rank_of_average _ _ _ _ Hi).
  pose proof (count_trichotomy xs x) as Htri.
  change 2%Q with (inject_Z 2) at 1.
  rewrite <- inject_Z_plus, <- inject_Z_mult.
  apply inject_Z_injective. lia.
Qed.

(** X2 on three values of which two are equal. *)
Lemma opposite_directions_mirror_the_ranks_witness :
  Qeq (rank_of false [3 # 1; 1 # 1; 3 # 1]%Q (3 # 1)
       + rank_of true [3 # 1; 1 # 1; 3 # 1]%Q (3 # 1)) (inject_Z (3 + 1)).
Proof.
  apply (proj2 (proj2 (opposite_directions_mirror_the_ranks
                         [3 # 1; 1 # 1; 3 # 1]%Q 0 (3 # 1) eq_refl))).
Defined.

Lemma getitem_after_append (df : DataFrame) (name new : string)
    (vals cells : list value) :
  df_getitem df name = Ok cells →
  length vals = length (rows df) →
  df_getitem {| columns := columns df ++ [new];
                rows := zip_with (λ r v, r ++ [v]) (rows df) vals |} name
  = Ok cells.
Proof.
  unfold df_getitem. simpl.
  destruct (column_index name (columns df)) as [i|] eqn:Ei; [|discriminate].
  rewrite (column_index_app_l _ _ _ _ Ei).
  destruct (mapM _ (rows df)) as [col|] eqn:Em; [|discriminate].
  intros [= <-] Hlen.
  enough (mapM (λ r : list value, r !! i)
               (zip_with (λ r v, r ++ [v]) (rows df) vals) = Some col) as ->
    by reflexivity.
  revert vals col Em Hlen.
  induction (rows df) as [|r rs IH]; intros [|v vals] col Em Hlen;
    try discriminate; [exact Em|].
  simpl in *.
  destruct (r !! i) as [c|] eqn:Er; [|discriminate]. simpl in Em.
  destruct (mapM _ rs) as [col'|] eqn:Em'; [|discriminate]. simpl in Em.
  rewrite (lookup_app_l_Some _ _ _ _ Er). simpl.
  rewrite (IH vals col' eq_refl) by lia. exact Em.
Qed.

(** X3.  Ranking is not repeatable on the same table.  After one ranking of
    a table for a target, a second ranking of that table for the same
    target, in either direction, raises [ValueError], because the column
    [rank_<target>] is there, and leaves the table as the first ranking
    made it. *)
Theorem second_ranking_of_a_table_is_refused (data : loc) (target_column : string)
    (first second : bool) (w : world) (df : DataFrame)
    (cells : list value) (xs : list Q) :
  frames w !! data = Some df →
  df_getitem df target_column = Ok cells →
  result_map as_num cells = Ok xs →
  column_index ("rank_" +:+ target_column) (columns df) = None →
  ∃ w1,
    _rank_predictions data target_column first w = (Ok data, w1) ∧
    _rank_predictions data target_column second w1 = (Raise ValueError, w1).
Proof.
  intros Hdf Hcells Hxs Hnew. eexists.
  split; [eapply rank_predictions_run; eassumption|].
  unfold _rank_predictions.
  erewrite bind_Raise; [reflexivity|].
  erewrite update_frame_run; [|simpl; apply lookup_insert_eq].
  rewrite (getitem_after_append _ _ _ _ _ Hcells).
  - simpl. rewrite Hxs. simpl. unfold df_insert_last. simpl.
    now rewrite (column_index_app_new _ _ Hnew).
  - unfold series_rank. rewrite !length_map, (result_map_length _ _ _ Hxs).
    now apply df_getitem_length with (name := target_column).
Qed.

(** X3 on the predictions of the example. *)
Lemma second_ranking_of_a_table_is_refused_witness :
  ∃ w1,
    _rank_predictions 0 "t" false (world_with_frame predictions_example)
    = (Ok 0, w1) ∧
    _rank_predictions 0 "t" true w1 = (Raise ValueError, w1).
Proof.
  apply (second_ranking_of_a_table_is_refused 0 "t" false true
           (world_with_frame predictions_example) predictions_example
           _ _ eq_refl eq_refl eq_refl eq_refl).
Defined.

(** ** More on the Estimator Resolver *)

(** [idxmin] returns the label of the first entry whose value is
    minimal. *)
Lemma idxmin_from_spec (s : list (nat * Z)) (best : nat * Z) :
  ∃ k lv,
    (best :: s) !! k = Some lv ∧
    idxmin_from best s = fst lv ∧
    (∀ x, In x (best :: s) → (snd lv <= snd x)%Z) ∧
    (∀ j x, (j < k)%nat → (best :: s) !! j = Some x → (snd lv < snd x)%Z).
Proof.
  revert best. induction s as [|a s IH]; intros best.
  - exists 0%nat, best. split; [reflexivity|]. split; [reflexivity|].
    split; [intros x [<-|[]]; lia | intros j x Hj; lia].
  - simpl. destruct (snd a <? snd best)%Z eqn:E.
    + apply Z.ltb_lt in E.
      destruct (IH a) as (k & lv & Hk & Hidx & Hmin & Hfirst).
      exists (S k), lv. split; [exact Hk|]. split; [exact Hidx|].
      pose proof (Hmin a (or_introl eq_refl)) as Ha.
      split.
      * intros x [<-|Hx]; [lia | now apply Hmin].
      * intros [|j] x Hj; simpl.
        -- intros [= <-]. lia.
        -- intros Hx. apply (Hfirst j x); [lia | exact Hx].
    + apply Z.ltb_ge in E.
      destruct (IH best) as (k & lv & Hk & Hidx & Hmin & Hfirst).
      pose proof (Hmin best (or_introl eq_refl)) as Hb.
      destruct k as [|k].
      * exists 0%nat, lv. split; [exact Hk|]. split; [exact Hidx|].
        split; [|intros j x Hj; lia].
        simpl in Hk. injection Hk as <-.
        intros x [<-|[<-|Hx]]; [lia | lia | apply Hmin; now right].
      * exists (S (S k)), lv. split; [exact Hk|]. split; [exact Hidx|].
        split.
        -- intros x [<-|[<-|Hx]]; [lia | | apply Hmin; now right].
           specialize (Hfirst 0%nat best ltac:(lia) eq_refl). lia.
        -- intros [|[|j]] x Hj; simpl.
           ++ intros [= <-]. apply (Hfirst 0%nat best); [lia | reflexivity].
           ++ intros [= <-].
              specialize (Hfirst 0%nat best ltac:(lia) eq_refl). lia.
           ++ intros Hx. apply (Hfirst (S j) x); [lia | exact Hx].
Qed.

Lemma indexed_from_lookup {A} (l : list A) (a k : nat) (x : A) :
  l !! k = Some x → combine (seq a (length l)) l !! k = Some ((a + k)%nat, x).
Proof.
  revert a k. induction l as [|y l IH]; intros a [|k]; simpl; try discriminate.
  - intros [= ->]. do 2 f_equal. lia.
  - intros Hk. rewrite (IH (S a) k Hk). do 2 f_equal. lia.
Qed.

Lemma indexed_lookup {A} (l : list A) (k : nat) (x : A) :
  l !! k = Some x → indexed l !! k = Some (k, x).
Proof. apply (indexed_from_lookup l 0 k x). Qed.

Lemma indexed_from_snd {A} (l : list A) (a : nat) :
  map snd (combine (seq a (length l)) l) = l.
Proof.
  revert a. induction l as [|y l IH]; intros a; simpl; [reflexivity|].
  now rewrite IH.
Qed.

Lemma indexed_from_app {A} (l1 l2 : list A) (a : nat) :
  combine (seq a (length (l1 ++ l2))) (l1 ++ l2)
  = combine (seq a (length l1)) l1
    ++ combine (seq (a + length l1) (length l2)) l2.
Proof.
  revert a. induction l1 as [|x l1 IH]; intros a; simpl.
  - now rewrite Nat.add_0_r.
  - rewrite IH. now rewrite Nat.add_succ_r.
Qed.

Lemma indexed_app {A} (l1 l2 : list A) :
  indexed (l1 ++ l2) = indexed l1 ++ combine (seq (length l1) (length l2)) l2.
Proof. apply (indexed_from_app l1 l2 0). Qed.

(** The rows of a target that comes first in the file keep their positions
    as labels. *)
Lemma rows_of_a_leading_target (target : string) (first rest : list ranking_row) :
  Forall (λ r, AM_COL_TARGET r = target) first →
  Forall (λ r, AM_COL_TARGET r ≠ target) rest →
  List.filter (λ r, String.eqb (AM_COL_TARGET (snd r)) target)
              (indexed (first ++ rest))
  = indexed first.
Proof.
  intros Hfirst Hrest. rewrite indexed_app, List.filter_app.
  rewrite (filter_none _ (combine _ rest)).
  - rewrite app_nil_r. unfold indexed.
    generalize 0%nat. induction Hfirst as [|r l Hr Hl IH]; intros a; simpl;
      [reflexivity|].
    rewrite (proj2 (String.eqb_eq _ _) Hr). now rewrite IH.
  - intros [l r] Hin. simpl. apply String.eqb_neq.
    apply in_combine_r in Hin.
    rewrite Forall_forall in Hrest. apply Hrest. now apply list_elem_of_In.
Qed.

Lemma indexed_lookup_inv {A} (l : list A) (k i : nat) (x : A) :
  indexed l !! k = Some (i, x) → i = k ∧ l !! k = Some x.
Proof.
  intros Hk.
  assert (is_Some (l !! k)) as [y Hy].
  { apply lookup_lt_is_Some. apply lookup_lt_Some in Hk.
    unfold indexed in Hk. rewrite length_combine, length_seq in Hk. lia. }
  rewrite (indexed_lookup _ _ _ Hy) in Hk. now injection Hk as <- <-.
Qed.

Section ResolverProperties.
Context `{Collaborators}.

(** X4.  Where the resolver is right.  When the rows of the target come
    first in the ranking file, the resolver selects, among the rows of the
    target, the first one whose combined rank (the rank by MAPE plus the
    rank by NRMSE) is minimal, and names its estimator file as linear or
    nonlinear after the row; the world is left as it is. *)
Theorem resolver_selects_the_first_best_row (estimator_path target_variable : string)
    (w : world) (d : folder) (first rest : list ranking_row) :
  folders w !! estimator_path = Some d →
  AM_RANKINGS_FILE d = Some (first ++ rest) →
  first ≠ [] →
  Forall (λ r, AM_COL_TARGET r = target_variable) first →
  Forall (λ r, AM_COL_TARGET r ≠ target_variable) rest →
  ∃ k best,
    first !! k = Some best ∧
    (∀ r, In r first → (combined_rank_of best <= combined_rank_of r)%Z) ∧
    (∀ j r, (j < k)%nat → first !! j = Some r →
            (combined_rank_of best < combined_rank_of r)%Z) ∧
    _get_highest_ranked_estimator estimator_path target_variable w
    = (Ok (estimator_file_of best target_variable), w).
Proof.
  intros Hd Ht Hne Hfirst Hrest.
  rewrite (resolver_result _ _ _ _ _ Hd Ht). cbv zeta.
  rewrite (rows_of_a_leading_target _ _ _ Hfirst Hrest).
  set (combined := λ r : nat * ranking_row,
         (fst r, (AM_COL_RANK_MAPE (snd r) + AM_COL_RANK_NRMSE_MAXMIN (snd r))%Z)).
  assert (∀ j r, first !! j = Some r →
            map combined (indexed first) !! j = Some (j, combined_rank_of r))
    as Hlookup.
  { intros j r Hj. now rewrite map_lookup, (indexed_lookup _ _ _ Hj). }
  destruct first as [|r0 first']; [congruence|].
  change (indexed (r0 :: first'))
    with ((0%nat, r0) :: combine (seq 1 (length first')) first') in *.
  simpl map in *. unfold idxmin.
  set (s := map combined (combine (seq 1 (length first')) first')) in *.
  destruct (idxmin_from_spec s (combined (0%nat, r0)))
    as (k & lv & Hk & Hidx & Hmin & Hbefore).
  assert (is_Some ((r0 :: first') !! k)) as [best Hbest].
  { apply lookup_lt_is_Some. apply lookup_lt_Some in Hk.
    simpl in Hk. unfold s in Hk.
    rewrite length_map, length_combine, length_seq in Hk. simpl. lia. }
  pose proof (Hlookup k best Hbest) as Hlv.
  rewrite Hlv in Hk. injection Hk as <-. simpl in Hidx. rewrite Hidx.
  exists k, best. split; [exact Hbest|].
  split; [|split].
  - intros r Hr. apply list_elem_of_In, list_elem_of_lookup in Hr as [j Hj].
    apply (Hmin (j, combined_rank_of r)).
    apply list_elem_of_In. eapply list_elem_of_lookup_2. now apply Hlookup.
  - intros j r Hjk Hj. apply (Hbefore j (j, combined_rank_of r) Hjk).
    now apply Hlookup.
  - change ((0%nat, r0) :: combine (seq 1 (length first')) first')
      with (indexed (r0 :: first')).
    now rewrite (indexed_lookup _ _ _ Hbest).
Qed.

(** X5.  How the resolver fails.  Without the estimator directory, or
    without a ranking file in it, the resolver raises the configuration
    error; with a ranking file that has no row for the target it raises
    [ValueError], the minimum of an empty series.  Whatever the outcome, the
    resolver changes nothing. *)
Theorem resolver_failure_modes (estimator_path target_variable : string)
    (w : world) :
  snd (_get_highest_ranked_estimator estimator_path target_variable w) = w ∧
  match folders w !! estimator_path ≫= AM_RANKINGS_FILE with
  | None =>
      fst (_get_highest_ranked_estimator estimator_path target_variable w)
      = Raise ConfigError
  | Some table =>
      Forall (λ r, AM_COL_TARGET r ≠ target_variable) table →
      fst (_get_highest_ranked_estimator estimator_path target_variable w)
      = Raise ValueError
  end.
Proof.
  split.
  { destruct (_get_highest_ranked_estimator _ _ w) as [r w'] eqn:E.
    apply (resolver_inv _ _ _ _ _ E). }
  destruct (folders w !! estimator_path) as [d|] eqn:Ed; simpl;
    [destruct (AM_RANKINGS_FILE d) as [table|] eqn:Et|].
  - intros Hnone. rewrite (resolver_result _ _ _ _ _ Ed Et). cbv zeta.
    rewrite filter_none; [reflexivity|].
    intros [l r] Hin. simpl. apply String.eqb_neq.
    unfold indexed in Hin. apply in_combine_r in Hin.
    rewrite Forall_forall in Hnone. apply Hnone. now apply list_elem_of_In.
  - unfold _get_highest_ranked_estimator, bind, read_rankings.
    now rewrite Ed, Et.
  - unfold _get_highest_ranked_estimator, bind, read_rankings.
    now rewrite Ed.
Qed.

End ResolverProperties.

(** X4 on the ranking table of the example followed by a row for another
    target. *)
Lemma resolver_selects_the_first_best_row_witness :
  ∃ k best,
    rankings_example !! k = Some best ∧
    _get_highest_ranked_estimator "models" "t"
      (world_with_rankings (rankings_example ++ [ranking "u" 1 1 true "E0"]))
    = (Ok (estimator_file_of best "t"),
       world_with_rankings (rankings_example ++ [ranking "u" 1 1 true "E0"])).
Proof.
  destruct (resolver_selects_the_first_best_row "models" "t"
              (world_with_rankings
                 (rankings_example ++ [ranking "u" 1 1 true "E0"]))
              {| AM_RANKINGS_FILE :=
                   Some (rankings_example ++ [ranking "u" 1 1 true "E0"]);
                 pickle_files := ∅ |}
              rankings_example [ranking "u" 1 1 true "E0"])
    as (k & best & Hk & _ & _ & Hrun).
  - reflexivity.
  - reflexivity.
  - discriminate.
  - repeat constructor.
  - repeat constructor. discriminate.
  - exists k, best. split; [exact Hk | exact Hrun].
Defined.

(** ** More on the Input-Space Builder *)

Lemma write_df_to_csv_run (df : loc) (output_path output_file : string)
    (w : world) (table : DataFrame) :
  frames w !! df = Some table →
  write_df_to_csv df output_path output_file w
  = (Ok (os_path_join output_path output_file),
     set_csv_files
       (<[os_path_join output_path output_file := table]> (csv_files w)) w).
Proof.
  intros Hdf. unfold write_df_to_csv.
  now rewrite (bind_Ok _ _ _ _ _ (read_frame_run _ _ _ Hdf)).
Qed.
Lemma add_fixed_values_cons (k : string) (v : value) (fixed : dict value)
    (df : DataFrame) :
  add_fixed_values ((k, v) :: fixed) df
  = add_fixed_values fixed (df_setitem_scalar k v df).
Proof. reflexivity. Qed.

(** The fixed values that are not columns yet become new columns, on the
    right and in the order of the mapping. *)
Lemma add_fixed_values_columns (fixed : dict value) :
  ∀ df : DataFrame,
    List.NoDup (dict_keys fixed) →
    columns (add_fixed_values fixed df)
    = columns df
      ++ List.filter (λ k, negb (existsb (String.eqb k) (columns df)))
                     (dict_keys fixed).
Proof.
  induction fixed as [|[k v] fixed IH]; intros df Hnd.
  - simpl. now rewrite app_nil_r.
  - rewrite add_fixed_values_cons. simpl in Hnd.
    apply List.NoDup_cons_iff in Hnd as [Hk Hnd].
    rewrite (IH _ Hnd). simpl dict_keys. simpl List.filter.
    unfold df_setitem_scalar.
    destruct (column_index k (columns df)) as [i|] eqn:Ei; simpl columns.
    + assert (existsb (String.eqb k) (columns df) = true) as ->; [|reflexivity].
      apply existsb_eqb_In. apply column_index_Some in Ei.
      apply list_elem_of_In. eapply list_elem_of_lookup_2, Ei.
    + assert (existsb (String.eqb k) (columns df) = false) as ->.
      { apply column_index_None in Ei.
        destruct (existsb _ _) eqn:E; [|reflexivity].
        now apply existsb_eqb_In in E. }
      simpl. rewrite <- app_assoc. simpl. do 2 f_equal.
      apply filter_ext_in. intros k' Hk'. f_equal.
      rewrite existsb_app. simpl. rewrite orb_false_r.
      destruct (String.eqb k' k) eqn:E; [|apply orb_false_r].
      apply String.eqb_eq in E. subst k'. contradiction.
Qed.

Lemma add_fixed_values_well_formed (fixed : dict value) :
  ∀ df : DataFrame, well_formed df → well_formed (add_fixed_values fixed df).
Proof.
  induction fixed as [|[k v] fixed IH]; intros df Hwf; [exact Hwf|].
  rewrite add_fixed_values_cons. apply IH.
  now apply setitem_scalar_well_formed.
Qed.

Lemma product_table_well_formed (d : dict (list value)) :
  well_formed (pd_DataFrame (product (dict_values d)) (dict_keys d)).
Proof.
  unfold well_formed, pd_DataFrame. simpl. apply List.Forall_forall. intros r Hr.
  apply product_row_length in Hr. rewrite Hr.
  unfold dict_values, dict_keys. now rewrite !length_map.
Qed.

Lemma product_with_an_empty_list {A} (ls : list (list A)) :
  In [] ls → product ls = [].
Proof.
  induction ls as [|l ls IH]; simpl; [intros []|].
  intros [->|Hin]; [reflexivity|].
  rewrite (IH Hin). now induction l.
Qed.

(** What the comprehension of line 76 holds under a name. *)
Lemma interpolation_entry (data : DataFrame) (names : list string)
    (interp : dict (list value)) (k : string) :
  df_empty data = false →
  interpolation_values_of (Some data) names = Ok interp →
  In k names →
  ∃ vals, _get_data_range_missing_values data k = Ok vals ∧
          dict_get k interp = Some (map VInt vals).
Proof.
  intros He Hi Hk. unfold interpolation_values_of in Hi. rewrite He in Hi.
  simpl in Hi.
  destruct (result_map _ names) as [items|] eqn:Hitems; [|discriminate].
  simpl in Hi. injection Hi as <-.
  apply result_map_Forall2 in Hitems.
  assert (map fst items = names ∧
          Forall (λ it, ∃ vals,
                    _get_data_range_missing_values data (fst it) = Ok vals ∧
                    snd it = map VInt vals) items) as [Hkeys Hall].
  { clear Hk. induction Hitems as [|k0 it names items H0 _ [IH1 IH2]].
    - split; constructor.
    - destruct (_get_data_range_missing_values data k0) as [vs|] eqn:Ek;
        simpl in H0; [|discriminate].
      injection H0 as <-. simpl. split; [now f_equal|].
      constructor; [|exact IH2]. now exists vs. }
  rewrite dict_get_update. simpl.
  rewrite <- Hkeys in Hk. apply last_write_is_Some in Hk as [v Hv].
  rewrite Hv. apply last_write_In in Hv.
  rewrite List.Forall_forall in Hall.
  destruct (Hall _ Hv) as (vals & Hvals & Hsnd). simpl in Hvals, Hsnd.
  subst v. now exists vals.
Qed.

Lemma dict_get_values {V} (k : string) (v : V) (d : dict V) :
  dict_get k d = Some v → In v (dict_values d).
Proof.
  induction d as [|[k0 v0] d IH]; simpl; [discriminate|].
  destruct (String.eqb k0 k); [intros [= ->]; now left | right; now apply IH].
Qed.

Section BuilderProperties.
Context `{Collaborators}.

(** X6.  What the builder touches.  Whatever the configuration and whether
    or not feature engineering is asked for, the builder leaves every
    existing table object as it is, the historical data included, and it
    touches no configuration file, estimator directory or archive.  When it
    returns, the table it returns is a new object and the only file written
    is the input-space file under [output_path], which holds the table of
    that object.  When it raises, no file has been written. *)
Theorem builder_writes_the_table_it_returns (input_config : Config)
    (original_data : option loc) (output_path : string)
    (feature_engineering : option (dict string))
    (metadata_parser_class_name metadata_path : option string)
    (w w' : world) (r : result (string * loc)) :
  _create_input_space input_config original_data output_path feature_engineering
    metadata_parser_class_name metadata_path w = (r, w') →
  frames w ⊆ frames w' ∧
  yaml_files w' = yaml_files w ∧ folders w' = folders w ∧
  archives w' = archives w ∧
  match r with
  | Ok (path, l) =>
      path = os_path_join output_path PRED_INPUT_SPACE_FILE ∧
      frames w !! l = None ∧
      ∃ table, frames w' !! l = Some table ∧
               csv_files w' = <[path := table]> (csv_files w)
  | Raise _ => csv_files w' = csv_files w
  end.
Proof.
  intros Hrun. unfold _create_input_space in Hrun.
  apply bind_inv in Hrun as [(e & E & ->)|(history & w1 & E & Hrun)].
  { assert (w' = w) as ->; [|easy].
    destruct original_data; simpl in E;
      unfold bind, read_frame, ret in E; repeat case_match; now simplify_eq. }
  assert (w1 = w) as ->.
  { destruct original_data; simpl in E;
      unfold bind, read_frame, ret in E; repeat case_match; now simplify_eq. }
  clear E.
  apply bind_inv in Hrun as [(e & E & ->)|(interp & w1 & E & Hrun)];
    apply lift_inv in E as [_ ->]; [easy|].
  destruct (keys_overlap _ _); [unfold raise in Hrun; now simplify_eq|].
  unfold bind at 1, new_frame at 1 in Hrun.
  erewrite bind_Ok in Hrun; [|apply fixed_values_loop; simpl; apply lookup_insert_eq].
  simpl frames in Hrun. rewrite insert_insert_eq in Hrun.
  set (l := fresh (dom (frames w))) in *.
  set (table := add_fixed_values _ _) in *.
  assert (frames w !! l = None) as Hl by apply fresh_frame.
  assert (frames w ⊆ <[l := table]> (frames w)) as Hsub
    by now apply insert_subseteq.
  destruct feature_engineering as [fe|].
  - apply bind_inv in Hrun as [(e & E & ->)|(l2 & w2 & E & Hrun)].
    + apply bind_inv in E as [(e' & E & [= ->])|(df & w2 & E & E')].
      { unfold read_frame in E. simpl in E. rewrite lookup_insert_eq in E.
        discriminate. }
      apply read_frame_inv in E as [_ ->].
      apply bind_inv in E' as [(e' & E & [= ->])|(df' & w2 & E & E')].
      * apply lift_inv in E as [_ ->]. easy.
      * unfold new_frame in E'. discriminate.
    + apply bind_inv in E as [(e' & E & [=])|(df & w3 & E & E')].
      apply read_frame_inv in E as [_ ->].
      apply bind_inv in E' as [(e' & E & [=])|(df' & w3 & E & E')].
      apply lift_inv in E as [_ ->].
      unfold new_frame in E'. injection E' as <- <-.
      simpl frames in Hrun.
      set (l2 := fresh (dom (<[l := table]> (frames w)))) in *.
      assert (<[l := table]> (frames w) !! l2 = None) as Hl2.
      { apply (not_elem_of_dom (D := gset loc)). apply is_fresh. }
      erewrite bind_Ok in Hrun;
        [|apply write_df_to_csv_run; simpl; apply lookup_insert_eq].
      unfold ret in Hrun. injection Hrun as <- <-. simpl.
      split; [etrans; [exact Hsub | now apply insert_subseteq]|].
      repeat (split; [reflexivity|]).
      split; [eapply lookup_weaken_None; eassumption|].
      exists df'. split; [apply lookup_insert_eq | reflexivity].
  - unfold bind at 1, ret at 1 in Hrun.
    erewrite bind_Ok in Hrun;
      [|apply write_df_to_csv_run; simpl; apply lookup_insert_eq].
    unfold ret in Hrun. injection Hrun as <- <-. simpl.
    split; [exact Hsub|]. repeat (split; [reflexivity|]).
    split; [exact Hl|].
    exists table. split; [apply lookup_insert_eq | reflexivity].
Qed.

(** X7.  The layout of the input-space table.  For an accepted
    configuration the columns are, from left to right: the variable
    features in the order in which the configuration first names them, the
    interpolated features, and then those fixed features that are not among
    them, in the order in which the configuration first names them.  No
    column name occurs twice and every row has one cell per column. *)
Theorem input_space_columns_are_ordered (input_config : Config)
    (original_data : option loc) (output_path : string)
    (metadata_parser_class_name metadata_path : option string)
    (w w' : world) (path : string) (l : loc) :
  _create_input_space input_config original_data output_path None
    metadata_parser_class_name metadata_path w = (Ok (path, l), w') →
  ∃ history interp table,
    holds w original_data history ∧
    interpolation_values_of history
      (default [] (cfg_interpolation_values input_config)) = Ok interp ∧
    frames w' !! l = Some table ∧
    let variable_names :=
      dict_keys (dict_flatten (cfg_variable_values input_config))
      ++ dict_keys interp in
    columns table
    = variable_names
      ++ List.filter (λ k, negb (existsb (String.eqb k) variable_names))
           (dict_keys (dict_flatten (cfg_fixed_values input_config))) ∧
    List.NoDup (columns table) ∧
    well_formed table.
Proof.
  intros Hrun.
  destruct (input_space_table _ _ _ _ _ _ _ _ _ Hrun)
    as (history & interp & Hh & Hi & Hk & _ & _ & _ & Hframe).
  cbv zeta in Hframe. exists history, interp. eexists.
  split; [exact Hh|]. split; [exact Hi|]. split; [exact Hframe|]. cbv zeta.
  assert (List.NoDup (dict_keys (dict_flatten (cfg_variable_values input_config))
                      ++ dict_keys interp)) as Hnames.
  { apply List.NoDup_app; [apply dict_flatten_keys_NoDup
                          |eapply interpolation_keys_NoDup; eassumption
                          |now apply keys_overlap_false]. }
  assert (columns
            (add_fixed_values (dict_flatten (cfg_fixed_values input_config))
               (pd_DataFrame
                  (product
                     (dict_values
                        (dict_flatten (cfg_variable_values input_config))
                      ++ dict_values interp))
                  (dict_keys (dict_flatten (cfg_variable_values input_config))
                   ++ dict_keys interp)))
          = (dict_keys (dict_flatten (cfg_variable_values input_config))
             ++ dict_keys interp)
            ++ List.filter
                 (λ k, negb (existsb (String.eqb k)
                               (dict_keys
                                  (dict_flatten (cfg_variable_values input_config))
                                ++ dict_keys interp)))
                 (dict_keys (dict_flatten (cfg_fixed_values input_config))))
    as Hcols
    by (rewrite add_fixed_values_columns; [reflexivity|apply dict_flatten_keys_NoDup]).
  split; [exact Hcols|]. split.
  - rewrite Hcols. apply List.NoDup_app; [exact Hnames| |].
    + apply List.NoDup_filter, dict_flatten_keys_NoDup.
    + intros k Hin Hk'. apply filter_In in Hk' as [_ Hk'].
      apply negb_true_iff in Hk'.
      apply existsb_eqb_In in Hin. congruence.
  - apply add_fixed_values_well_formed.
    unfold dict_values, dict_keys. rewrite <- !map_app.
    apply (product_table_well_formed
             (dict_flatten (cfg_variable_values input_config) ++ interp)).
Qed.

(** X8.  An interpolated feature without gaps empties the input space.
    When the historical data is not empty and holds, for a feature named in
    [interpolation_values], a column of 64-bit integers, not all of them
    the largest one, with every integer between the smallest and the
    largest value of the column, there is nothing to interpolate: the
    feature gets the empty list of values and the input-space table of an
    accepted configuration has no row. *)
Theorem interpolation_without_gaps_leaves_no_row (input_config : Config)
    (original_data : option loc) (output_path : string)
    (metadata_parser_class_name metadata_path : option string)
    (w w' : world) (path : string) (l : loc)
    (data : DataFrame) (var_name : string) (col : list Z) :
  _create_input_space input_config original_data output_path None
    metadata_parser_class_name metadata_path w = (Ok (path, l), w') →
  holds w original_data (Some data) →
  df_empty data = false →
  In var_name (default [] (cfg_interpolation_values input_config)) →
  df_getitem data var_name = Ok (map VInt col) →
  Forall (λ z, (int64_min <= z <= int64_max)%Z) col →
  (∃ z, In z col ∧ (z < int64_max)%Z) →
  (∀ lo hi v, In lo col → In hi col → (lo < v < hi)%Z → In v col) →
  _get_data_range_missing_values data var_name = Ok [] ∧
  ∃ table, frames w' !! l = Some table ∧ rows table = [].
Proof.
  intros Hrun Hh He Hin Hcol Hrange [z [Hz Hbelow]] Hfull.
  destruct (history_column_inhabited _ _ _ He Hcol) as (x & xs & ->).
  assert (_get_data_range_missing_values data var_name = Ok []) as Hvals.
  { rewrite (missing_values_spec _ _ _ _ Hcol). f_equal.
    rewrite (int64_wrap_no_overflow x xs z Hrange Hz Hbelow).
    apply filter_none. intros v Hv. apply range_In in Hv.
    apply negb_false_iff, existsb_Zeqb_In.
    apply (Hfull (list_min x xs) (list_max x xs));
      [apply list_min_spec | apply list_max_spec | lia]. }
  split; [exact Hvals|].
  destruct (input_space_table _ _ _ _ _ _ _ _ _ Hrun)
    as (history & interp & Hh' & Hi & _ & _ & _ & _ & Hframe).
  cbv zeta in Hframe. eexists. split; [exact Hframe|].
  assert (history = Some data) as ->.
  { destruct original_data as [od|]; simpl in Hh, Hh'.
    - destruct Hh as (d1 & E1 & [= <-]). destruct Hh' as (d2 & E2 & ->).
      congruence.
    - discriminate. }
  destruct (interpolation_entry _ _ _ _ He Hi Hin) as (vals & Hvals' & Hget).
  rewrite Hvals in Hvals'. injection Hvals' as <-.
  apply length_zero_iff_nil. rewrite add_fixed_values_rows_length. simpl.
  rewrite product_with_an_empty_list; [reflexivity|].
  apply in_or_app. right. now apply (dict_get_values var_name).
Qed.

End BuilderProperties.

(** X6 on the configuration of the example. *)
Lemma builder_writes_the_table_it_returns_witness :
  ∃ table,
    frames (snd (_create_input_space cfg_example None "out" None None None
                   empty_world)) !! 0 = Some table ∧
    csv_files (snd (_create_input_space cfg_example None "out" None None None
                      empty_world))
    = <["out/input-space.csv" := table]> (csv_files empty_world).
Proof.
  pose proof (builder_writes_the_table_it_returns cfg_example None "out" None None
                None empty_world _ _ (surjective_pairing _)) as Heffects.
  assert (fst (_create_input_space cfg_example None "out" None None None
                 empty_world) = Ok ("out/input-space.csv", 0%nat)) as Hrun
    by (vm_compute; reflexivity).
  rewrite Hrun in Heffects.
  destruct Heffects as (_ & _ & _ & _ & _ & _ & table & Hframe & Hfile).
  exists table. split; [exact Hframe | exact Hfile].
Defined.

(** X7 on the configuration of the example: the variable feature [b] comes
    before the fixed feature [a]. *)
Lemma input_space_columns_are_ordered_witness :
  ∃ table,
    frames (snd (_create_input_space cfg_example None "out" None None None
                   empty_world)) !! 0 = Some table ∧
    columns table = ["b"; "a"] ∧
    well_formed table.
Proof.
  destruct (input_space_columns_are_ordered cfg_example None "out" None None
              empty_world
              (snd (_create_input_space cfg_example None "out" None None None
                      empty_world))
              "out/input-space.csv" 0%nat)
    as (history & interp & table & Hh & Hi & Hframe & Hcols & _ & Hwf).
  - vm_compute. reflexivity.
  - simpl in Hh. subst history. injection Hi as <-.
    exists table. split; [exact Hframe|]. split; [exact Hcols | exact Hwf].
Defined.

(** X8 on historical data that holds 2, 1 and 3 under [x]. *)
Lemma interpolation_without_gaps_leaves_no_row_witness :
  _get_data_range_missing_values history_without_gaps "x" = Ok [] ∧
  ∃ table,
    frames (snd (_create_input_space cfg_interpolation (Some 0%nat) "out" None
                   None None (world_with_frame history_without_gaps))) !! 1
    = Some table ∧
    rows table = [].
Proof.
  apply (interpolation_without_gaps_leaves_no_row cfg_interpolation (Some 0%nat)
           "out" None None (world_with_frame history_without_gaps)
           (snd (_create_input_space cfg_interpolation (Some 0%nat) "out" None
                   None None (world_with_frame history_without_gaps)))
           "out/input-space.csv" 1%nat history_without_gaps "x" [2; 1; 3]%Z).
  - vm_compute. reflexivity.
  - now exists history_without_gaps.
  - reflexivity.
  - now left.
  - reflexivity.
  - repeat constructor; discriminate.
  - exists 1%Z. split; [right; now left | reflexivity].
  - intros lo hi v Hlo Hhi Hv. simpl in *.
    assert (v = 2%Z) as -> by lia. now left.
Defined.

(** ** More on the interpolation values *)

Lemma increasing_cons (x : Z) (l : list Z) :
  increasing (x :: l) ↔ (∀ y, In y l → (x < y)%Z) ∧ increasing l.
Proof.
  split.
  - intros Hinc. split.
    + intros y Hy. apply list_elem_of_In, list_elem_of_lookup in Hy as [j Hj].
      apply (Hinc 0%nat (S j) x y); [lia | reflexivity | exact Hj].
    + intros i j a b Hij Hi Hj. apply (Hinc (S i) (S j) a b); [lia | exact Hi | exact Hj].
  - intros [Hx Hl] [|i] [|j] a b Hij Hi Hj; try lia; simpl in Hi, Hj.
    + injection Hi as <-. apply Hx, list_elem_of_In.
      eapply list_elem_of_lookup_2, Hj.
    + apply (Hl i j a b); [lia | exact Hi | exact Hj].
Qed.

Lemma increasing_filter (f : Z → bool) (l : list Z) :
  increasing l → increasing (List.filter f l).
Proof.
  induction l as [|x l IH]; intros Hinc; [exact Hinc|].
  apply increasing_cons in Hinc as [Hx Hl]. simpl.
  destruct (f x); [|now apply IH].
  apply increasing_cons. split; [|now apply IH].
  intros y Hy. apply filter_In in Hy as [Hy _]. now apply Hx.
Qed.

Lemma range_increasing (a b : Z) : increasing (range a b).
Proof.
  unfold range. generalize (Z.to_nat (b - a)) as n. generalize 0%nat as s.
  intros s n. revert s. induction n as [|n IH]; intros s; simpl.
  - intros i j x y _ Hi. destruct i; discriminate.
  - apply increasing_cons. split; [|apply IH].
    intros y Hy. apply in_map_iff in Hy as (i & <- & Hi).
    apply in_seq in Hi. lia.
Qed.

Lemma result_map_as_int_is_int (cells : list value) :
  Forall is_int cells → ∃ col, cells = map VInt col.
Proof.
  induction 1 as [|c cells [z ->] _ [col ->]]; [now exists []|].
  now exists (z :: col).
Qed.

Lemma result_map_as_int_raises (cells : list value) :
  ¬ Forall is_int cells → result_map as_int cells = Raise TypeError.
Proof.
  induction cells as [|c cells IH]; intros Hnot.
  - exfalso. apply Hnot. constructor.
  - simpl. destruct c as [z| |]; simpl; try reflexivity.
    rewrite IH; [reflexivity|].
    intros Hall. apply Hnot. constructor; [now exists z | exact Hall].
Qed.

(** X9.  The outcomes of [_get_data_range_missing_values] on historical
    data that is not empty.  A feature that is not a column raises
    [KeyError].  A column with a cell that is not an integer raises
    [TypeError].  A column of integers gives the values to interpolate in
    strictly increasing order, whatever the order of the rows. *)
Theorem missing_values_outcomes (original_data : DataFrame) (var_name : string) :
  df_empty original_data = false →
  (¬ In var_name (columns original_data) →
   _get_data_range_missing_values original_data var_name = Raise KeyError) ∧
  (∀ cells, df_getitem original_data var_name = Ok cells →
     (¬ Forall is_int cells →
      _get_data_range_missing_values original_data var_name = Raise TypeError) ∧
     (Forall is_int cells →
      ∃ vals,
        _get_data_range_missing_values original_data var_name = Ok vals ∧
        increasing vals)).
Proof.
  intros He. split.
  - intros Hnot. apply column_index_None in Hnot.
    unfold _get_data_range_missing_values, df_getitem. now rewrite Hnot.
  - intros cells Hcells. split.
    + intros Hnot. unfold _get_data_range_missing_values. rewrite Hcells. simpl.
      now rewrite (result_map_as_int_raises _ Hnot).
    + intros Hall. destruct (result_map_as_int_is_int _ Hall) as [col ->].
      destruct (history_column_inhabited _ _ _ He Hcells) as (x & xs & ->).
      eexists. split; [apply (missing_values_spec _ _ _ _ Hcells)|].
      apply increasing_filter, range_increasing.
Qed.

(** X9 on the historical data of the example: [z] is no column, [y] holds
    strings, and [x] gives 2 and then 4. *)
Lemma missing_values_outcomes_witness :
  _get_data_range_missing_values history_example "z" = Raise KeyError ∧
  _get_data_range_missing_values history_example "y" = Raise TypeError ∧
  ∃ vals, _get_data_range_missing_values history_example "x" = Ok vals ∧
          increasing vals.
Proof.
  destruct (missing_values_outcomes history_example "z" eq_refl) as [Hz _].
  destruct (missing_values_outcomes history_example "y" eq_refl) as [_ Hy].
  destruct (missing_values_outcomes history_example "x" eq_refl) as [_ Hx].
  split; [|split].
  - apply Hz. intros [[=]|[[=]|[]]].
  - apply (proj1 (Hy _ eq_refl)). intros Hall.
    apply Forall_cons in Hall as [[z [=]] _].
  - apply (proj2 (Hx _ eq_refl)). repeat constructor; eexists; reflexivity.
Defined.

(** ** What the pipeline writes *)

Create HintDb files.

Lemma silent_ret {A} (a : A) : silent (ret a).
Proof. intros w r w' E. unfold ret in E. step_by_step E. Qed.

Lemma silent_raise {A} (e : error) : silent (raise e : M A).
Proof. intros w r w' E. unfold raise in E. step_by_step E. Qed.

Lemma silent_lift {A} (x : result A) : silent (lift x).
Proof. intros w r w' E. unfold lift in E. step_by_step E. Qed.

Lemma silent_bind {A B} (m : M A) (k : A → M B) :
  silent m → (∀ a, silent (k a)) → silent (bind m k).
Proof.
  intros Hm Hk w r w' E.
  apply bind_inv in E as [(e & E & ->)|(a & w1 & E & E')].
  - eapply Hm, E.
  - destruct (Hm _ _ _ E) as [C1 Y1]. destruct (Hk a _ _ _ E') as [C2 Y2].
    split; congruence.
Qed.

Lemma silent_for_each {A} (xs : list A) (body : A → M unit) :
  (∀ x, silent (body x)) → silent (for_each xs body).
Proof.
  intros Hb. induction xs as [|x xs IH]; simpl.
  - apply silent_ret.
  - apply silent_bind; [apply Hb | intros _; exact IH].
Qed.

Lemma silent_read_frame (l : loc) : silent (read_frame l).
Proof. intros w r w' E. unfold read_frame in E. step_by_step E. Qed.

Lemma silent_new_frame (df : DataFrame) : silent (new_frame df).
Proof. intros w r w' E. unfold new_frame in E. step_by_step E. Qed.

Lemma silent_update_frame (l : loc) (f : DataFrame → result DataFrame) :
  silent (update_frame l f).
Proof.
  unfold update_frame.
  apply silent_bind; [apply silent_read_frame | intros df].
  apply silent_bind; [apply silent_lift | intros df'].
  intros w r w' E. step_by_step E.
Qed.

Lemma silent_frame_copy (l : loc) : silent (frame_copy l).
Proof.
  unfold frame_copy.
  apply silent_bind; [apply silent_read_frame | intros df; apply silent_new_frame].
Qed.

Lemma silent_pd_read_csv (filename : string) : silent (pd_read_csv filename).
Proof.
  intros w r w' E. unfold pd_read_csv in E.
  destruct (csv_files w !! filename); [|step_by_step E].
  eapply silent_new_frame, E.
Qed.

Lemma silent_glob_predictions `{Collaborators} (output_path : string) :
  silent (glob_predictions output_path).
Proof. intros w r w' E. unfold glob_predictions in E. step_by_step E. Qed.

Lemma silent_load_estimator (input_path pickle_file : string) :
  silent (load_estimator input_path pickle_file).
Proof. intros w r w' E. unfold load_estimator in E. step_by_step E. Qed.

Lemma silent_read_rankings (estimator_path : string) :
  silent (read_rankings estimator_path).
Proof. intros w r w' E. unfold read_rankings in E. step_by_step E. Qed.

Lemma silent_is_zipfile (path : string) : silent (is_zipfile path).
Proof. intros w r w' E. unfold is_zipfile in E. step_by_step E. Qed.

Lemma silent_unpack_archive (filename extract_dir : string) :
  silent (unpack_archive filename extract_dir).
Proof. intros w r w' E. unfold unpack_archive in E. step_by_step E. Qed.

Lemma silent_read_yaml_config (config_file : string) :
  silent (_read_yaml_config config_file).
Proof. intros w r w' E. unfold _read_yaml_config in E. step_by_step E. Qed.

#[local] Hint Resolve silent_ret silent_raise silent_lift silent_read_frame
  silent_new_frame silent_update_frame silent_frame_copy silent_pd_read_csv
  silent_glob_predictions silent_load_estimator silent_read_rankings
  silent_is_zipfile silent_unpack_archive
  silent_read_yaml_config : files.

(** Goes through a computation made of steps that write nothing. *)
Ltac silent_all :=
  repeat first
    [ solve [auto with files]
    | apply silent_for_each; intros ?
    | match goal with
      | |- silent (if ?b then _ else _) => destruct b
      | |- silent (match ?x with _ => _ end) => destruct x
      end
    | apply silent_bind; [|intros ?] ].

Lemma silent_rank_predictions (data : loc) (target_column : string) (gib : bool) :
  silent (_rank_predictions data target_column gib).
Proof. unfold _rank_predictions. silent_all. Qed.

Lemma silent_read_predictions (files : list string) :
  ∀ dfs, silent (read_predictions files dfs).
Proof.
  induction files as [|f files IH]; intros dfs; simpl; [auto with files|].
  destruct (ignored f); [apply IH|].
  apply silent_bind; [auto with files | intros df; apply IH].
Qed.

#[local] Hint Resolve silent_rank_predictions silent_read_predictions : files.

Lemma writes_of_silent {A} (allowed : string → Prop) (m : M A) :
  silent m → writes_only allowed m.
Proof.
  intros Hm w r w' E. destruct (Hm _ _ _ E) as [C Y].
  rewrite C. repeat split; auto.
Qed.

Lemma writes_bind {A B} (allowed : string → Prop) (m : M A) (k : A → M B) :
  writes_only allowed m → (∀ a, writes_only allowed (k a)) →
  writes_only allowed (bind m k).
Proof.
  intros Hm Hk w r w' E.
  apply bind_inv in E as [(e & E & ->)|(a & w1 & E & E')].
  - eapply Hm, E.
  - destruct (Hm _ _ _ E) as (Y1 & S1 & C1).
    destruct (Hk a _ _ _ E') as (Y2 & S2 & C2).
    split; [congruence|]. split.
    + intros p Hp. now apply S2, S1.
    + intros p Hp. now rewrite (C2 p Hp), (C1 p Hp).
Qed.

Lemma writes_for_each {A} (allowed : string → Prop) (xs : list A)
    (body : A → M unit) :
  (∀ x, writes_only allowed (body x)) → writes_only allowed (for_each xs body).
Proof.
  intros Hb. induction xs as [|x xs IH]; simpl.
  - apply writes_of_silent, silent_ret.
  - apply writes_bind; [apply Hb | intros _; exact IH].
Qed.

Lemma writes_weaken {A} (allowed allowed' : string → Prop) (m : M A) :
  (∀ p, allowed p → allowed' p) → writes_only allowed m → writes_only allowed' m.
Proof.
  intros Himpl Hm w r w' E. destruct (Hm _ _ _ E) as (Y & S & C).
  split; [exact Y|]. split; [exact S|].
  intros p Hp. apply C. intros Ha. apply Hp, Himpl, Ha.
Qed.

Lemma writes_write_df_to_csv (allowed : string → Prop) (df : loc)
    (output_path output_file : string) :
  allowed (os_path_join output_path output_file) →
  writes_only allowed (write_df_to_csv df output_path output_file).
Proof.
  intros Hp w r w' E. unfold write_df_to_csv, bind, read_frame in E.
  destruct (frames w !! df) as [table|]; injection E as <- <-; simpl;
    [|repeat split; auto].
  split; [reflexivity|]. split.
  - intros p Hsome.
    destruct (decide (os_path_join output_path output_file = p)) as [<-|Hne].
    + rewrite lookup_insert_eq. eauto.
    + now rewrite lookup_insert_ne.
  - intros p Hnot. apply lookup_insert_ne. intros <-. contradiction.
Qed.

Lemma fails_silently_of_silent {A} (m : M A) : silent m → fails_silently m.
Proof. intros Hm w e w' E. apply (Hm _ _ _ E). Qed.

Lemma fails_silently_bind {A B} (m : M A) (k : A → M B) :
  silent m → (∀ a, fails_silently (k a)) → fails_silently (bind m k).
Proof.
  intros Hm Hk w e w' E.
  apply bind_inv in E as [(e' & E & _)|(a & w1 & E & E')].
  - apply (Hm _ _ _ E).
  - destruct (Hm _ _ _ E) as [C1 _]. rewrite <- C1. apply (Hk a _ _ _ E').
Qed.

Lemma fails_silently_write_last (df : loc) (output_path output_file : string) :
  fails_silently (bind (write_df_to_csv df output_path output_file)
                       (λ _, ret tt)).
Proof.
  intros w e w' E. unfold write_df_to_csv, bind, read_frame, ret in E.
  destruct (frames w !! df); [discriminate | now injection E as <- <-].
Qed.

Section PipelineFiles.
Context `{Collaborators}.

Lemma silent_resolver (estimator_path target_variable : string) :
  silent (_get_highest_ranked_estimator estimator_path target_variable).
Proof. unfold _get_highest_ranked_estimator. silent_all. Qed.

(** Goes through a computation that ends with writing files. *)
Ltac writes_all :=
  repeat first
    [ solve [apply writes_of_silent; auto with files]
    | match goal with
      | |- writes_only _ (write_df_to_csv _ _ _) =>
          apply writes_write_df_to_csv
      end
    | apply writes_for_each; intros ?
    | match goal with
      | |- writes_only _ (if ?b then _ else _) => destruct b
      | |- writes_only _ (match ?x with _ => _ end) => destruct x
      end
    | apply writes_bind; [|intros ?] ].

Lemma writes_predict_entry (input_data : loc) (estimator_folder output_path : string)
    (entry : yaml) :
  writes_only (λ p, ∃ target_variable,
                 p = per_target_file output_path target_variable)
    (predict_entry input_data estimator_folder output_path entry).
Proof.
  pose proof silent_resolver. unfold predict_entry. writes_all.
  eexists. reflexivity.
Qed.

Lemma fails_silently_predict_entry (input_data : loc)
    (estimator_folder output_path : string) (entry : yaml) :
  fails_silently (predict_entry input_data estimator_folder output_path entry).
Proof.
  pose proof silent_resolver. unfold predict_entry.
  repeat (apply fails_silently_bind; [solve [silent_all] | intros ?]).
  apply fails_silently_write_last.
Qed.

Lemma silent_reduce_merge (dfs : list loc) : ∀ x, silent (reduce_merge x dfs).
Proof.
  induction dfs as [|y dfs IH]; intros x; simpl; [auto with files|].
  silent_all.
Qed.

Lemma writes_merge_predictions (output_path : string) :
  writes_only (λ p, p = os_path_join output_path PRED_ALL_PREDICTIONS_FILE)
    (merge_predictions output_path).
Proof.
  pose proof silent_reduce_merge. unfold merge_predictions. writes_all.
  reflexivity.
Qed.

Lemma writes_reconcile (original_data : option loc)
    (input_data all_predictions_df : loc) (output_path : string) :
  writes_only (λ p, p = os_path_join output_path PRED_GROUND_TRUTH_FILE ∨
                    p = os_path_join output_path PRED_ORIGINAL_TRUTH_FILE)
    (reconcile original_data input_data all_predictions_df output_path).
Proof.
  unfold reconcile. writes_all; [now left | now right].
Qed.

Lemma writes_runner_steps (original_data : option loc) (input_data : loc)
    (estimators_config : Config) (estimator_folder output_path : string) :
  writes_only (runner_output output_path)
    (runner_steps original_data input_data estimators_config
       estimator_folder output_path).
Proof.
  unfold runner_steps.
  apply writes_bind; [writes_all | intros entries].
  apply writes_bind; [|intros _].
  { apply writes_for_each. intros entry.
    eapply writes_weaken; [|apply writes_predict_entry].
    intros p Hp. now left. }
  apply writes_bind; [|intros all_predictions_df].
  { eapply writes_weaken; [|apply writes_merge_predictions].
    intros p Hp. right. now left. }
  eapply writes_weaken; [|apply writes_reconcile].
  intros p [Hp|Hp]; right; right; [now left | now right].
Qed.

Lemma keeps_runner_steps (original_data : option loc) (input_data : loc)
    (estimators_config : Config) (estimator_folder output_path : string) :
  keeps_directories
    (runner_steps original_data input_data estimators_config
       estimator_folder output_path).
Proof.
  unfold runner_steps.
  apply keeps_bind; [auto with dirs | intros entries].
  apply keeps_bind; [|intros _].
  { apply keeps_for_each. intros entry. apply keeps_predict_entry. }
  apply keeps_bind; [apply keeps_merge_predictions | intros l].
  apply keeps_reconcile.
Qed.

(** With the estimators in a plain directory, nothing is extracted and
    nothing is removed: the run is made of the steps in between. *)
Lemma run_from_a_directory (original_data : option loc) (input_data : loc)
    (estimators_config : Config) (estimator_path output_path : string)
    (w : world) :
  archives w !! estimator_path = None →
  _run_predictions original_data input_data estimators_config estimator_path
    output_path w
  = runner_steps original_data input_data estimators_config estimator_path
      output_path w.
Proof.
  intros Hplain.
  unfold _run_predictions, bind at 1, is_zipfile. rewrite Hplain.
  rewrite bool_decide_eq_false_2 by (intros [? [=]]).
  unfold bind at 1, ret at 1.
  transitivity
    (bind (runner_steps original_data input_data estimators_config
             estimator_path output_path)
          (λ _, zipped <- is_zipfile estimator_path ;;
                if zipped : bool then rmtree estimator_path else ret tt) w).
  { unfold run_in_folder, runner_steps, bind.
    repeat (case_match; simplify_eq; try reflexivity). }
  destruct (runner_steps original_data input_data estimators_config
              estimator_path output_path w) as [r w'] eqn:E.
  destruct (keeps_runner_steps _ _ _ _ _ _ _ _ E) as [_ Harchives].
  unfold bind at 1. rewrite E. destruct r as [[]|e]; [|reflexivity].
  unfold bind, is_zipfile. rewrite Harchives, Hplain.
  now rewrite bool_decide_eq_false_2 by (intros [? [=]]).
Qed.

Lemma writes_create_input_space (input_config : Config)
    (original_data : option loc) (output_path : string)
    (feature_engineering : option (dict string))
    (metadata_parser_class_name metadata_path : option string) :
  writes_only (λ p, p = os_path_join output_path PRED_INPUT_SPACE_FILE)
    (_create_input_space input_config original_data output_path
       feature_engineering metadata_parser_class_name metadata_path).
Proof.
  unfold _create_input_space. writes_all; reflexivity.
Qed.

End PipelineFiles.

Section PipelineEffects.
Context `{Collaborators}.

Lemma changes_create_input_space (own : gset loc) (input_config : Config)
    (original_data : option loc) (output_path : string)
    (feature_engineering : option (dict string))
    (metadata_parser_class_name metadata_path : option string) :
  changes_only own
    (_create_input_space input_config original_data output_path
       feature_engineering metadata_parser_class_name metadata_path).
Proof. unfold _create_input_space. changes_all. Qed.

Lemma changes_read_yaml_config (own : gset loc) (config_file : string) :
  changes_only own (_read_yaml_config config_file).
Proof.
  apply changes_nothing. intros w r w' E. unfold _read_yaml_config in E.
  step_by_step E.
Qed.

Lemma keeps_create_input_space (input_config : Config)
    (original_data : option loc) (output_path : string)
    (feature_engineering : option (dict string))
    (metadata_parser_class_name metadata_path : option string) :
  keeps_directories
    (_create_input_space input_config original_data output_path
       feature_engineering metadata_parser_class_name metadata_path).
Proof. unfold _create_input_space. keeps_all. Qed.

Lemma keeps_read_yaml_config (config_file : string) :
  keeps_directories (_read_yaml_config config_file).
Proof. intros w r w' E. unfold _read_yaml_config in E. step_by_step E. Qed.

(** With the estimators in a plain directory, the pipeline is made of the
    reading of the configuration, the Input-Space Builder and the steps of
    the runner. *)
Lemma demo_predict_from_a_directory (original_data : option loc)
    (config_file estimator_path : string)
    (feature_engineering : option (dict string))
    (metadata_parser_class_name metadata_path : option string)
    (output_path : string) (w : world) :
  archives w !! estimator_path = None →
  demo_predict original_data config_file estimator_path feature_engineering
    metadata_parser_class_name metadata_path (Some output_path) w
  = bind (_read_yaml_config config_file) (λ config,
    bind (_create_input_space config original_data output_path
            feature_engineering metadata_parser_class_name metadata_path)
         (λ created,
    runner_steps original_data (snd created) config estimator_path
      output_path)) w.
Proof.
  intros Hplain. unfold demo_predict, bind.
  destruct (_read_yaml_config config_file w) as [[config|e] w0] eqn:Eread;
    [|reflexivity].
  destruct (keeps_read_yaml_config _ _ _ _ Eread) as [_ A0].
  destruct (_create_input_space config original_data output_path
              feature_engineering metadata_parser_class_name metadata_path w0)
    as [[created|e] w1] eqn:Ebuild; [|reflexivity].
  destruct (keeps_create_input_space _ _ _ _ _ _ _ _ _ Ebuild) as [_ A1].
  apply run_from_a_directory. now rewrite A1, A0.
Qed.

(** X10.  What a whole run of the pipeline touches.  Without an output
    path [demo_predict] raises [ValueError] before it reads or writes
    anything.  With one, and with the estimators in a plain directory,
    whatever the outcome, it writes no configuration file, removes no CSV
    file, and changes CSV files only under the output path and only under
    the names of its outputs: the input-space file, the file of a target,
    the consolidated file, the ground-truth file and the copy of the
    original data.  It changes no table object that exists when it starts,
    the historical data included, and it leaves the directories of
    estimators as they are.  When the configuration file is missing it
    raises [FileNotFoundError] and changes nothing. *)
Theorem pipeline_writes_only_its_outputs (original_data : option loc)
    (config_file estimator_path : string)
    (feature_engineering : option (dict string))
    (metadata_parser_class_name metadata_path output_path : option string)
    (w w' : world) (r : result unit) :
  archives w !! estimator_path = None →
  demo_predict original_data config_file estimator_path feature_engineering
    metadata_parser_class_name metadata_path output_path w = (r, w') →
  match output_path with
  | None => r = Raise ValueError ∧ w' = w
  | Some out =>
      yaml_files w' = yaml_files w ∧
      folders w' = folders w ∧ archives w' = archives w ∧
      (∀ p, is_Some (csv_files w !! p) → is_Some (csv_files w' !! p)) ∧
      (∀ p, ¬ pipeline_output out p → csv_files w' !! p = csv_files w !! p) ∧
      (∀ l, is_Some (frames w !! l) → frames w' !! l = frames w !! l) ∧
      (yaml_files w !! config_file = None →
       r = Raise FileNotFoundError ∧ w' = w)
  end.
Proof.
  intros Hplain Hrun.
  destruct output_path as [out|];
    [|unfold demo_predict, raise in Hrun; now injection Hrun as <- <-].
  pose proof Hrun as Hsteps.
  rewrite (demo_predict_from_a_directory _ _ _ _ _ _ _ _ Hplain) in Hsteps.
  unfold demo_predict in Hrun.
  assert (writes_only (pipeline_output out)
            (bind (_read_yaml_config config_file) (λ config,
             bind (_create_input_space config original_data out
                     feature_engineering metadata_parser_class_name
                     metadata_path) (λ created,
             runner_steps original_data (snd created) config
               estimator_path out)))) as Hwrites.
  { apply writes_bind; [apply writes_of_silent; auto with files | intros config].
    apply writes_bind; [|intros created].
    - eapply writes_weaken; [|apply writes_create_input_space].
      intros p Hp. now left.
    - eapply writes_weaken; [|apply writes_runner_steps].
      intros p Hp. now right. }
  assert (keeps_directories
            (bind (_read_yaml_config config_file) (λ config,
             bind (_create_input_space config original_data out
                     feature_engineering metadata_parser_class_name
                     metadata_path) (λ created,
             runner_steps original_data (snd created) config
               estimator_path out)))) as Hkeeps_dirs.
  { apply keeps_bind; [apply keeps_read_yaml_config | intros config].
    apply keeps_bind; [apply keeps_create_input_space | intros created].
    apply keeps_runner_steps. }
  assert (changes_only ∅
            (bind (_read_yaml_config config_file) (λ config,
             bind (_create_input_space config original_data out
                     feature_engineering metadata_parser_class_name
                     metadata_path) (λ created,
             _run_predictions original_data (snd created) config
               estimator_path out)))) as Hchanges.
  { apply changes_bind; [apply changes_read_yaml_config | intros config].
    apply changes_bind; [apply changes_create_input_space | intros created].
    apply changes_run_predictions. }
  destruct (Hwrites _ _ _ Hsteps) as (Hyaml & Hkeeps & Hothers).
  destruct (Hkeeps_dirs _ _ _ Hsteps) as [Hfolders Harchives].
  split; [exact Hyaml|]. split; [exact Hfolders|]. split; [exact Harchives|].
  split; [exact Hkeeps|]. split; [exact Hothers|].
  split.
  - intros l Hl. apply (Hchanges _ _ _ Hrun l); [set_solver | exact Hl].
  - intros Hnone. unfold bind, _read_yaml_config in Hrun.
    rewrite Hnone in Hrun. now injection Hrun as <- <-.
Qed.

End PipelineEffects.

(** X10 on the configuration of the examples, written by hand, with the
    estimators of the examples. *)
Lemma pipeline_writes_only_its_outputs_witness :
  yaml_files (snd (demo_predict None "prediction.yaml" "models" None None None
                     (Some "out") handwritten_world))
  = yaml_files handwritten_world ∧
  frames (snd (demo_predict None "prediction.yaml" "models" None None None
                 (Some "out") handwritten_world)) !! 0
  = frames handwritten_world !! 0.
Proof.
  destruct (pipeline_writes_only_its_outputs None "prediction.yaml" "models" None
              None None (Some "out") handwritten_world _ _ eq_refl
              (surjective_pairing _))
    as (Hyaml & _ & _ & _ & _ & Hframes & _).
  split; [exact Hyaml|]. apply Hframes. now exists input_space_example.
Defined.

Section RunnerOutputs.
Context `{Collaborators}.

Lemma predict_entry_reads_the_input (input_data : loc)
    (estimator_folder output_path : string) (entry : yaml) (w w' : world) :
  predict_entry input_data estimator_folder output_path entry w = (Ok tt, w') →
  is_Some (frames w !! input_data).
Proof.
  intros E. unfold predict_entry in E.
  apply bind_Ok_inv in E as (target & w1 & E1 & E).
  apply lift_inv in E1 as [_ ->].
  apply bind_Ok_inv in E as (gib & w1 & E2 & E).
  apply lift_inv in E2 as [_ ->].
  apply bind_Ok_inv in E as (given & w1 & E3 & E).
  apply lift_inv in E3 as [_ ->].
  apply bind_Ok_inv in E as (estimator_file & w1 & E4 & E).
  assert (w1 = w) as ->.
  { destruct given; [now apply lift_inv in E4 | now apply resolver_inv in E4]. }
  apply bind_Ok_inv in E as (estimator & w1 & E5 & E).
  pose proof (load_estimator_inv _ _ _ _ _ E5) as ->.
  apply bind_Ok_inv in E as (table & w1 & E6 & _).
  apply read_frame_inv in E6 as [E6 _]. now exists table.
Qed.

Lemma loop_leaves_a_file_per_target (input_data : loc)
    (estimator_folder output_path : string) (entries : list yaml) :
  ∀ w w',
    for_each entries (predict_entry input_data estimator_folder output_path) w
    = (Ok tt, w') →
    ∀ entry, In entry entries →
      ∃ target_variable,
        py_getitem entry PRED_CONFIG_TARGET_VAR = Ok (YStr target_variable) ∧
        is_Some (csv_files w' !! per_target_file output_path target_variable).
Proof.
  induction entries as [|e entries IH]; intros w w' E entry Hin; [destruct Hin|].
  simpl in E. apply bind_Ok_inv in E as ([] & w1 & E1 & E).
  destruct Hin as [<-|Hin]; [|now apply (IH w1 w')].
  destruct (predict_entry_reads_the_input _ _ _ _ _ _ E1) as [table Htable].
  destruct (predict_entry_run _ _ _ _ _ _ _ Htable E1)
    as (t & gib & ef & est & yp & wt & cells & xs & tbl
        & Ht & _ & _ & _ & _ & _ & _ & _ & Hcsv & _).
  exists t. split; [exact Ht|].
  pose proof (writes_for_each _ entries _
                (writes_predict_entry input_data estimator_folder output_path))
    as Hloop.
  destruct (Hloop _ _ _ E) as (_ & Hkeeps & _).
  apply Hkeeps. now exists tbl.
Qed.

Lemma merge_leaves_the_consolidated_file (output_path : string) (w w' : world)
    (l : loc) :
  merge_predictions output_path w = (Ok l, w') →
  ∃ table,
    frames w' !! l = Some table ∧
    csv_files w' !! os_path_join output_path PRED_ALL_PREDICTIONS_FILE
    = Some table.
Proof.
  intros E. unfold merge_predictions in E.
  apply bind_Ok_inv in E as (files & w1 & _ & E).
  apply bind_Ok_inv in E as (dfs & w2 & _ & E).
  apply bind_Ok_inv in E as (x & w3 & _ & E).
  apply bind_Ok_inv in E as (table & w4 & E1 & E).
  apply read_frame_inv in E1 as [_ ->].
  unfold bind at 1, new_frame at 1 in E.
  erewrite bind_Ok in E;
    [|apply write_df_to_csv_run; simpl; apply lookup_insert_eq].
  unfold ret in E. injection E as <- <-. simpl.
  exists (df_drop_unnamed table). split; apply lookup_insert_eq.
Qed.

(** An entry that is a string is refused: only a mapping has a target. *)
Lemma predict_entry_of_a_string (input_data : loc)
    (estimator_folder output_path : string) (s : string) (w : world) :
  predict_entry input_data estimator_folder output_path (YStr s) w
  = (Raise TypeError, w).
Proof. reflexivity. Qed.

(** The entries of an estimator configuration whose loop completes: it is
    a sequence, or it has no entry. *)
Lemma completed_loop_entries (input_data : loc)
    (estimator_folder output_path : string) (estimators : yaml)
    (entries : list yaml) (w w' : world) :
  py_iter estimators = Ok entries →
  for_each entries (predict_entry input_data estimator_folder output_path) w
  = (Ok tt, w') →
  estimators = YSeq entries ∨ entries = [].
Proof.
  intros Hiter Hloop.
  destruct estimators as [| | | |s|items|items]; try discriminate;
    injection Hiter as <-.
  - destruct (list_ascii_of_string s) as [|c l]; [now right|].
    simpl in Hloop. unfold bind in Hloop.
    rewrite predict_entry_of_a_string in Hloop. discriminate.
  - now left.
  - destruct items as [|[k v] items]; [now right|].
    simpl in Hloop. unfold bind in Hloop.
    rewrite predict_entry_of_a_string in Hloop. discriminate.
Qed.

(** X11.  What a completed run leaves behind.  When [_run_predictions]
    returns, with the estimators in a plain directory, the estimator
    configuration is a sequence of entries, or a mapping or a string
    without any entry; for each of its entries the output directory holds
    the file [predictions-<target>.csv] of the target of the entry, and it
    holds the consolidated file. *)
Theorem completed_run_leaves_its_outputs (original_data : option loc)
    (input_data : loc) (estimators_config : Config)
    (estimator_path output_path : string) (w w' : world) :
  archives w !! estimator_path = None →
  _run_predictions original_data input_data estimators_config estimator_path
    output_path w = (Ok tt, w') →
  ∃ entries,
    py_iter (cfg_estimators estimators_config) = Ok entries ∧
    (cfg_estimators estimators_config = YSeq entries ∨ entries = []) ∧
    (∀ entry, In entry entries →
       ∃ target_variable,
         py_getitem entry PRED_CONFIG_TARGET_VAR = Ok (YStr target_variable) ∧
         is_Some (csv_files w' !! per_target_file output_path target_variable)) ∧
    is_Some (csv_files w'
               !! os_path_join output_path PRED_ALL_PREDICTIONS_FILE).
Proof.
  intros Hplain E. rewrite (run_from_a_directory _ _ _ _ _ _ Hplain) in E.
  unfold runner_steps in E.
  apply bind_Ok_inv in E as (entries & w3 & E1 & E).
  apply lift_inv in E1 as [E1 ->]. symmetry in E1.
  apply bind_Ok_inv in E as ([] & w3 & Eloop & E).
  apply bind_Ok_inv in E as (l & w4 & Emerge & E).
  destruct (writes_reconcile original_data input_data l output_path _ _ _ E)
    as (_ & Hkeeps & _).
  exists entries. split; [exact E1|].
  split; [exact (completed_loop_entries _ _ _ _ _ _ _ E1 Eloop)|]. split.
  - intros entry Hin.
    destruct (loop_leaves_a_file_per_target _ _ _ _ _ _ Eloop entry Hin)
      as (t & Ht & Hfile).
    exists t. split; [exact Ht|]. apply Hkeeps.
    destruct (writes_merge_predictions output_path _ _ _ Emerge)
      as (_ & Hkeeps' & _).
    now apply Hkeeps'.
  - apply Hkeeps.
    destruct (merge_leaves_the_consolidated_file _ _ _ _ Emerge)
      as (table & _ & Hfile).
    now exists table.
Qed.

End RunnerOutputs.

(** X11 on the run for the two targets of the examples. *)
Lemma completed_run_leaves_its_outputs_witness :
  ∃ entries,
    py_iter (cfg_estimators cfg_two_targets) = Ok entries ∧
    (cfg_estimators cfg_two_targets = YSeq entries ∨ entries = []) ∧
    (∀ entry, In entry entries →
       ∃ target_variable,
         py_getitem entry PRED_CONFIG_TARGET_VAR = Ok (YStr target_variable) ∧
         is_Some (csv_files (snd two_targets_run)
                    !! per_target_file "out" target_variable)) ∧
    is_Some (csv_files (snd two_targets_run)
               !! os_path_join "out" PRED_ALL_PREDICTIONS_FILE).
Proof.
  apply (completed_run_leaves_its_outputs None 0%nat cfg_two_targets "models"
           "out" world_with_models).
  - reflexivity.
  - vm_compute. reflexivity.
Defined.

Lemma append_inj_l (a b c : string) : a +:+ b = a +:+ c → b = c.
Proof.
  induction a as [|x a IH]; [now rewrite !append_nil_l|].
  rewrite !append_cons. intros [= E]. now apply IH.
Qed.

Lemma per_target_file_relative (output_path target_variable : string) :
  per_target_file output_path target_variable
  = os_path_join output_path ""
    +:+ ("predictions-" +:+ target_variable +:+ ".csv").
Proof.
  unfold per_target_file. apply os_path_join_relative.
  unfold str_startswith. now rewrite append_cons.
Qed.

(** The file of a target is not the consolidated file. *)
Lemma per_target_file_is_not_consolidated (output_path target_variable : string) :
  per_target_file output_path target_variable
  ≠ os_path_join output_path PRED_ALL_PREDICTIONS_FILE.
Proof.
  rewrite per_target_file_relative.
  rewrite (os_path_join_relative output_path PRED_ALL_PREDICTIONS_FILE)
    by reflexivity.
  intros E. apply append_inj_l in E. rewrite append_cons in E. discriminate.
Qed.

Lemma for_each_app {A} (xs ys : list A) (body : A → M unit) (w w1 : world) :
  for_each xs body w = (Ok tt, w1) →
  for_each (xs ++ ys) body w = for_each ys body w1.
Proof.
  revert w. induction xs as [|x xs IH]; intros w E; simpl in *.
  - unfold ret in E. now injection E as <-.
  - apply bind_Ok_inv in E as ([] & w2 & E1 & E).
    rewrite (bind_Ok _ _ _ _ _ E1). now apply IH.
Qed.

Section FailingTarget.
Context `{Collaborators}.

(** X12.  Targets are not isolated from one another.  When the entry of
    a target fails, with the estimators in a plain directory, the run stops
    with the exception of that entry: the entries after it are not
    processed, nothing is merged and the consolidated file is left as it
    was before the run.  The failing entry writes nothing, and the files of
    the targets that were processed before it stay in the output
    directory. *)
Theorem a_failing_target_stops_the_run (original_data : option loc)
    (input_data : loc) (estimators_config : Config)
    (estimator_path output_path : string)
    (before after : list yaml) (bad : yaml) (w w1 w2 : world) (e : error) :
  cfg_estimators estimators_config = YSeq (before ++ bad :: after) →
  archives w !! estimator_path = None →
  for_each before (predict_entry input_data estimator_path output_path) w
  = (Ok tt, w1) →
  predict_entry input_data estimator_path output_path bad w1 = (Raise e, w2) →
  _run_predictions original_data input_data estimators_config estimator_path
    output_path w = (Raise e, w2) ∧
  csv_files w2 = csv_files w1 ∧
  (∀ entry, In entry before →
     ∃ target_variable,
       py_getitem entry PRED_CONFIG_TARGET_VAR = Ok (YStr target_variable) ∧
       is_Some (csv_files w2 !! per_target_file output_path target_variable)) ∧
  csv_files w2 !! os_path_join output_path PRED_ALL_PREDICTIONS_FILE
  = csv_files w !! os_path_join output_path PRED_ALL_PREDICTIONS_FILE.
Proof.
  intros Hcfg Hplain Hbefore Hbad.
  pose proof (fails_silently_predict_entry _ _ _ _ _ _ _ Hbad) as Hsame.
  split; [|split; [exact Hsame|split]].
  - unfold _run_predictions, bind at 1, is_zipfile. rewrite Hplain.
    rewrite bool_decide_eq_false_2 by (intros [? [=]]).
    unfold bind at 1, ret at 1. unfold run_in_folder. rewrite Hcfg.
    unfold bind at 1, lift at 1. simpl py_iter. cbv iota beta.
    erewrite bind_Raise; [reflexivity|].
    rewrite (for_each_app _ _ _ _ _ Hbefore). simpl.
    now rewrite (bind_Raise _ _ _ _ _ Hbad).
  - intros entry Hin. rewrite Hsame.
    apply (loop_leaves_a_file_per_target _ _ _ _ _ _ Hbefore entry Hin).
  - rewrite Hsame.
    pose proof (writes_for_each _ before _
                  (writes_predict_entry input_data estimator_path output_path))
      as Hloop.
    destruct (Hloop _ _ _ Hbefore) as (_ & _ & Hothers).
    apply Hothers. intros [t Ht]. symmetry in Ht.
    now apply per_target_file_is_not_consolidated in Ht.
Qed.

End FailingTarget.

(** X12 on the examples: the estimator of the second target, [energy], is
    missing; the file of the first target, [speed], is there. *)
Lemma a_failing_target_stops_the_run_witness :
  fst (_run_predictions None 0 cfg_missing_estimator "models" "out"
         world_with_models) = Raise FileNotFoundError ∧
  is_Some (csv_files (snd (_run_predictions None 0 cfg_missing_estimator
                             "models" "out" world_with_models))
             !! per_target_file "out" "speed") ∧
  csv_files (snd (_run_predictions None 0 cfg_missing_estimator "models" "out"
                    world_with_models))
    !! os_path_join "out" PRED_ALL_PREDICTIONS_FILE = None.
Proof.
  destruct (a_failing_target_stops_the_run None 0%nat cfg_missing_estimator
              "models" "out" [estimator_entry "speed" "speed.pkl"] []
              (estimator_entry "energy" "energy.pkl") world_with_models
              (snd (predict_entry 0%nat "models" "out"
                      (estimator_entry "speed" "speed.pkl") world_with_models))
              (snd (predict_entry 0%nat "models" "out"
                      (estimator_entry "speed" "speed.pkl") world_with_models))
              FileNotFoundError)
    as (Hrun & _ & Hfiles & Hall).
  - reflexivity.
  - reflexivity.
  - vm_compute. reflexivity.
  - vm_compute. reflexivity.
  - rewrite Hrun. simpl. split; [reflexivity|]. split.
    + destruct (Hfiles (estimator_entry "speed" "speed.pkl") (or_introl eq_refl))
        as (t & Ht & Hfile).
      injection Ht as <-. exact Hfile.
    + rewrite Hall. reflexivity.
Defined.

(** ** More on the merge step *)

Lemma read_predictions_all_ignored (files : list string) (dfs : list loc)
    (w : world) :
  join_inputs files = [] → read_predictions files dfs w = (Ok dfs, w).
Proof.
  unfold join_inputs. induction files as [|f files IH]; simpl; [reflexivity|].
  destruct (ignored f); simpl; [exact IH | discriminate].
Qed.

Lemma glob_join_inputs `{Collaborators} (output_path : string) (w : world) :
  has_magic output_path = false →
  ∃ files,
    glob_predictions output_path w = (Ok files, w) ∧
    (∀ f, In f files → is_Some (csv_files w !! f)) ∧
    List.NoDup (join_inputs files) ∧
    ∀ p, In p (join_inputs files) ↔ merge_input output_path w p.
Proof.
  intros Hplain.
  destruct (glob_predictions_run output_path w Hplain)
    as (files & Hglob & Hnd & Hfiles).
  exists files. split; [exact Hglob|]. split.
  - intros f Hf. now apply Hfiles in Hf as [? _].
  - split; [now apply List.NoDup_filter|].
    intros p. rewrite join_inputs_In, Hfiles. unfold merge_input. tauto.
Qed.

Lemma singleton_list {A} (l : list A) (x : A) :
  List.NoDup l → (∀ y, In y l ↔ y = x) → l = [x].
Proof.
  intros Hnd Hin. destruct l as [|a l].
  - exfalso. now apply (Hin x).
  - assert (a = x) as -> by (apply Hin; now left).
    destruct l as [|b l]; [reflexivity|].
    assert (b = x) as -> by (apply Hin; right; now left).
    apply List.NoDup_cons_iff in Hnd as [Hnot _]. exfalso. apply Hnot. now left.
Qed.

Lemma drop_unnamed_columns (df : DataFrame) :
  columns (df_drop_unnamed df)
  = List.filter (λ c, negb (str_startswith "Unnamed" c)) (columns df).
Proof.
  unfold df_drop_unnamed. simpl.
  induction (columns df) as [|c cols IH]; [reflexivity|].
  simpl. destruct (negb (str_startswith "Unnamed" c)); simpl; now rewrite IH.
Qed.

Lemma pick_length {A} (f : string → bool) (names : list string) (xs : list A) :
  length xs = length names →
  length (List.filter (λ p : bool * A, fst p) (combine (map f names) xs))
  = length (List.filter f names).
Proof.
  revert xs. induction names as [|n names IH]; intros [|x xs] Hlen;
    simpl in Hlen; try discriminate; [reflexivity|].
  simpl. destruct (f n); simpl; rewrite IH by lia; reflexivity.
Qed.

Lemma drop_unnamed_well_formed (df : DataFrame) :
  well_formed df → well_formed (df_drop_unnamed df).
Proof.
  unfold well_formed. intros Hwf. rewrite drop_unnamed_columns.
  unfold df_drop_unnamed. simpl. apply Forall_map.
  eapply Forall_impl; [exact Hwf|]. simpl. intros r Hr.
  rewrite length_map. now apply pick_length.
Qed.

Section MergeProperties.
Context `{Collaborators}.

(** X13.  A run with nothing to merge fails.  With the estimators in a
    plain directory, an empty list of estimator entries and an output
    directory, under a path without special characters of [glob], that
    holds no prediction file to read, [_run_predictions] raises
    [TypeError], the error of [reduce] on an empty list, and leaves
    everything as it was. *)
Theorem run_with_nothing_to_merge_raises (original_data : option loc)
    (input_data : loc) (estimators_config : Config)
    (estimator_path output_path : string) (w : world) :
  cfg_estimators estimators_config = YSeq [] →
  archives w !! estimator_path = None →
  has_magic output_path = false →
  (∀ p, ¬ merge_input output_path w p) →
  merge_predictions output_path w = (Raise TypeError, w) ∧
  _run_predictions original_data input_data estimators_config estimator_path
    output_path w = (Raise TypeError, w).
Proof.
  intros Hcfg Hplain Hpath Hnone.
  assert (merge_predictions output_path w = (Raise TypeError, w)) as Hmerge.
  { destruct (glob_join_inputs output_path w Hpath)
      as (files & Hglob & _ & _ & Hin).
    assert (join_inputs files = []) as Hempty.
    { destruct (join_inputs files) as [|p l] eqn:E; [reflexivity|].
      exfalso. apply (Hnone p), Hin. now left. }
    unfold merge_predictions.
    rewrite (bind_Ok _ _ _ _ _ Hglob).
    rewrite (bind_Ok _ _ _ _ _ (read_predictions_all_ignored _ _ _ Hempty)).
    reflexivity. }
  split; [exact Hmerge|].
  unfold _run_predictions, bind at 1, is_zipfile. rewrite Hplain.
  rewrite bool_decide_eq_false_2 by (intros [? [=]]).
  unfold bind at 1, ret at 1. unfold run_in_folder. rewrite Hcfg.
  unfold bind at 1, lift at 1. simpl py_iter. cbv iota beta.
  simpl for_each. unfold bind at 1, ret at 1.
  now rewrite (bind_Raise _ _ _ _ _ Hmerge).
Qed.

(** X14.  The merge of a single file.  When the output directory, under a
    path without special characters of [glob], holds exactly one
    prediction file to read, nothing is joined: the consolidated table is
    the table of that file without the columns whose name starts with
    [Unnamed], in a new object, and it is what the consolidated file holds;
    no other file is written. *)
Theorem merge_of_a_single_file (output_path : string) (w : world)
    (filename : string) (table : DataFrame) :
  has_magic output_path = false →
  csv_files w !! filename = Some table →
  (∀ p, merge_input output_path w p ↔ p = filename) →
  ∃ l w',
    merge_predictions output_path w = (Ok l, w') ∧
    frames w !! l = None ∧
    frames w' !! l = Some (df_drop_unnamed table) ∧
    csv_files w'
    = <[os_path_join output_path PRED_ALL_PREDICTIONS_FILE :=
          df_drop_unnamed table]> (csv_files w) ∧
    columns (df_drop_unnamed table)
    = List.filter (λ c, negb (str_startswith "Unnamed" c)) (columns table) ∧
    length (rows (df_drop_unnamed table)) = length (rows table) ∧
    (well_formed table → well_formed (df_drop_unnamed table)).
Proof.
  intros Hpath Htable Honly.
  destruct (glob_join_inputs output_path w Hpath)
    as (files & Hglob & Hex & Hnd & Hin).
  assert (join_inputs files = [filename]) as Hone.
  { apply singleton_list; [exact Hnd|]. intros p. now rewrite Hin. }
  destruct (read_predictions_run files [] w Hex)
    as (new & w1 & Hread & Hcsv & Hsub & Hall).
  rewrite Hone in Hall. apply Forall2_cons_inv_r in Hall
    as (l0 & rest & Hl0 & Hrest & ->).
  apply Forall2_nil_inv_r in Hrest as ->.
  rewrite Htable in Hl0.
  set (l := fresh (dom (frames w1))).
  exists l. eexists. split; [|split; [|split; [|split; [|split; [|split]]]]].
  - unfold merge_predictions.
    rewrite (bind_Ok _ _ _ _ _ Hglob), (bind_Ok _ _ _ _ _ Hread).
    simpl app. cbv iota. simpl reduce_merge.
    unfold bind at 1, ret at 1.
    rewrite (bind_Ok _ _ _ _ _ (read_frame_run _ _ _ Hl0)).
    unfold bind at 1, new_frame at 1. fold l.
    erewrite bind_Ok;
      [|apply write_df_to_csv_run; simpl; apply lookup_insert_eq].
    reflexivity.
  - eapply lookup_weaken_None; [apply fresh_frame | exact Hsub].
  - simpl. apply lookup_insert_eq.
  - simpl. now rewrite Hcsv.
  - apply drop_unnamed_columns.
  - unfold df_drop_unnamed. simpl. apply length_map.
  - apply drop_unnamed_well_formed.
Qed.

End MergeProperties.

(** X13 on the configuration of the example, which has no estimator entry,
    with an output directory that holds no file. *)
Lemma run_with_nothing_to_merge_raises_witness :
  _run_predictions None 0 cfg_example "models" "out" world_with_models
  = (Raise TypeError, world_with_models).
Proof.
  apply (run_with_nothing_to_merge_raises None 0%nat cfg_example "models" "out"
           world_with_models eq_refl eq_refl eq_refl).
  intros p [[t Ht] _]. simpl in Ht. rewrite lookup_empty in Ht. discriminate.
Defined.

(** X14 on an output directory that holds the predictions of one target. *)
Lemma merge_of_a_single_file_witness :
  ∃ l w',
    merge_predictions "out" world_with_predictions = (Ok l, w') ∧
    frames w' !! l = Some (df_drop_unnamed predictions_example) ∧
    csv_files w' !! "out/all-predictions.csv"
    = Some (df_drop_unnamed predictions_example).
Proof.
  destruct (merge_of_a_single_file "out" world_with_predictions
              "out/predictions-t.csv" predictions_example)
    as (l & w' & Hrun & _ & Hframe & Hcsv & _).
  - reflexivity.
  - reflexivity.
  - intros p. split.
    + intros [[t Ht] _]. simpl in Ht.
      destruct (decide (p = "out/predictions-t.csv")) as [->|Hne];
        [reflexivity|].
      rewrite lookup_singleton_ne in Ht by congruence. discriminate.
    + intros ->. split; [now exists predictions_example|].
      split; [|reflexivity]. now exists "predictions-t.csv".
  - exists l, w'. split; [exact Hrun|]. split; [exact Hframe|].
    rewrite Hcsv. apply lookup_insert_eq.
Defined.
(** ** More on the comparison with the original data *)

Lemma write_df_to_csv_inv (df : loc) (output_path output_file : string)
    (w w' : world) (r : result string) :
  write_df_to_csv df output_path output_file w = (r, w') →
  (∃ table,
     frames w !! df = Some table ∧
     r = Ok (os_path_join output_path output_file) ∧
     w' = set_csv_files
            (<[os_path_join output_path output_file := table]> (csv_files w)) w)
  ∨ (frames w !! df = None ∧ r = Raise KeyError ∧ w' = w).
Proof.
  unfold write_df_to_csv, bind, read_frame.
  destruct (frames w !! df) as [table|]; intros [= <- <-].
  - left. now exists table.
  - now right.
Qed.

Section ReconcileProperties.
Context `{Collaborators}.

(** X15.  When the comparison with the original data is made.  Without
    historical data, or with historical data that is empty, the step does
    nothing.  Otherwise the historical data is joined with the consolidated
    predictions on the columns of the input space; when the join is empty
    nothing is written; when it is not, the ground-truth file is written and
    the historical data is written, as it is, to the file of the original
    data, and these are the only files written.  The historical data object
    is left as it is.  When the step raises, it has written no file. *)
Theorem reconciliation_needs_history (original_data : option loc)
    (input_data all_predictions_df : loc) (output_path : string)
    (w w' : world) (r : result unit) :
  reconcile original_data input_data all_predictions_df output_path w = (r, w') →
  match original_data with
  | None => r = Ok tt ∧ w' = w
  | Some od =>
      ∀ data, frames w !! od = Some data →
        if df_empty data then r = Ok tt ∧ w' = w
        else
          match r with
          | Raise _ => csv_files w' = csv_files w
          | Ok _ =>
              ∃ predictions input_table merged,
                frames w !! all_predictions_df = Some predictions ∧
                frames w !! input_data = Some input_table ∧
                pd_merge_on data predictions (columns input_table) = Ok merged ∧
                if df_empty merged then w' = w
                else
                  frames w' !! od = Some data ∧
                  csv_files w'
                    !! os_path_join output_path PRED_ORIGINAL_TRUTH_FILE
                  = Some data ∧
                  is_Some (csv_files w'
                             !! os_path_join output_path PRED_GROUND_TRUTH_FILE) ∧
                  ∀ p, p ≠ os_path_join output_path PRED_ORIGINAL_TRUTH_FILE →
                       p ≠ os_path_join output_path PRED_GROUND_TRUTH_FILE →
                       csv_files w' !! p = csv_files w !! p
          end
  end.
Proof.
  intros Hrun. unfold reconcile in Hrun.
  destruct original_data as [od|];
    [|unfold ret in Hrun; now injection Hrun as <- <-].
  intros data Hdata.
  rewrite (bind_Ok _ _ _ _ _ (read_frame_run _ _ _ Hdata)) in Hrun.
  destruct (df_empty data) eqn:He;
    [unfold ret in Hrun; now injection Hrun as <- <-|].
  apply bind_inv in Hrun as [(e & E & ->)|(predictions & w1 & E & Hrun)].
  { unfold read_frame in E. now step_by_step E. }
  apply read_frame_inv in E as [Hpred ->].
  apply bind_inv in Hrun as [(e & E & ->)|(input_table & w1 & E & Hrun)].
  { unfold read_frame in E. now step_by_step E. }
  apply read_frame_inv in E as [Hinput ->].
  apply bind_inv in Hrun as [(e & E & ->)|(merged & w1 & E & Hrun)];
    apply lift_inv in E as [Hmerged ->]; [reflexivity|].
  symmetry in Hmerged.
  destruct (df_empty merged) eqn:Hme.
  { unfold ret in Hrun. injection Hrun as <- <-.
    exists predictions, input_table, merged. now rewrite Hme. }
  unfold bind at 1, new_frame at 1 in Hrun.
  set (l2 := fresh (dom (frames w))) in *.
  set (w1 := set_frames (<[l2 := df_drop_unnamed merged]> (frames w)) w) in *.
  assert (od ≠ l2) as Hfresh.
  { intros ->. unfold l2 in Hdata. rewrite fresh_frame in Hdata. discriminate. }
  assert (frames w1 !! od = Some data) as Hod1
    by (simpl; now rewrite lookup_insert_ne).
  match type of Hrun with
  | bind (for_each ?xs ?body) _ _ = _ =>
      assert (silent (for_each xs body)) as Hsilent by silent_all;
      assert (changes_only {[l2]} (for_each xs body)) as Hchanges
        by changes_all
  end.
  apply bind_inv in Hrun as [(e & E & ->)|([] & w2 & E & Hrun)].
  { now destruct (Hsilent _ _ _ E) as [-> _]. }
  destruct (Hsilent _ _ _ E) as [Hcsv2 _].
  assert (frames w2 !! od = Some data) as Hod2.
  { rewrite (Hchanges _ _ _ E od); [exact Hod1 | set_solver | now rewrite Hod1]. }
  clear E Hsilent Hchanges.
  apply bind_inv in Hrun as [(e & E & ->)|(p1 & w3 & E & Hrun)].
  { apply write_df_to_csv_inv in E as [(t & _ & [=] & _)|(_ & _ & ->)].
    exact Hcsv2. }
  apply write_df_to_csv_inv in E as [(gt & Hgt & _ & ->)|(_ & [=] & _)].
  erewrite bind_Ok in Hrun; [|apply write_df_to_csv_run; exact Hod2].
  unfold ret in Hrun. injection Hrun as <- <-.
  exists predictions, input_table, merged. rewrite Hme.
  split; [exact Hpred|]. split; [exact Hinput|]. split; [exact Hmerged|].
  simpl. rewrite Hcsv2. simpl.
  split; [exact Hod2|]. split; [apply lookup_insert_eq|]. split.
  - destruct (decide (os_path_join output_path PRED_ORIGINAL_TRUTH_FILE
                      = os_path_join output_path PRED_GROUND_TRUTH_FILE))
      as [->|Hne].
    + rewrite lookup_insert_eq. eauto.
    + rewrite lookup_insert_ne by exact Hne. rewrite lookup_insert_eq. eauto.
  - intros p Hp1 Hp2. now rewrite !lookup_insert_ne by congruence.
Qed.
End ReconcileProperties.

(** X15 on the history and the predictions of the example, with the
    stand-in that joins them: the history is written as it is. *)
Lemma reconciliation_needs_history_witness :
  fst (@reconcile joining_collaborators (Some 0%nat) 2 1 "out" world_with_history)
  = Ok tt ∧
  csv_files (snd (@reconcile joining_collaborators (Some 0%nat) 2 1 "out"
                    world_with_history)) !! "out/original-data.csv"
  = Some history_with_target.
Proof.
  pose proof (@reconciliation_needs_history joining_collaborators (Some 0%nat)
                2%nat 1%nat "out" world_with_history _ _ (surjective_pairing _)
                history_with_target eq_refl) as Hstep.
  assert (fst (@reconcile joining_collaborators (Some 0%nat) 2 1 "out"
                 world_with_history) = Ok tt) as Hrun by (vm_compute; reflexivity).
  change (df_empty history_with_target) with false in Hstep.
  rewrite Hrun in Hstep. split; [exact Hrun|].
  destruct Hstep as (predictions & input_table & merged & _ & _ & Hm & Hrest).
  injection Hm as <-.
  change (df_empty joined_example) with false in Hrest.
  destruct Hrest as (_ & Hfile & _). exact Hfile.
Defined.

(** ** Entries of the estimator configuration *)

Lemma ignores_ret {A} (folder : string) (a : A) : ignores_rankings folder (ret a).
Proof. intros table w. reflexivity. Qed.

Lemma ignores_lift {A} (folder : string) (x : result A) :
  ignores_rankings folder (lift x).
Proof. intros table w. reflexivity. Qed.

Lemma ignores_bind {A B} (folder : string) (m : M A) (k : A → M B) :
  ignores_rankings folder m → (∀ a, ignores_rankings folder (k a)) →
  ignores_rankings folder (bind m k).
Proof.
  intros Hm Hk table w. unfold bind. rewrite Hm.
  destruct (m w) as [[a|e] w1]; simpl; [apply Hk | reflexivity].
Qed.

Lemma ignores_bind_lift {A B} (folder : string) (x : result A) (k : A → M B) :
  (∀ a, x = Ok a → ignores_rankings folder (k a)) →
  ignores_rankings folder (bind (lift x) k).
Proof.
  intros Hk table w. unfold bind, lift.
  destruct x as [a|e]; [now apply Hk | reflexivity].
Qed.

Lemma ignores_read_frame (folder : string) (l : loc) :
  ignores_rankings folder (read_frame l).
Proof.
  intros table w. unfold read_frame. simpl. now destruct (frames w !! l).
Qed.

Lemma ignores_new_frame (folder : string) (df : DataFrame) :
  ignores_rankings folder (new_frame df).
Proof. intros table w. reflexivity. Qed.

Lemma ignores_update_frame (folder : string) (l : loc)
    (f : DataFrame → result DataFrame) :
  ignores_rankings folder (update_frame l f).
Proof.
  unfold update_frame.
  apply ignores_bind; [apply ignores_read_frame | intros df].
  apply ignores_bind; [apply ignores_lift | intros df'].
  intros table w. reflexivity.
Qed.

Lemma ignores_frame_copy (folder : string) (l : loc) :
  ignores_rankings folder (frame_copy l).
Proof.
  unfold frame_copy.
  apply ignores_bind; [apply ignores_read_frame | intros df].
  apply ignores_new_frame.
Qed.

Lemma ignores_write_df_to_csv (folder : string) (df : loc)
    (output_path output_file : string) :
  ignores_rankings folder (write_df_to_csv df output_path output_file).
Proof.
  unfold write_df_to_csv.
  apply ignores_bind; [apply ignores_read_frame | intros table'].
  intros table w. reflexivity.
Qed.

Lemma ignores_rank_predictions (folder : string) (data : loc)
    (target_column : string) (gib : bool) :
  ignores_rankings folder (_rank_predictions data target_column gib).
Proof.
  unfold _rank_predictions.
  apply ignores_bind; [apply ignores_update_frame | intros _; apply ignores_ret].
Qed.

Lemma ignores_load_estimator (folder pickle_file : string) :
  ignores_rankings folder (load_estimator folder pickle_file).
Proof.
  intros table w. unfold load_estimator. simpl. rewrite lookup_alter_eq.
  destruct (folders w !! folder) as [d|]; simpl; [|reflexivity].
  now destruct (pickle_files d !! pickle_file).
Qed.

Lemma dict_get_app_l {V} (k : string) (v : V) (d more : dict V) :
  dict_get k d = Some v → dict_get k (d ++ more) = Some v.
Proof.
  induction d as [|[k0 v0] d IH]; simpl; [discriminate|].
  destruct (String.eqb k0 k); [easy | exact IH].
Qed.

Lemma dict_get_None_keys {V} (k : string) (d : dict V) :
  dict_get k d = None → existsb (String.eqb k) (dict_keys d) = false.
Proof.
  intros Hnone. destruct (existsb _ _) eqn:E; [|reflexivity].
  apply existsb_eqb_In, dict_get_keys in E as [v Hv]. congruence.
Qed.

Lemma py_getitem_map (entries : list (string * yaml)) (key : string) :
  py_getitem (YMap entries) key
  = match dict_get key entries with
    | Some v => Ok v
    | None => Raise KeyError
    end.
Proof. reflexivity. Qed.

Lemma py_contains_map (entries : list (string * yaml)) (key : string) :
  py_contains key (YMap entries)
  = Ok (existsb (String.eqb key) (dict_keys entries)).
Proof. reflexivity. Qed.

Lemma bind_lift_Ok {A B} (a : A) (k : A → M B) (w : world) :
  bind (lift (Ok a)) k w = k a w.
Proof. reflexivity. Qed.

Lemma dict_get_cons {V} (k k0 : string) (v0 : V) (d : dict V) :
  dict_get k ((k0, v0) :: d)
  = if String.eqb k0 k then Some v0 else dict_get k d.
Proof. reflexivity. Qed.

Section EntryProperties.
Context `{Collaborators}.

(** X16.  An entry that names its estimator file bypasses the ranking.
    When the entry has the key [estimator_file], the iteration for it does
    the same, with the same outcome, the same tables and the same files,
    whatever the ranking file of the estimator directory holds and whether
    or not there is one. *)
Theorem explicit_estimator_file_bypasses_the_ranking (input_data : loc)
    (estimator_folder output_path : string) (entry : yaml)
    (table : option (list ranking_row)) (w : world) :
  py_contains PRED_CONFIG_ESTIMATOR_FILE entry = Ok true →
  predict_entry input_data estimator_folder output_path entry
    (with_rankings estimator_folder table w)
  = (fst (predict_entry input_data estimator_folder output_path entry w),
     with_rankings estimator_folder table
       (snd (predict_entry input_data estimator_folder output_path entry w))).
Proof.
  intros Hgiven. revert table w.
  change (ignores_rankings estimator_folder
            (predict_entry input_data estimator_folder output_path entry)).
  unfold predict_entry.
  apply ignores_bind; [apply ignores_lift | intros target_variable].
  apply ignores_bind; [apply ignores_lift | intros greater_is_better].
  apply ignores_bind_lift. intros given Hg.
  rewrite Hgiven in Hg. injection Hg as <-.
  apply ignores_bind; [apply ignores_lift | intros estimator_file].
  apply ignores_bind; [apply ignores_load_estimator | intros estimator].
  apply ignores_bind; [apply ignores_read_frame | intros input_table].
  apply ignores_bind; [apply ignores_lift | intros y_pred].
  apply ignores_bind; [apply ignores_frame_copy | intros predictions_df].
  apply ignores_bind; [apply ignores_update_frame | intros _].
  apply ignores_bind; [apply ignores_rank_predictions | intros ranked].
  apply ignores_bind; [apply ignores_write_df_to_csv | intros path].
  apply ignores_ret.
Qed.

(** X17.  An entry without [estimator_file] uses the estimator that the
    resolver names.  When the entry names no estimator file and the
    resolver returns a file name for its target, the iteration does what it
    does for the same entry with that file name under [estimator_file].
    When the resolver raises, the iteration raises the same exception and
    nothing is written or changed. *)
Theorem resolved_estimator_is_used_as_if_named (input_data : loc)
    (estimator_folder output_path : string) (entries : list (string * yaml))
    (target_variable : string) (greater_is_better : yaml) (w : world) :
  dict_get PRED_CONFIG_TARGET_VAR entries = Some (YStr target_variable) →
  dict_get PRED_CONFIG_GREATER_BETTER entries = Some greater_is_better →
  dict_get PRED_CONFIG_ESTIMATOR_FILE entries = None →
  match _get_highest_ranked_estimator estimator_folder target_variable w with
  | (Ok estimator_file, _) =>
      predict_entry input_data estimator_folder output_path (YMap entries) w
      = predict_entry input_data estimator_folder output_path
          (YMap (entries ++ [(PRED_CONFIG_ESTIMATOR_FILE, YStr estimator_file)]))
          w
  | (Raise e, _) =>
      predict_entry input_data estimator_folder output_path (YMap entries) w
      = (Raise e, w)
  end.
Proof.
  intros Ht Hg Hfile.
  destruct (_get_highest_ranked_estimator estimator_folder target_variable w)
    as [[estimator_file|e] w1] eqn:E;
    pose proof (resolver_inv _ _ _ _ _ E) as ->.
  - assert (dict_get PRED_CONFIG_ESTIMATOR_FILE
              (entries ++ [(PRED_CONFIG_ESTIMATOR_FILE, YStr estimator_file)])
            = Some (YStr estimator_file)) as Hnamed.
    { clear -Hfile. induction entries as [|[k v] entries IH]; [reflexivity|].
      rewrite <- app_comm_cons. rewrite dict_get_cons in *.
      destruct (String.eqb k PRED_CONFIG_ESTIMATOR_FILE);
        [discriminate | now apply IH]. }
    unfold predict_entry.
    rewrite !py_getitem_map, !py_contains_map.
    rewrite Ht, Hg, (dict_get_app_l _ _ _ _ Ht), (dict_get_app_l _ _ _ _ Hg),
      Hnamed, (dict_get_None_keys _ _ Hfile).
    unfold dict_keys. rewrite map_app, existsb_app.
    cbn [map fst existsb]. rewrite String.eqb_refl.
    rewrite orb_true_l, orb_true_r.
    cbn [result_bind as_str]. rewrite !bind_lift_Ok.
    now rewrite (bind_Ok _ _ _ _ _ E).
  - unfold predict_entry.
    rewrite !py_getitem_map, !py_contains_map.
    rewrite Ht, Hg, (dict_get_None_keys _ _ Hfile).
    cbn [result_bind as_str]. rewrite !bind_lift_Ok.
    now rewrite (bind_Raise _ _ _ _ _ E).
Qed.

End EntryProperties.

(** X16 on the entry for [speed] of the examples, with the ranking table
    of the example put into the directory of the estimators. *)
Lemma explicit_estimator_file_bypasses_the_ranking_witness :
  fst (predict_entry 0 "models" "out" (estimator_entry "speed" "speed.pkl")
         (with_rankings "models" (Some rankings_example) world_with_models))
  = fst (predict_entry 0 "models" "out" (estimator_entry "speed" "speed.pkl")
           world_with_models).
Proof.
  rewrite (explicit_estimator_file_bypasses_the_ranking 0%nat "models" "out"
             (estimator_entry "speed" "speed.pkl") (Some rankings_example)
             world_with_models eq_refl).
  reflexivity.
Defined.

(** X17 on the ranking table of the example: the entry for [t] without an
    estimator file does what the entry does that names the estimator the
    resolver selects. *)
Lemma resolved_estimator_is_used_as_if_named_witness :
  predict_entry 0 "models" "out"
    (YMap [("target_variable", YStr "t"); ("greater_is_better", YBool false)])
    (world_with_rankings rankings_example)
  = predict_entry 0 "models" "out"
      (YMap ([("target_variable", YStr "t"); ("greater_is_better", YBool false)]
             ++ [("estimator_file", YStr "nonlinear-E2-t")]))
      (world_with_rankings rankings_example).
Proof.
  pose proof (resolved_estimator_is_used_as_if_named 0%nat "models" "out"
                [("target_variable", YStr "t"); ("greater_is_better", YBool false)]
                "t" (YBool false) (world_with_rankings rankings_example)
                eq_refl eq_refl eq_refl) as Hused.
  assert (_get_highest_ranked_estimator "models" "t"
            (world_with_rankings rankings_example)
          = (Ok "nonlinear-E2-t", world_with_rankings rankings_example)) as Hsel
    by reflexivity.
  rewrite Hsel in Hused. exact Hused.
Defined.

(** ** The form of the UI *)

Lemma collect_inputs_spec (session_state : session) (fields : list string) :
  ∀ fixed variable,
    (∀ f, In f fields → is_Some (input_widgets session_state !! f)) →
    collect_inputs session_state fields fixed variable
    = if all_filled session_state fields
      then Ok (Some (fixed ++ map (λ p, [p]) (fixed_items session_state fields),
                     variable
                     ++ map (λ p, [p]) (variable_items session_state fields)))
      else Ok None.
Proof.
  induction fields as [|f fields IH]; intros fixed variable Hkeys.
  - simpl. now rewrite !app_nil_r.
  - destruct (Hkeys f (or_introl eq_refl)) as [state Hstate].
    assert (∀ f', In f' fields → is_Some (input_widgets session_state !! f'))
      as Hrest by (intros f' Hf'; apply Hkeys; now right).
    unfold all_filled, fixed_items, variable_items in *.
    simpl. rewrite Hstate. simpl.
    destruct state as [text|selected|low high same]; simpl.
    + destruct (negb (String.eqb text "") && negb (String.eqb text "None"));
        [|reflexivity].
      rewrite (IH _ _ Hrest). simpl.
      destruct (forallb _ fields); [|reflexivity].
      now rewrite <- app_assoc.
    + destruct selected as [|x [|y selected]]; simpl; [reflexivity| |].
      * rewrite (IH _ _ Hrest). destruct (forallb _ fields); [|reflexivity].
        now rewrite <- app_assoc.
      * rewrite (IH _ _ Hrest). destruct (forallb _ fields); [|reflexivity].
        now rewrite <- app_assoc.
    + destruct same; simpl; rewrite (IH _ _ Hrest);
        (destruct (forallb _ fields); [|reflexivity]);
        now rewrite <- app_assoc.
Qed.

Lemma collect_outputs_spec (session_state : session) (fields : list string) :
  ∀ output_values,
    (∀ f, In f fields → is_Some (toggle_widgets session_state !! f)) →
    collect_outputs session_state fields output_values
    = Ok (output_values ++ selected_outputs session_state fields).
Proof.
  induction fields as [|f fields IH]; intros output_values Hkeys.
  - simpl. now rewrite app_nil_r.
  - destruct (Hkeys f (or_introl eq_refl)) as [toggled Htoggled].
    assert (∀ f', In f' fields → is_Some (toggle_widgets session_state !! f'))
      as Hrest by (intros f' Hf'; apply Hkeys; now right).
    unfold selected_outputs in *. simpl. rewrite Htoggled.
    destruct toggled; rewrite (IH _ Hrest).
    + rewrite bool_decide_eq_true_2 by reflexivity. now rewrite <- app_assoc.
    + rewrite bool_decide_eq_false_2 by discriminate. reflexivity.
Qed.

(** A single choice of a widget that holds something is one value. *)
Lemma single_choice_is_one_value (session_state : session) (f : string)
    (state : widget_state) :
  consistent session_state →
  input_widgets session_state !! f = Some state →
  filled state = true → single_choice state = true →
  ∃ v, first_choice state = Some v ∧ choices state = [v].
Proof.
  intros Hcons Hstate Hfilled Hsingle.
  destruct state as [text|selected|low high same]; simpl in *.
  - now exists (VStr text).
  - destruct selected as [|x [|y selected]]; try discriminate. now exists x.
  - subst same. pose proof (Hcons _ _ _ Hstate) as ->.
    exists (VInt high). split; [reflexivity|].
    unfold range. replace (high + 1 - high)%Z with 1%Z by lia. simpl.
    do 2 f_equal. lia.
Qed.

Lemma fixed_items_cons (session_state : session) (f : string)
    (fields : list string) (state : widget_state) :
  input_widgets session_state !! f = Some state →
  fixed_items session_state (f :: fields)
  = match (if single_choice state then first_choice state else None) with
    | Some v => (f, v) :: fixed_items session_state fields
    | None => fixed_items session_state fields
    end.
Proof.
  intros Hstate. unfold fixed_items. simpl. rewrite Hstate. simpl.
  destruct (single_choice state); [|reflexivity].
  now destruct (first_choice state).
Qed.

Lemma variable_items_cons (session_state : session) (f : string)
    (fields : list string) (state : widget_state) :
  input_widgets session_state !! f = Some state →
  variable_items session_state (f :: fields)
  = if single_choice state then variable_items session_state fields
    else (f, choices state) :: variable_items session_state fields.
Proof.
  intros Hstate. unfold variable_items. simpl. rewrite Hstate. simpl.
  now destruct (single_choice state).
Qed.

Lemma items_of_filled_fields (session_state : session) (fields : list string) :
  consistent session_state →
  all_filled session_state fields = true →
  map fst (fixed_items session_state fields)
  ++ map fst (variable_items session_state fields) ≡ₚ fields ∧
  list_prod (map (λ kv, length (snd kv)) (variable_items session_state fields))
  = list_prod
      (map (λ f, match input_widgets session_state !! f with
                 | Some state => length (choices state)
                 | None => 1%nat
                 end) fields).
Proof.
  intros Hcons.
  induction fields as [|f fields IH]; intros Hall; [split; reflexivity|].
  unfold all_filled in Hall. simpl in Hall.
  apply andb_true_iff in Hall as [Hf Hall].
  destruct (IH Hall) as [IHp IHn]. clear IH.
  destruct (input_widgets session_state !! f) as [state|] eqn:Hstate;
    [|discriminate].
  rewrite (fixed_items_cons _ _ _ _ Hstate), (variable_items_cons _ _ _ _ Hstate).
  cbn [map list_prod fold_right]. rewrite Hstate.
  fold (list_prod
          (map (λ f, match input_widgets session_state !! f with
                     | Some state => length (choices state)
                     | None => 1%nat
                     end) fields)).
  rewrite <- IHn.
  destruct (single_choice state) eqn:Hsingle.
  - destruct (single_choice_is_one_value _ _ _ Hcons Hstate Hf Hsingle)
      as (v & -> & ->).
    cbn [map fst app length]. split; [now apply perm_skip | lia].
  - cbn [map fst snd list_prod fold_right]. split; [|reflexivity].
    etrans; [symmetry; apply Permutation_middle|]. now apply perm_skip.
Qed.

Lemma form_configuration_run (session_state : session)
    (config_input_fields config_output_fields : list string) :
  (∀ f, In f config_input_fields →
        is_Some (input_widgets session_state !! f)) →
  (∀ f, In f config_output_fields →
        is_Some (toggle_widgets session_state !! f)) →
  get_prediction_configuration session_state config_input_fields
    config_output_fields
  = if all_filled session_state config_input_fields
    then Ok (true,
             map (λ p, [p]) (fixed_items session_state config_input_fields),
             map (λ p, [p]) (variable_items session_state config_input_fields),
             selected_outputs session_state config_output_fields)
    else Ok (false, [], [], []).
Proof.
  intros Hin Hout. unfold get_prediction_configuration.
  rewrite (collect_inputs_spec _ _ _ _ Hin).
  destruct (all_filled session_state config_input_fields); [|reflexivity].
  simpl. now rewrite (collect_outputs_spec _ _ _ Hout).
Qed.

Lemma fixed_items_In (session_state : session) (fields : list string)
    (f : string) (v : value) :
  In (f, v) (fixed_items session_state fields) →
  In f fields ∧
  ∃ state, input_widgets session_state !! f = Some state ∧
           single_choice state = true ∧ first_choice state = Some v.
Proof.
  intros Hin. apply list_elem_of_In, list_elem_of_omap in Hin as (f' & Hf' & Hsome).
  destruct (input_widgets session_state !! f') as [state|] eqn:Hstate;
    [|discriminate].
  simpl in Hsome. destruct (single_choice state) eqn:Hsingle; [|discriminate].
  destruct (first_choice state) as [v'|] eqn:Hfirst; [|discriminate].
  simpl in Hsome. injection Hsome as <- <-.
  split; [now apply list_elem_of_In | now exists state].
Qed.

Lemma variable_items_In (session_state : session) (fields : list string)
    (f : string) (vs : list value) :
  In (f, vs) (variable_items session_state fields) →
  In f fields ∧
  ∃ state, input_widgets session_state !! f = Some state ∧
           single_choice state = false ∧ choices state = vs.
Proof.
  intros Hin. apply list_elem_of_In, list_elem_of_omap in Hin as (f' & Hf' & Hsome).
  destruct (input_widgets session_state !! f') as [state|] eqn:Hstate;
    [|discriminate].
  simpl in Hsome. destruct (single_choice state) eqn:Hsingle; [discriminate|].
  injection Hsome as <- <-.
  split; [now apply list_elem_of_In | now exists state].
Qed.

(** X18.  How the form sorts the input fields.  With a widget for every
    field, [get_prediction_configuration] reports failure, with three empty
    lists, as soon as one input field holds nothing or the text [None];
    the toggles are not looked at.  Otherwise every input field goes, in
    the order of the fields, either to the fixed values, as one mapping
    with the value selected, or to the variable values, as one mapping
    with the list of the values selected: a text is fixed; a multiselect
    is variable when more than one option is selected; a slider is
    variable, over every integer from its lower to its upper end, when
    its two ends are not one object.  The output values are the fields
    whose toggle is on, in the order of the fields. *)
Theorem form_sorts_the_input_fields (session_state : session)
    (config_input_fields config_output_fields : list string) :
  (∀ f, In f config_input_fields →
        is_Some (input_widgets session_state !! f)) →
  (∀ f, In f config_output_fields →
        is_Some (toggle_widgets session_state !! f)) →
  let fixed := fixed_items session_state config_input_fields in
  let variable := variable_items session_state config_input_fields in
  get_prediction_configuration session_state config_input_fields
    config_output_fields
  = (if all_filled session_state config_input_fields
     then Ok (true, map (λ p, [p]) fixed, map (λ p, [p]) variable,
              selected_outputs session_state config_output_fields)
     else Ok (false, [], [], [])) ∧
  (∀ f v, In (f, v) fixed →
     ∃ state, input_widgets session_state !! f = Some state ∧
              single_choice state = true ∧ first_choice state = Some v) ∧
  (∀ f vs, In (f, vs) variable →
     ∃ state, input_widgets session_state !! f = Some state ∧
              single_choice state = false ∧ choices state = vs) ∧
  (consistent session_state →
   all_filled session_state config_input_fields = true →
   map fst fixed ++ map fst variable ≡ₚ config_input_fields) ∧
  (∀ f, In f (selected_outputs session_state config_output_fields) ↔
        In f config_output_fields ∧
        toggle_widgets session_state !! f = Some true).
Proof.
  intros Hin Hout. cbv zeta.
  split; [now apply form_configuration_run|].
  split; [intros f v Hf; now apply (fixed_items_In _ _ _ _ Hf)|].
  split; [intros f vs Hf; now apply (variable_items_In _ _ _ _ Hf)|].
  split; [intros Hcons Hall; now apply items_of_filled_fields|].
  intros f. unfold selected_outputs. rewrite filter_In.
  now rewrite bool_decide_eq_true.
Qed.

(** X18 on the session of the examples. *)
Lemma form_sorts_the_input_fields_witness :
  get_prediction_configuration sample_session ["a"; "b"; "c"] ["speed"; "energy"]
  = Ok (true,
        [[("a", VStr "x")]],
        [[("b", [VInt 1; VInt 2])]; [("c", [VInt 1; VInt 2; VInt 3])]],
        ["speed"]).
Proof.
  destruct (form_sorts_the_input_fields sample_session ["a"; "b"; "c"]
              ["speed"; "energy"]) as [Hrun _].
  - intros f [<-|[<-|[<-|[]]]]; vm_compute; eauto.
  - intros f [<-|[<-|[]]]; vm_compute; eauto.
  - rewrite Hrun. vm_compute. reflexivity.
Defined.

Lemma concat_singletons {A} (l : list A) : concat (map (λ p, [p]) l) = l.
Proof. induction l as [|x l IH]; simpl; [reflexivity | now rewrite IH]. Qed.

Lemma dict_flatten_singletons {V} (items : list (string * V)) :
  List.NoDup (map fst items) → dict_flatten (map (λ p, [p]) items) = items.
Proof.
  intros Hnd. unfold dict_flatten. rewrite concat_singletons.
  apply (dict_union_disjoint items []); [exact Hnd | intros k []].
Qed.

Section FormToInputSpace.
Context `{Collaborators}.

(** X19.  From the form to the input space.  Take a form whose input
    fields are distinct, have a widget each, and all hold something, and
    in which at least one output toggle is on.  Then the configuration that
    [get_prediction_configuration] returns is written by the generator to
    the configuration file, it is read back by [_read_yaml_config], and
    the Input-Space Builder accepts it: the input-space table has one
    column for every input field, and its number of rows is the product,
    over the input fields, of the number of values that the widget of the
    field selects. *)
Theorem form_selection_spans_the_input_space (session_state : session)
    (config_input_fields config_output_fields : list string)
    (config : ui_config) (output_path : string)
    (metadata_parser_class_name metadata_path : option string) (w : world) :
  (∀ f, In f config_input_fields →
        is_Some (input_widgets session_state !! f)) →
  (∀ f, In f config_output_fields →
        is_Some (toggle_widgets session_state !! f)) →
  List.NoDup config_input_fields →
  consistent session_state →
  all_filled session_state config_input_fields = true →
  selected_outputs session_state config_output_fields ≠ [] →
  ∃ fixed variable output_values w1 prediction_config path l w2 table,
    get_prediction_configuration session_state config_input_fields
      config_output_fields = Ok (true, fixed, variable, output_values) ∧
    generate_prediction_config_file config fixed variable output_values w
    = (Ok tt, w1) ∧
    _read_yaml_config (job_prediction_config_file config) w1
    = (Ok prediction_config, w1) ∧
    _create_input_space prediction_config None output_path None
      metadata_parser_class_name metadata_path w1 = (Ok (path, l), w2) ∧
    frames w2 !! l = Some table ∧
    (∀ f, In f config_input_fields → In f (columns table)) ∧
    length (rows table)
    = list_prod
        (map (λ f, match input_widgets session_state !! f with
                   | Some state => length (choices state)
                   | None => 1%nat
                   end) config_input_fields).
Proof.
  intros Hin Hout Hnd Hcons Hall Houtputs.
  destruct (items_of_filled_fields _ _ Hcons Hall) as [Hperm Hcount].
  set (fixed := fixed_items session_state config_input_fields) in *.
  set (variable := variable_items session_state config_input_fields) in *.
  assert (List.NoDup (map fst fixed ++ map fst variable)) as Hkeys.
  { apply NoDup_ListNoDup. rewrite Hperm. now apply NoDup_ListNoDup. }
  assert (List.NoDup (map fst variable)) as Hvar
    by (eapply List.NoDup_app_remove_l; exact Hkeys).
  assert (List.NoDup (map fst fixed)) as Hfix
    by (eapply List.NoDup_app_remove_r; exact Hkeys).
  destruct (selected_outputs session_state config_output_fields)
    as [|first others] eqn:Hsel; [congruence|].
  set (prediction_config :=
         {| cfg_fixed_values := map (λ p, [p]) fixed;
            cfg_variable_values := map (λ p, [p]) variable;
            cfg_interpolation_values := None;
            cfg_estimators :=
              YMap [("target_variable", YStr first);
                    ("estimator_file", job_prediction_estimator_file config);
                    ("greater_is_better",
                     job_prediction_greater_is_better config)] |}).
  set (w1 := set_yaml_files
               (<[job_prediction_config_file config := prediction_config]>
                  (yaml_files w)) w).
  pose proof (create_input_space_run prediction_config None output_path
                metadata_parser_class_name metadata_path w1 None []
                eq_refl eq_refl (keys_overlap_nil _)) as Hbuild.
  cbv zeta in Hbuild.
  exists (map (λ p, [p]) fixed), (map (λ p, [p]) variable), (first :: others),
    w1, prediction_config.
  do 4 eexists.
  split; [rewrite (form_configuration_run _ _ _ Hin Hout), Hall, Hsel;
          reflexivity|].
  split; [reflexivity|].
  split; [unfold _read_yaml_config; simpl; now rewrite lookup_insert_eq|].
  split; [exact Hbuild|].
  split; [simpl; apply lookup_insert_eq|].
  simpl cfg_fixed_values. simpl cfg_variable_values.
  rewrite (dict_flatten_singletons fixed Hfix).
  rewrite (dict_flatten_singletons variable Hvar).
  change (dict_union variable []) with variable.
  split.
  - intros f Hf. apply add_fixed_values_columns_In. simpl.
    assert (In f (map fst fixed ++ map fst variable)) as Hmem.
    { apply list_elem_of_In. rewrite Hperm. now apply list_elem_of_In. }
    apply in_app_or in Hmem as [Hmem|Hmem]; [now right | now left].
  - rewrite add_fixed_values_rows_length. simpl.
    rewrite product_length, <- Hcount.
    unfold dict_values. now rewrite map_map.
Qed.

End FormToInputSpace.

(** X19 on the session of the examples: one text, two options and the
    integers from 1 to 3 give six rows. *)
Lemma form_selection_spans_the_input_space_witness :
  ∃ fixed variable output_values w1 prediction_config path l w2 table,
    get_prediction_configuration sample_session ["a"; "b"; "c"]
      ["speed"; "energy"] = Ok (true, fixed, variable, output_values) ∧
    generate_prediction_config_file sample_ui_config fixed variable
      output_values empty_world = (Ok tt, w1) ∧
    _create_input_space prediction_config None "out" None None None w1
    = (Ok (path, l), w2) ∧
    frames w2 !! l = Some table ∧
    length (rows table) = 6%nat.
Proof.
  destruct (form_selection_spans_the_input_space sample_session ["a"; "b"; "c"]
              ["speed"; "energy"] sample_ui_config "out" None None empty_world)
    as (fixed & variable & output_values & w1 & prediction_config & path & l
        & w2 & table & Hform & Hgen & _ & Hbuild & Hframe & _ & Hrows).
  - intros f [<-|[<-|[<-|[]]]]; vm_compute; eauto.
  - intros f [<-|[<-|[]]]; vm_compute; eauto.
  - repeat constructor; simpl; intuition discriminate.
  - intros f low high Hf.
    destruct (decide (f = "c")) as [->|Hne].
    + vm_compute in Hf. discriminate.
    + destruct (decide (f = "b")) as [->|Hne']; [vm_compute in Hf; discriminate|].
      destruct (decide (f = "a")) as [->|Hne'']; [vm_compute in Hf; discriminate|].
      unfold sample_session in Hf. simpl in Hf.
      rewrite !lookup_insert_ne in Hf by congruence.
      rewrite lookup_singleton_ne in Hf by congruence. discriminate.
  - reflexivity.
  - vm_compute. discriminate.
  - exists fixed, variable, output_values, w1, prediction_config, path, l, w2,
      table.
    repeat (split; [assumption|]). rewrite Hrows. reflexivity.
Defined.

(** X20.  A form without outputs.  When every input field holds something
    and no output toggle is on, [get_prediction_configuration] still
    reports success, with an empty list of output values, and the
    generator, given that list, raises [IndexError] before it writes
    anything. *)
Theorem form_without_outputs_breaks_the_generator (session_state : session)
    (config_input_fields config_output_fields : list string)
    (config : ui_config) (w : world) :
  (∀ f, In f config_input_fields →
        is_Some (input_widgets session_state !! f)) →
  (∀ f, In f config_output_fields →
        toggle_widgets session_state !! f = Some false) →
  all_filled session_state config_input_fields = true →
  ∃ fixed variable,
    get_prediction_configuration session_state config_input_fields
      config_output_fields = Ok (true, fixed, variable, []) ∧
    generate_prediction_config_file config fixed variable [] w
    = (Raise IndexError, w).
Proof.
  intros Hin Hout Hall. do 2 eexists. split; [|reflexivity].
  rewrite form_configuration_run, Hall; [|exact Hin|].
  - do 2 f_equal. unfold selected_outputs. apply filter_none.
    intros f Hf. rewrite (Hout f Hf). now apply bool_decide_eq_false_2.
  - intros f Hf. rewrite (Hout f Hf). eauto.
Qed.

(** X20 on the session of the examples, with the toggle that is off. *)
Lemma form_without_outputs_breaks_the_generator_witness :
  ∃ fixed variable,
    get_prediction_configuration sample_session ["a"; "b"; "c"] ["energy"]
    = Ok (true, fixed, variable, []) ∧
    generate_prediction_config_file sample_ui_config fixed variable []
      empty_world = (Raise IndexError, empty_world).
Proof.
  apply (form_without_outputs_breaks_the_generator sample_session
           ["a"; "b"; "c"] ["energy"] sample_ui_config empty_world).
  - intros f [<-|[<-|[<-|[]]]]; vm_compute; eauto.
  - intros f [<-|[]]. reflexivity.
  - reflexivity.
Defined.

Section PipelineComposition.
Context `{Collaborators}.

(** X21.  The stages of [demo_predict] fit together.  When a run without
    feature engineering completes, with the estimators in a plain
    directory, the configuration file was there, the Input-Space Builder
    made the table of that configuration in a new object, the runner was
    given that object, and at the end the object and the input-space file
    both hold the table as the builder made it, provided that the name of
    the input-space file is not the name of an output of the runner. *)
Theorem completed_pipeline_keeps_its_input_space (original_data : option loc)
    (config_file estimator_path : string)
    (metadata_parser_class_name metadata_path : option string)
    (output_path : string) (w w' : world) :
  archives w !! estimator_path = None →
  demo_predict original_data config_file estimator_path None
    metadata_parser_class_name metadata_path (Some output_path) w
  = (Ok tt, w') →
  ¬ runner_output output_path
      (os_path_join output_path PRED_INPUT_SPACE_FILE) →
  ∃ config history interp l,
    yaml_files w !! config_file = Some config ∧
    holds w original_data history ∧
    interpolation_values_of history
      (default [] (cfg_interpolation_values config)) = Ok interp ∧
    let table :=
      add_fixed_values (dict_flatten (cfg_fixed_values config))
        (pd_DataFrame
           (product (dict_values (dict_flatten (cfg_variable_values config))
                     ++ dict_values interp))
           (dict_keys (dict_flatten (cfg_variable_values config))
            ++ dict_keys interp)) in
    frames w !! l = None ∧
    frames w' !! l = Some table ∧
    csv_files w' !! os_path_join output_path PRED_INPUT_SPACE_FILE = Some table ∧
    ∃ w1,
      _run_predictions original_data l config estimator_path output_path w1
      = (Ok tt, w') ∧
      frames w1 !! l = Some table.
Proof.
  intros Hplain Hrun Hname. unfold demo_predict in Hrun.
  apply bind_Ok_inv in Hrun as (config & w0 & Hread & Hrun).
  unfold _read_yaml_config in Hread.
  destruct (yaml_files w !! config_file) as [config'|] eqn:Hconfig;
    [|discriminate].
  injection Hread as -> ->.
  apply bind_Ok_inv in Hrun as ([path l] & w1 & Hbuild & Hrun).
  simpl snd in Hrun.
  assert (archives w1 !! estimator_path = None) as Hplain1.
  { destruct (keeps_create_input_space _ _ _ _ _ _ _ _ _ Hbuild) as [_ A1].
    now rewrite A1. }
  pose proof Hrun as Hsteps.
  rewrite (run_from_a_directory _ _ _ _ _ _ Hplain1) in Hsteps.
  destruct (input_space_table _ _ _ _ _ _ _ _ _ Hbuild)
    as (history & interp & Hh & Hi & _ & Hl & Hpath & Hw1 & Hframe).
  cbv zeta in Hl, Hpath, Hw1, Hframe.
  exists config, history, interp, l.
  split; [reflexivity|]. split; [exact Hh|]. split; [exact Hi|]. cbv zeta.
  split; [subst l; apply fresh_frame|].
  split; [|split].
  - rewrite <- Hframe.
    apply (changes_run_predictions ∅ _ _ _ _ _ _ _ _ Hrun);
      [set_solver | rewrite Hframe; eauto].
  - destruct (writes_runner_steps _ _ _ _ _ _ _ _ Hsteps) as (_ & _ & Hothers).
    rewrite (Hothers _ Hname). rewrite Hw1, Hpath. simpl.
    apply lookup_insert_eq.
  - exists w1. split; [exact Hrun | exact Hframe].
Qed.

End PipelineComposition.

(** X21 on the configuration of the examples, written by hand. *)
Lemma completed_pipeline_keeps_its_input_space_witness :
  ∃ l,
    frames (snd (demo_predict None "prediction.yaml" "models" None None None
                   (Some "out") handwritten_world)) !! l
    = Some input_space_example ∧
    csv_files (snd (demo_predict None "prediction.yaml" "models" None None None
                      (Some "out") handwritten_world)) !! "out/input-space.csv"
    = Some input_space_example.
Proof.
  destruct (completed_pipeline_keeps_its_input_space None "prediction.yaml"
              "models" None None "out" handwritten_world
              (snd (demo_predict None "prediction.yaml" "models" None None None
                      (Some "out") handwritten_world)))
    as (config & history & interp & l & Hconfig & Hh & Hi & _ & Hframe & Hfile & _).
  - reflexivity.
  - vm_compute. reflexivity.
  - intros [[t Ht]|[Ht|[Ht|Ht]]]; discriminate.
  - injection Hconfig as <-. simpl in Hh. subst history.
    injection Hi as <-.
    exists l. split; [exact Hframe | exact Hfile].
Defined.

(** ** Archives of estimators *)

Section ArchiveProperties.
Context `{Collaborators}.

(** X22.  An archive must be named as one.  Whether the estimators come
    as an archive is decided by the content of the file, but the archive is
    unpacked by the extension of its name.  So for a zip archive whose name
    does not end in [.zip], [_run_predictions] raises [ReadError] before
    anything is extracted, read or written. *)
Theorem archive_without_zip_extension_is_refused (original_data : option loc)
    (input_data : loc) (estimators_config : Config)
    (estimator_path output_path : string) (w : world) (content : folder) :
  archives w !! estimator_path = Some content →
  str_endswith ".zip" estimator_path = false →
  _run_predictions original_data input_data estimators_config estimator_path
    output_path w = (Raise ReadError, w).
Proof.
  intros Harchive Hname.
  unfold _run_predictions, bind at 1, is_zipfile. rewrite Harchive.
  rewrite bool_decide_eq_true_2 by eauto.
  erewrite bind_Raise; [reflexivity|].
  erewrite bind_Raise; [reflexivity|].
  unfold unpack_archive. now rewrite Harchive, Hname.
Qed.

End ArchiveProperties.

(** X22 on the archive of the examples, stored under a name without
    extension. *)
Lemma archive_without_zip_extension_is_refused_witness :
  _run_predictions None 0 cfg_one_target "store/models" "out"
    world_with_misnamed_archive
  = (Raise ReadError, world_with_misnamed_archive).
Proof.
  apply (archive_without_zip_extension_is_refused None 0%nat cfg_one_target
           "store/models" "out" world_with_misnamed_archive sample_models).
  - reflexivity.
  - reflexivity.
Defined.
(** ** The error columns of the ground-truth table *)

Lemma append_last_char (a b : string) (c d : ascii) :
  a +:+ String c "" = b +:+ String d "" → c = d.
Proof.
  revert b. induction a as [|x a IH]; intros [|y b]; rewrite ?append_cons,
    ?append_nil_l.
  - now intros [= ->].
  - intros [= _ E]. destruct b; rewrite ?append_cons, ?append_nil_l in E;
      discriminate.
  - intros [= _ E]. destruct a; rewrite ?append_cons, ?append_nil_l in E;
      discriminate.
  - intros [= _ E]. now apply IH in E.
Qed.

Lemma append_inj_r (a b s : string) : a +:+ s = b +:+ s → a = b.
Proof.
  revert b. induction a as [|x a IH]; intros [|y b] E.
  - reflexivity.
  - exfalso. apply (f_equal String.length) in E.
    rewrite append_nil_l, append_cons in E. simpl in E.
    rewrite length_append in E. lia.
  - exfalso. apply (f_equal String.length) in E.
    rewrite append_nil_l, append_cons in E. simpl in E.
    rewrite length_append in E. lia.
  - rewrite !append_cons in E. injection E as -> E. f_equal. now apply IH.
Qed.

Lemma mape_name_is_not_actual (p q : string) : q +:+ "_mape" ≠ p +:+ "_actual".
Proof.
  intros E.
  change "_mape" with ("_map" +:+ "e") in E.
  change "_actual" with ("_actua" +:+ "l") in E.
  rewrite <- !append_assoc in E. apply append_last_char in E. discriminate.
Qed.

Lemma mape_name_is_not_pred (p q : string) : q +:+ "_mape" ≠ p +:+ "_pred".
Proof.
  intros E.
  change "_mape" with ("_map" +:+ "e") in E.
  change "_pred" with ("_pre" +:+ "d") in E.
  rewrite <- !append_assoc in E. apply append_last_char in E. discriminate.
Qed.


Section ErrorColumns.
Context `{Collaborators}.

Lemma error_columns_loop (merged_df : loc) (merged : DataFrame)
    (ps : list string) :
  ∀ (done : list string) (w w' : world) (table : DataFrame),
    frames w !! merged_df = Some table →
    well_formed table →
    length (rows table) = length (rows merged) →
    (∀ c, ¬ is_error_column c → df_getitem table c = df_getitem merged c) →
    (∀ p, In p done → has_both merged p → error_column_of merged table p) →
    for_each ps (λ p,
      if existsb (String.eqb (p +:+ "_pred")) (columns merged) &&
         existsb (String.eqb (p +:+ "_actual")) (columns merged)
      then
        update_frame merged_df (λ df,
          result_bind (df_getitem df (p +:+ "_actual")) (λ actual,
          result_bind (df_getitem df (p +:+ "_pred")) (λ pred,
          result_bind
            (result_map
               (λ tp, mean_absolute_percentage_error (fst tp) (snd tp))
               (combine actual pred)) (λ errors,
          df_setitem (p +:+ "_mape") errors df))))
      else ret tt) w = (Ok tt, w') →
    ∃ table',
      frames w' !! merged_df = Some table' ∧
      well_formed table' ∧
      length (rows table') = length (rows merged) ∧
      (∀ c, ¬ is_error_column c → df_getitem table' c = df_getitem merged c) ∧
      (∀ p, In p (done ++ ps) → has_both merged p →
            error_column_of merged table' p) ∧
      csv_files w' = csv_files w ∧
      (∀ l, l ≠ merged_df → frames w' !! l = frames w !! l).
Proof.
  induction ps as [|p ps IH]; intros done w w' table Hframe Hwf Hlen Hkeep Hdone E.
  - simpl in E. unfold ret in E. injection E as <-.
    exists table. rewrite app_nil_r. do 5 (split; [assumption|]). now split.
  - simpl in E. apply bind_Ok_inv in E as ([] & w1 & Estep & E).
    destruct (existsb (String.eqb (p +:+ "_pred")) (columns merged) &&
              existsb (String.eqb (p +:+ "_actual")) (columns merged)) eqn:Hcond.
    + rewrite (update_frame_run _ _ _ _ Hframe) in Estep.
      rewrite (Hkeep (p +:+ "_actual")) in Estep
        by (intros [q Hq]; symmetry in Hq; now apply mape_name_is_not_actual in Hq).
      rewrite (Hkeep (p +:+ "_pred")) in Estep
        by (intros [q Hq]; symmetry in Hq; now apply mape_name_is_not_pred in Hq).
      destruct (df_getitem merged (p +:+ "_actual")) as [actual|] eqn:Ha;
        [|discriminate].
      destruct (df_getitem merged (p +:+ "_pred")) as [pred|] eqn:Hp;
        [|discriminate].
      simpl in Estep.
      destruct (result_map _ (combine actual pred)) as [errors|] eqn:He;
        [|discriminate].
      simpl in Estep.
      destruct (df_setitem (p +:+ "_mape") errors table) as [table1|] eqn:Hset;
        [|discriminate].
      injection Estep as <-.
      destruct (setitem_getitem _ _ _ _ Hwf Hset) as (Hwf1 & Hlen1 & Hnew & Hold).
      destruct (IH (done ++ [p])
                  (set_frames (<[merged_df := table1]> (frames w)) w) w' table1) as
        (table' & Hframe' & Hwf' & Hlen' & Hkeep' & Hdone' & Hcsv & Hothers);
        [simpl; apply lookup_insert_eq | exact Hwf1 | congruence | | | exact E |].
      * intros c Hc. rewrite Hold; [now apply Hkeep|].
        intros ->. apply Hc. now exists p.
      * intros q Hq Hboth.
        destruct (decide (q +:+ "_mape" = p +:+ "_mape")) as [Heq|Hne].
        -- apply append_inj_r in Heq. subst q.
           exists actual, pred, errors. now repeat split.
        -- apply in_app_or in Hq as [Hq|[->|[]]]; [|congruence].
           destruct (Hdone q Hq Hboth) as (a & b & e & Ha' & Hb' & He' & Hg').
           exists a, b, e. repeat (split; [assumption|]).
           now rewrite Hold.
      * exists table'. rewrite <- app_assoc in Hdone'.
        do 5 (split; [assumption|]). split; [exact Hcsv|].
        intros l Hl. rewrite (Hothers l Hl). simpl.
        now rewrite lookup_insert_ne.
    + unfold ret in Estep. injection Estep as <-.
      destruct (IH (done ++ [p]) w w' table Hframe Hwf Hlen Hkeep) as
        (table' & Hframe' & Hwf' & Hlen' & Hkeep' & Hdone' & Hcsv & Hothers);
        [|exact E|].
      * intros q Hq Hboth.
        apply in_app_or in Hq as [Hq|[->|[]]]; [now apply Hdone|].
        exfalso. destruct Hboth as [Hb1 Hb2].
        apply existsb_eqb_In in Hb1, Hb2. rewrite Hb1, Hb2 in Hcond.
        discriminate.
      * exists table'. rewrite <- app_assoc in Hdone'.
        do 5 (split; [assumption|]). now split.
Qed.

(** X23.  The error columns of the ground-truth table.  When the
    comparison with the original data completes on a join that is not
    empty, the table written to the ground-truth file is the join, without
    its [Unnamed] columns, with error columns added: for every column [p]
    of the consolidated predictions for which the join has both
    [p_actual] and [p_pred], the column [p_mape] holds, row by row, the
    absolute percentage error between the two; every column that is not
    named [..._mape] is as the join has it, and no row is added or
    removed. *)
Theorem ground_truth_holds_the_errors (od input_data all_predictions_df : loc)
    (output_path : string) (w w' : world)
    (data predictions input_table merged : DataFrame) :
  frames w !! od = Some data →
  df_empty data = false →
  frames w !! all_predictions_df = Some predictions →
  frames w !! input_data = Some input_table →
  pd_merge_on data predictions (columns input_table) = Ok merged →
  df_empty merged = false →
  well_formed merged →
  os_path_join output_path PRED_ORIGINAL_TRUTH_FILE
  ≠ os_path_join output_path PRED_GROUND_TRUTH_FILE →
  reconcile (Some od) input_data all_predictions_df output_path w = (Ok tt, w') →
  ∃ ground_truth,
    csv_files w' !! os_path_join output_path PRED_GROUND_TRUTH_FILE
    = Some ground_truth ∧
    well_formed ground_truth ∧
    length (rows ground_truth) = length (rows merged) ∧
    (∀ c, ¬ is_error_column c →
          df_getitem ground_truth c = df_getitem (df_drop_unnamed merged) c) ∧
    (∀ p, In p (columns predictions) →
          has_both (df_drop_unnamed merged) p →
          error_column_of (df_drop_unnamed merged) ground_truth p).
Proof.
  intros Hdata He Hpred Hinput Hmerged Hme Hwf Hpaths Hrun.
  unfold reconcile in Hrun.
  rewrite (bind_Ok _ _ _ _ _ (read_frame_run _ _ _ Hdata)), He in Hrun.
  cbn [negb] in Hrun.
  rewrite (bind_Ok _ _ _ _ _ (read_frame_run _ _ _ Hpred)) in Hrun.
  rewrite (bind_Ok _ _ _ _ _ (read_frame_run _ _ _ Hinput)) in Hrun.
  unfold bind at 1, lift at 1 in Hrun. rewrite Hmerged, Hme in Hrun.
  unfold bind at 1, new_frame at 1 in Hrun.
  set (l2 := fresh (dom (frames w))) in *.
  assert (od ≠ l2) as Hfresh.
  { intros ->. unfold l2 in Hdata. rewrite fresh_frame in Hdata. discriminate. }
  apply bind_Ok_inv in Hrun as ([] & w2 & Eloop & Hrun).
  destruct (error_columns_loop l2 (df_drop_unnamed merged) (columns predictions)
              [] _ _ (df_drop_unnamed merged)
              (lookup_insert_eq _ _ _)
              (drop_unnamed_well_formed _ Hwf) eq_refl
              (λ c _, eq_refl) (λ p (Hp : In p []), match Hp with end) Eloop)
    as (gt & Hgt & Hwfgt & Hlen & Hkeep & Herrors & Hcsv & Hothers).
  apply bind_Ok_inv in Hrun as (p1 & w3 & Ewrite & Hrun).
  rewrite (write_df_to_csv_run _ _ _ _ _ Hgt) in Ewrite.
  injection Ewrite as <- <-.
  assert (frames w2 !! od = Some data) as Hod.
  { rewrite (Hothers od Hfresh). simpl. now rewrite lookup_insert_ne. }
  erewrite bind_Ok in Hrun; [|apply write_df_to_csv_run; exact Hod].
  unfold ret in Hrun. injection Hrun as <-.
  exists gt. split; [|split; [exact Hwfgt|split; [|split]]].
  - simpl. rewrite lookup_insert_ne by exact Hpaths. apply lookup_insert_eq.
  - rewrite Hlen. unfold df_drop_unnamed. simpl. apply length_map.
  - exact Hkeep.
  - intros p Hp. now apply Herrors.
Qed.

End ErrorColumns.

(** X23 on the history and the predictions of the example: the error of
    the first row is a third, the error of the second is zero. *)
Lemma ground_truth_holds_the_errors_witness :
  ∃ ground_truth,
    csv_files (snd (@reconcile joining_collaborators (Some 0%nat) 2 1 "out"
                      world_with_history))
      !! "out/predictions-with-ground-truth.csv" = Some ground_truth ∧
    df_getitem ground_truth "t_mape" = Ok [VFloat (1 # 3); VFloat 0].
Proof.
  destruct (@ground_truth_holds_the_errors joining_collaborators 0%nat 2%nat
              1%nat "out" world_with_history
              (snd (@reconcile joining_collaborators (Some 0%nat) 2 1 "out"
                      world_with_history))
              history_with_target consolidated_example
              {| columns := ["x"]; rows := [[VInt 1]; [VInt 2]] |}
              joined_example)
    as (gt & Hfile & _ & _ & _ & Herrors).
  - reflexivity.
  - reflexivity.
  - reflexivity.
  - reflexivity.
  - reflexivity.
  - reflexivity.
  - repeat constructor.
  - discriminate.
  - vm_compute. reflexivity.
  - exists gt. split; [exact Hfile|].
    destruct (Herrors "t") as (actual & pred & errors & Ha & Hp & He & Hg).
    + right. now left.
    + split; [right; right; now left | right; now left].
    + injection Ha as <-. injection Hp as <-.
      vm_compute in He. injection He as <-. exact Hg.
Defined.
(** ** The directory an archive is extracted to *)

Lemma rsplit_None (c : ascii) (s : string) :
  str_contains (String c "") s = false → rsplit c s = None.
Proof.
  induction s as [|y s IH]; [reflexivity|].
  rewrite str_contains_unfold. intros Hno.
  apply orb_false_iff in Hno as [Hy Hs].
  cbn [rsplit]. rewrite (IH Hs).
  destruct (Ascii.eqb y c) eqn:E; [|reflexivity].
  apply Ascii.eqb_eq in E. subst y. simpl in Hy.
  destruct (ascii_dec c c); [|congruence]. now rewrite prefix_nil in Hy.
Qed.

Lemma rsplit_append (c : ascii) (a b : string) :
  str_contains (String c "") b = false →
  rsplit c (a +:+ String c b) = Some (a, b).
Proof.
  intros Hno. induction a as [|x a IH].
  - rewrite append_nil_l. cbn [rsplit]. rewrite (rsplit_None _ _ Hno).
    now rewrite Ascii.eqb_refl.
  - rewrite append_cons. cbn [rsplit]. now rewrite IH.
Qed.

Lemma all_chars_append (c : ascii) (a b : string) :
  all_chars c (a +:+ b) = all_chars c a && all_chars c b.
Proof.
  induction a as [|x a IH]; [reflexivity|].
  rewrite append_cons. cbn [all_chars]. rewrite IH. now rewrite andb_assoc.
Qed.

Lemma rstrip_append_char (c x : ascii) (d s : string) :
  x ≠ c → all_chars c s = true →
  rstrip c (d +:+ String x s) = d +:+ String x "".
Proof.
  intros Hx Hs. induction d as [|y d IH].
  - rewrite !append_nil_l. cbn [rstrip all_chars].
    rewrite (proj2 (Ascii.eqb_neq x c) Hx). cbn [andb]. f_equal.
    clear -Hs. induction s as [|z s IH]; [reflexivity|].
    cbn [rstrip]. now rewrite Hs.
  - rewrite !append_cons. cbn [rstrip all_chars]. rewrite IH.
    rewrite all_chars_append. cbn [all_chars].
    rewrite (proj2 (Ascii.eqb_neq x c) Hx), andb_false_l, !andb_false_r.
    reflexivity.
Qed.

Lemma str_endswith_char (c x : ascii) (d : string) :
  str_endswith (String c "") (d +:+ String x "") = Ascii.eqb x c.
Proof.
  unfold str_endswith. rewrite length_append. simpl String.length.
  replace (String.length d + 1 - 1)%nat with (String.length d) by lia.
  rewrite (proj2 (Nat.leb_le _ _)) by lia.
  change 1%nat with (String.length (String x "")) at 1.
  rewrite substring_append_r. cbn [andb].
  destruct (Ascii.eqb x c) eqn:E.
  - apply Ascii.eqb_eq in E. subst. now rewrite String.eqb_refl.
  - apply String.eqb_neq. intros [= ->]. now rewrite Ascii.eqb_refl in E.
Qed.

(** X24.  Where an archive is extracted.  For an archive [name.zip],
    where [name] has no slash and is not made of dots only, the directory
    that the archive is extracted to, and that is removed at the end, is
    the path of the archive without [.zip]: [name] for an archive in the
    current directory, and [dir/name] for an archive in a directory [dir]
    that does not end in a slash. *)
Theorem archive_is_extracted_next_to_itself (name : string) :
  str_contains "/" name = false →
  all_chars "." name = false →
  sibling_folder (name +:+ ".zip") = name ∧
  ∀ (d : string) (x : ascii),
    x ≠ "/"%char →
    sibling_folder (d +:+ String x "" +:+ "/" +:+ name +:+ ".zip")
    = d +:+ String x "" +:+ "/" +:+ name.
Proof.
  intros Hslash Hdots.
  assert (str_contains "/" (name +:+ ".zip") = false) as Hslash'
    by (now rewrite str_contains_char_append, Hslash).
  assert (os_path_splitext (name +:+ ".zip") = (name, ".zip")) as Hext.
  { unfold os_path_splitext.
    change (name +:+ ".zip") with (name +:+ String "." "zip").
    rewrite rsplit_append by reflexivity. now rewrite Hdots. }
  assert (str_startswith "/" name = false) as Hrel.
  { destruct name as [|y name]; [reflexivity|].
    rewrite str_contains_unfold in Hslash.
    now apply orb_false_iff in Hslash as [Hy _]. }
  split.
  - unfold sibling_folder, os_path_basename, os_path_dirname.
    rewrite (rsplit_None _ _ Hslash'), Hext. simpl fst.
    unfold os_path_join. now rewrite Hrel.
  - intros d x Hx.
    assert (rsplit "/" (d +:+ String x "" +:+ "/" +:+ name +:+ ".zip")
            = Some (d +:+ String x "", name +:+ ".zip")) as Hsplit.
    { rewrite <- (append_assoc d). rewrite <- (append_assoc (d +:+ String x "")).
      rewrite (append_assoc (d +:+ String x "") "/").
      change ("/" +:+ name +:+ ".zip") with (String "/" (name +:+ ".zip")).
      now apply rsplit_append. }
    unfold sibling_folder, os_path_basename, os_path_dirname.
    rewrite Hsplit, Hext. simpl fst.
    rewrite append_assoc.
    change (String x "" +:+ "/") with (String x "/").
    rewrite all_chars_append. cbn [all_chars].
    rewrite (proj2 (Ascii.eqb_neq x "/") Hx). rewrite andb_false_l, andb_false_r.
    rewrite (rstrip_append_char "/" x d "/" Hx eq_refl).
    unfold os_path_join. rewrite Hrel.
    rewrite str_endswith_char, (proj2 (Ascii.eqb_neq x "/") Hx), orb_false_r.
    assert (String.eqb (d +:+ String x "") "" = false) as ->.
    { apply String.eqb_neq. destruct d; rewrite ?append_nil_l, ?append_cons;
        discriminate. }
    now rewrite append_assoc.
Qed.

(** X24 on the archive of the examples. *)
Lemma archive_is_extracted_next_to_itself_witness :
  sibling_folder "models.zip" = "models" ∧
  sibling_folder "store/models.zip" = "store/models".
Proof.
  destruct (archive_is_extracted_next_to_itself "models" eq_refl eq_refl)
    as [Hhere Hdir].
  split; [exact Hhere|].
  refine (Hdir "stor" "e"%char _). discriminate.
Defined.
Section FeatureEngineering.
Context `{Collaborators}.

(** X25.  Feature engineering comes last.  With feature engineering the
    builder makes the same table as without, the Cartesian product with
    the fixed values added, and hands the whole of it to
    [add_feature_engineering]: what that returns is put into a second new
    object, which is the one returned, and is what the input-space file
    holds.  When [add_feature_engineering] raises, the builder raises the
    same exception and no file is written. *)
Theorem feature_engineering_comes_last (input_config : Config)
    (original_data : option loc) (output_path : string)
    (feature_engineering : dict string)
    (metadata_parser_class_name metadata_path : option string)
    (w w1 : world) (path : string) (l : loc) (table : DataFrame) :
  _create_input_space input_config original_data output_path None
    metadata_parser_class_name metadata_path w = (Ok (path, l), w1) →
  frames w1 !! l = Some table →
  match add_feature_engineering metadata_path table feature_engineering
          metadata_parser_class_name with
  | Ok engineered =>
      ∃ l' w2,
        _create_input_space input_config original_data output_path
          (Some feature_engineering) metadata_parser_class_name metadata_path w
        = (Ok (path, l'), w2) ∧
        l' ≠ l ∧
        frames w2 !! l' = Some engineered ∧
        frames w2 !! l = Some table ∧
        csv_files w2 = <[path := engineered]> (csv_files w)
  | Raise e =>
      ∃ w2,
        _create_input_space input_config original_data output_path
          (Some feature_engineering) metadata_parser_class_name metadata_path w
        = (Raise e, w2) ∧
        frames w2 !! l = Some table ∧
        csv_files w2 = csv_files w
  end.
Proof.
  intros Hrun Htable.
  destruct (input_space_table _ _ _ _ _ _ _ _ _ Hrun)
    as (history & interp & Hh & Hi & Hk & Hl & Hpath & Hw1 & Hframe).
  cbv zeta in Hl, Hpath, Hw1, Hframe.
  rewrite Hframe in Htable. injection Htable as Htable.
  set (table0 :=
         add_fixed_values (dict_flatten (cfg_fixed_values input_config))
           (pd_DataFrame
              (product
                 (dict_values
                    (dict_union (dict_flatten (cfg_variable_values input_config))
                       interp)))
              (dict_keys
                 (dict_union (dict_flatten (cfg_variable_values input_config))
                    interp)))).
  assert (table0 = table) as Htable0.
  { rewrite <- Htable. unfold table0.
    rewrite (dict_union_disjoint interp);
      [|eapply interpolation_keys_NoDup; eassumption
       |now apply keys_overlap_false].
    unfold dict_values, dict_keys. now rewrite !map_app. }
  assert (_create_input_space input_config original_data output_path
            (Some feature_engineering) metadata_parser_class_name
            metadata_path w
          = bind (bind (lift (add_feature_engineering metadata_path table0
                                feature_engineering
                                metadata_parser_class_name)) new_frame)
              (λ input_space_df,
                 bind (write_df_to_csv input_space_df output_path
                         PRED_INPUT_SPACE_FILE)
                   (λ path, ret (path, input_space_df)))
              (set_frames (<[l := table0]> (frames w)) w)) as Hfe.
  { unfold _create_input_space.
    rewrite (bind_Ok _ _ _ _ _ (read_history _ _ _ Hh)).
    unfold lift at 1. rewrite Hi. unfold bind at 1. rewrite Hk.
    unfold bind at 1, new_frame at 1. rewrite <- Hl.
    erewrite bind_Ok; [|apply fixed_values_loop; simpl; apply lookup_insert_eq].
    simpl frames. rewrite insert_insert_eq. fold table0.
    unfold bind at 1 2.
    rewrite (read_frame_run l table0) by (simpl; apply lookup_insert_eq).
    reflexivity. }
  rewrite Htable0 in Hfe. clear Htable0 table0.
  assert (frames w !! l = None) as Hfresh by (subst l; apply fresh_frame).
  destruct (add_feature_engineering metadata_path table feature_engineering
              metadata_parser_class_name) as [engineered|e].
  - assert (fresh (dom (<[l := table]> (frames w))) ≠ l) as Hne.
    { intros Heq.
      pose proof (fresh_frame (set_frames (<[l := table]> (frames w)) w))
        as Hnone.
      simpl in Hnone. rewrite Heq, lookup_insert_eq in Hnone. discriminate. }
    exists (fresh (dom (<[l := table]> (frames w)))). eexists.
    split; [|split; [exact Hne|split; [|split]]].
    + rewrite Hfe. unfold bind at 2, lift at 1. unfold bind at 1, new_frame at 1.
      erewrite bind_Ok;
        [|apply write_df_to_csv_run; simpl; apply lookup_insert_eq].
      rewrite <- Hpath. reflexivity.
    + simpl. apply lookup_insert_eq.
    + simpl. rewrite lookup_insert_ne by exact Hne. apply lookup_insert_eq.
    + reflexivity.
  - eexists. split; [rewrite Hfe; reflexivity|].
    split; [simpl; apply lookup_insert_eq | reflexivity].
Qed.

End FeatureEngineering.

(** X25 on the configuration of the example, with the stand-in that adds
    the column [b_meta]. *)
Lemma feature_engineering_comes_last_witness :
  ∃ l' w2,
    @_create_input_space joining_collaborators cfg_example None "out"
      (Some [("b", "b_meta")]) None None empty_world
    = (Ok ("out/input-space.csv", l'), w2) ∧
    frames w2 !! l'
    = Some {| columns := ["b"; "a"; "b_meta"];
              rows := [[VInt 1; VInt 1; VStr ""]; [VInt 2; VInt 1; VStr ""]] |} ∧
    frames w2 !! 0 = Some input_space_example.
Proof.
  pose proof (@feature_engineering_comes_last joining_collaborators cfg_example
                None "out" [("b", "b_meta")] None None empty_world
                (snd (@_create_input_space joining_collaborators cfg_example
                        None "out" None None None empty_world))
                "out/input-space.csv" 0%nat input_space_example) as Hlast.
  destruct Hlast as (l' & w2 & Hrun & _ & Hnew & Hold & _).
  - vm_compute. reflexivity.
  - reflexivity.
  - exists l', w2. split; [exact Hrun|]. split; [exact Hnew | exact Hold].
Defined.
